(** * iTAG key-finder driver: discovery lister and device session

    A shallow embedding of [drivers/itag/driver.js] (the pairing list) and of
    the device class (connect attempt, disconnect observer, ring actuation,
    RSSI monitor, reconnect scheduling, teardown).

    Every [async] method is a computation in a state-and-exception monad over
    the session: the state is the object's fields together with the part of
    the hub and of the BLE transport that the methods touch (capability store,
    pending timers, registered listeners, link registry, one-shot disconnect
    observers) and a trace of the calls made.  What the collaborators answer
    at each [await] is read from a [world] record, so that a statement
    quantified over [world] covers every resolution and every rejection.

    Conventions of the model:
    - a handler (a method, a listener, a timer callback) runs to completion
      before the next input is taken, and each input brings its own [world]:
      the runs of [react] are the schedules in which no input arrives while
      a handler awaits, and a property stated over [run] is a property of
      those schedules; two ring commands that overlap are modelled apart
      ([overlappingRings]);
    - a thrown value, and the reason of a rejected promise, is an object
      with properties to read ([Error]) or one of [undefined] and [null]: a
      promise may be rejected with any value, and the catch block of
      [connectToDevice] reads [error.message];
    - strings are sequences of ASCII characters (a stored address is a MAC
      address): [toLowerCase] is [String.prototype.toLowerCase] on those;
    - the [rssi] of an advertisement is a number or [undefined], not [null];
    - the rejection handler of a promise chain that is not awaited (lines
      149 and 157) is run where the chain is made: the position of its log
      line among the later steps of the observer is not modelled;
    - [this.log], [this.error], the timer functions and the registration
      calls of the hub ([registerCapabilityListener], [getActionCard],
      [registerRunListener], [__registerPeripheral]) do not throw;
    - the two trigger cards fetched by [onInit] are always there;
    - [setCapabilityValue] does not call the capability's listener. *)

From Stdlib Require Import List ZArith String Ascii Bool Arith Lia.
From Stdlib Require Import Strings.Byte.
Import ListNotations.

#[local] Open Scope string_scope.
#[local] Open Scope Z_scope.

(** ** Values exchanged with the collaborators *)

Definition handle := nat.
Definition link := nat.

(** A thrown value, or the reason of a rejected promise: an [Error] object
    (or any other value whose properties can be read), [undefined] or
    [null]. *)
Inductive error :=
| Error (message : string)
| Undefined
| Null.

Definition TypeError (msg : string) : error := Error msg.

(** Outcome of a call: normal return (a resolved promise) or a throw (a
    rejected promise). *)
Inductive completion (A : Type) : Type :=
| Normal (a : A)
| Throw (e : error).

Arguments Normal {A} a.
Arguments Throw {A} e.

Inductive capability := ring | alarm_disconnected | measure_signal_strength.

Inductive capval :=
| VBool (b : bool)
| VNum (z : Z).

Inductive card := device_disconnected | device_reconnected | start_ringing | stop_ringing.

Record characteristic := { char_id : option string; char_uuid : string }.

Record service := { svc_id : option string; svc_uuid : string }.

Record advertisement := {
  ad_uuid : string;
  ad_address : string;
  ad_localName : option string;
  ad_manufacturerData : list byte;
  ad_rssi : option Z;
  ad_connect : completion link
}.

(** The answers of the hub and of the transport during one handler run. *)
Record world := {
  homey_version : option Z;
  ble_find : string -> completion advertisement;
  ble_discover : completion (list advertisement);
  discoverServices : link -> completion (list service);
  getService : link -> string -> completion (option service);
  getCharacteristic : service -> string -> completion (option characteristic);
  char_write : characteristic -> list byte -> completion unit;
  updateRssi : link -> completion (option Z);
  peripheral_disconnect : link -> completion unit;
  hub_setCapabilityValue : capability -> capval -> completion unit;
  flow_trigger : card -> completion unit
}.

(** ** Strings: [Buffer.toString('hex')], [replace(/:/g, '')], [toLowerCase] *)

Definition hexDigit (n : N) : ascii :=
  match n with
  | 0%N => "0" | 1%N => "1" | 2%N => "2" | 3%N => "3"
  | 4%N => "4" | 5%N => "5" | 6%N => "6" | 7%N => "7"
  | 8%N => "8" | 9%N => "9" | 10%N => "a" | 11%N => "b"
  | 12%N => "c" | 13%N => "d" | 14%N => "e" | _ => "f"
  end%char.

Definition hexByte (b : byte) : string :=
  let n := Byte.to_N b in
  String (hexDigit (N.div n 16)) (String (hexDigit (N.modulo n 16)) EmptyString).

Fixpoint toHex (buf : list byte) : string :=
  match buf with
  | [] => EmptyString
  | b :: rest => hexByte b ++ toHex rest
  end.

Fixpoint removeColons (s : string) : string :=
  match s with
  | EmptyString => EmptyString
  | String c rest =>
      if Ascii.eqb c ":"%char then removeColons rest else String c (removeColons rest)
  end.

Definition lowerAscii (c : ascii) : ascii :=
  let n := N_of_ascii c in
  if (65 <=? n)%N && (n <=? 90)%N then ascii_of_N (n + 32) else c.

(** [String.prototype.toLowerCase] on ASCII strings. *)
Fixpoint toLowerCase (s : string) : string :=
  match s with
  | EmptyString => EmptyString
  | String c rest => String (lowerAscii c) (toLowerCase rest)
  end.

(** ** Discovery lister: [drivers/itag/driver.js] *)

Module Driver.

(** The advertised name the filter compares with: four letters and twelve
    spaces. *)
Definition productName : string := "iTAG            ".

Record candidate := {
  name : string;
  data_id : string;
  store_manufacturerData : string;
  store_address : string
}.

Definition isTag (advertisement : advertisement) : bool :=
  match ad_localName advertisement with
  | Some n => String.eqb n productName
  | None => false
  end.

Definition toDevice (tag : advertisement) : candidate :=
  {| name := "iTAG " ++ ad_address tag;
     data_id := ad_address tag;
     store_manufacturerData := toHex (ad_manufacturerData tag);
     store_address := ad_address tag |}.

(** [onPairListDevices]: the two [this.log] lines do not change the result
    and are left out; a rejected [discover()] is not caught. *)
Definition onPairListDevices (w : world) : completion (list candidate) :=
  match ble_discover w with
  | Throw e => Throw e
  | Normal advertisements =>
      let tags := filter isTag advertisements in
      let devices := map toDevice tags in
      Normal devices
  end.

End Driver.

(** ** Device session: state *)

Inductive callback := ReconnectCallback | RingStopCallback | RssiPollCallback.

(** A timer held by the hub's scheduler: [setTimeout] ones fire once,
    [setInterval] ones repeat. *)
Record timer := {
  t_handle : handle;
  t_ms : Z;
  t_callback : callback;
  t_repeat : bool
}.

Inductive event :=
| Log (msg : string)
| LogError (msg : string) (e : error)
| BleFind (uuid : string)
| BleDiscover
| AdConnect (uuid : string)
| DiscoverServices (p : link)
| GetService (p : link) (uuid : string)
| GetCharacteristic (svc : service) (uuid : string)
| CharWrite (c : characteristic) (data : list byte)
| UpdateRssi (p : link)
| PeripheralDisconnect (p : link)
| RegisterPeripheral (p : link)
| UnregisterPeripheral (p : link)
| SetCapabilityValue (c : capability) (v : capval)
| FlowTrigger (c : card)
| SetTimeout (h : handle) (ms : Z) (cb : callback)
| SetInterval (h : handle) (ms : Z) (cb : callback)
| ClearTimeout (h : handle)
| ClearInterval (h : handle).

(** The fields of [this].  An unset field ([undefined]) is [None] or [false].
    [ringTimeout] is the field read by [onDeleted]; [_ringTimeout] is the one
    the ring listeners assign. *)
Record device := {
  wasDisconnected : bool;
  peripheral : option link;
  alertChar : option characteristic;
  ringListenerRegistered : bool;
  flowActionsRegistered : bool;
  rssiInterval : option handle;
  reconnectTimeout : option handle;
  _ringTimeout : option handle;
  ringTimeout : option handle
}.

(** What the session holds at the hub and at the transport. *)
Record hub := {
  storeAddress : option string;
  capabilities : capability -> option capval;
  timers : list timer;
  nextHandle : handle;
  ringListeners : nat;
  startRunListeners : nat;
  stopRunListeners : nat;
  registry : list link;
  disconnectObservers : list link;
  trace : list event
}.

Record session := { this : device; homey : hub }.

Definition set_wasDisconnected (v : bool) (d : device) : device :=
  {| wasDisconnected := v; peripheral := peripheral d; alertChar := alertChar d;
     ringListenerRegistered := ringListenerRegistered d;
     flowActionsRegistered := flowActionsRegistered d;
     rssiInterval := rssiInterval d; reconnectTimeout := reconnectTimeout d;
     _ringTimeout := _ringTimeout d; ringTimeout := ringTimeout d |}.

Definition set_peripheral (v : option link) (d : device) : device :=
  {| wasDisconnected := wasDisconnected d; peripheral := v; alertChar := alertChar d;
     ringListenerRegistered := ringListenerRegistered d;
     flowActionsRegistered := flowActionsRegistered d;
     rssiInterval := rssiInterval d; reconnectTimeout := reconnectTimeout d;
     _ringTimeout := _ringTimeout d; ringTimeout := ringTimeout d |}.

Definition set_alertChar (v : option characteristic) (d : device) : device :=
  {| wasDisconnected := wasDisconnected d; peripheral := peripheral d; alertChar := v;
     ringListenerRegistered := ringListenerRegistered d;
     flowActionsRegistered := flowActionsRegistered d;
     rssiInterval := rssiInterval d; reconnectTimeout := reconnectTimeout d;
     _ringTimeout := _ringTimeout d; ringTimeout := ringTimeout d |}.

Definition set_ringListenerRegistered (v : bool) (d : device) : device :=
  {| wasDisconnected := wasDisconnected d; peripheral := peripheral d;
     alertChar := alertChar d; ringListenerRegistered := v;
     flowActionsRegistered := flowActionsRegistered d;
     rssiInterval := rssiInterval d; reconnectTimeout := reconnectTimeout d;
     _ringTimeout := _ringTimeout d; ringTimeout := ringTimeout d |}.

Definition set_flowActionsRegistered (v : bool) (d : device) : device :=
  {| wasDisconnected := wasDisconnected d; peripheral := peripheral d;
     alertChar := alertChar d; ringListenerRegistered := ringListenerRegistered d;
     flowActionsRegistered := v;
     rssiInterval := rssiInterval d; reconnectTimeout := reconnectTimeout d;
     _ringTimeout := _ringTimeout d; ringTimeout := ringTimeout d |}.

Definition set_rssiInterval (v : option handle) (d : device) : device :=
  {| wasDisconnected := wasDisconnected d; peripheral := peripheral d;
     alertChar := alertChar d; ringListenerRegistered := ringListenerRegistered d;
     flowActionsRegistered := flowActionsRegistered d;
     rssiInterval := v; reconnectTimeout := reconnectTimeout d;
     _ringTimeout := _ringTimeout d; ringTimeout := ringTimeout d |}.

Definition set_reconnectTimeout (v : option handle) (d : device) : device :=
  {| wasDisconnected := wasDisconnected d; peripheral := peripheral d;
     alertChar := alertChar d; ringListenerRegistered := ringListenerRegistered d;
     flowActionsRegistered := flowActionsRegistered d;
     rssiInterval := rssiInterval d; reconnectTimeout := v;
     _ringTimeout := _ringTimeout d; ringTimeout := ringTimeout d |}.

Definition set__ringTimeout (v : option handle) (d : device) : device :=
  {| wasDisconnected := wasDisconnected d; peripheral := peripheral d;
     alertChar := alertChar d; ringListenerRegistered := ringListenerRegistered d;
     flowActionsRegistered := flowActionsRegistered d;
     rssiInterval := rssiInterval d; reconnectTimeout := reconnectTimeout d;
     _ringTimeout := v; ringTimeout := ringTimeout d |}.

Definition set_capabilities (v : capability -> option capval) (h : hub) : hub :=
  {| storeAddress := storeAddress h; capabilities := v; timers := timers h;
     nextHandle := nextHandle h; ringListeners := ringListeners h;
     startRunListeners := startRunListeners h; stopRunListeners := stopRunListeners h;
     registry := registry h; disconnectObservers := disconnectObservers h;
     trace := trace h |}.

Definition set_timers (v : list timer) (h : hub) : hub :=
  {| storeAddress := storeAddress h; capabilities := capabilities h; timers := v;
     nextHandle := nextHandle h; ringListeners := ringListeners h;
     startRunListeners := startRunListeners h; stopRunListeners := stopRunListeners h;
     registry := registry h; disconnectObservers := disconnectObservers h;
     trace := trace h |}.

Definition set_nextHandle (v : handle) (h : hub) : hub :=
  {| storeAddress := storeAddress h; capabilities := capabilities h; timers := timers h;
     nextHandle := v; ringListeners := ringListeners h;
     startRunListeners := startRunListeners h; stopRunListeners := stopRunListeners h;
     registry := registry h; disconnectObservers := disconnectObservers h;
     trace := trace h |}.

Definition set_ringListeners (v : nat) (h : hub) : hub :=
  {| storeAddress := storeAddress h; capabilities := capabilities h; timers := timers h;
     nextHandle := nextHandle h; ringListeners := v;
     startRunListeners := startRunListeners h; stopRunListeners := stopRunListeners h;
     registry := registry h; disconnectObservers := disconnectObservers h;
     trace := trace h |}.

Definition set_startRunListeners (v : nat) (h : hub) : hub :=
  {| storeAddress := storeAddress h; capabilities := capabilities h; timers := timers h;
     nextHandle := nextHandle h; ringListeners := ringListeners h;
     startRunListeners := v; stopRunListeners := stopRunListeners h;
     registry := registry h; disconnectObservers := disconnectObservers h;
     trace := trace h |}.

Definition set_stopRunListeners (v : nat) (h : hub) : hub :=
  {| storeAddress := storeAddress h; capabilities := capabilities h; timers := timers h;
     nextHandle := nextHandle h; ringListeners := ringListeners h;
     startRunListeners := startRunListeners h; stopRunListeners := v;
     registry := registry h; disconnectObservers := disconnectObservers h;
     trace := trace h |}.

Definition set_registry (v : list link) (h : hub) : hub :=
  {| storeAddress := storeAddress h; capabilities := capabilities h; timers := timers h;
     nextHandle := nextHandle h; ringListeners := ringListeners h;
     startRunListeners := startRunListeners h; stopRunListeners := stopRunListeners h;
     registry := v; disconnectObservers := disconnectObservers h;
     trace := trace h |}.

Definition set_disconnectObservers (v : list link) (h : hub) : hub :=
  {| storeAddress := storeAddress h; capabilities := capabilities h; timers := timers h;
     nextHandle := nextHandle h; ringListeners := ringListeners h;
     startRunListeners := startRunListeners h; stopRunListeners := stopRunListeners h;
     registry := registry h; disconnectObservers := v;
     trace := trace h |}.

Definition set_trace (v : list event) (h : hub) : hub :=
  {| storeAddress := storeAddress h; capabilities := capabilities h; timers := timers h;
     nextHandle := nextHandle h; ringListeners := ringListeners h;
     startRunListeners := startRunListeners h; stopRunListeners := stopRunListeners h;
     registry := registry h; disconnectObservers := disconnectObservers h;
     trace := v |}.

(** ** The monad of handlers *)

Definition M (A : Type) : Type := session -> completion A * session.

Definition ret {A : Type} (a : A) : M A := fun s => (Normal a, s).

Definition bind {A B : Type} (m : M A) (k : A -> M B) : M B :=
  fun s =>
    match m s with
    | (Normal a, s') => k a s'
    | (Throw e, s') => (Throw e, s')
    end.

Definition throw {A : Type} (e : error) : M A := fun s => (Throw e, s).

(** [try { body } catch (error) { handler }]: what [body] did to the state
    before it threw stays done. *)
Definition try_catch {A : Type} (body : M A) (handler : error -> M A) : M A :=
  fun s =>
    match body s with
    | (Normal a, s') => (Normal a, s')
    | (Throw e, s') => handler e s'
    end.

Declare Scope monad_scope.
Delimit Scope monad_scope with monad.
Notation "x <- m ;; k" := (bind m (fun x => k))
  (at level 61, m at next level, right associativity) : monad_scope.
Notation "m ;; k" := (bind m (fun _ => k))
  (at level 61, right associativity) : monad_scope.
#[local] Open Scope monad_scope.

Definition gets {A : Type} (f : device -> A) : M A := fun s => (Normal (f (this s)), s).

Definition assign (f : device -> device) : M unit :=
  fun s => (Normal tt, {| this := f (this s); homey := homey s |}).

Definition hubGets {A : Type} (f : hub -> A) : M A := fun s => (Normal (f (homey s)), s).

Definition hubDo (f : hub -> hub) : M unit :=
  fun s => (Normal tt, {| this := this s; homey := f (homey s) |}).

Definition emit (e : event) : M unit := hubDo (fun h => set_trace (trace h ++ [e]) h).

(** A call to a collaborator: the call is recorded, the world gives the
    outcome. *)
Definition call {A : Type} (e : event) (outcome : completion A) : M A :=
  fun s => (outcome, {| this := this s; homey := set_trace (trace (homey s) ++ [e]) (homey s) |}).

Definition log (msg : string) : M unit := emit (Log msg).

Definition logError (msg : string) (e : error) : M unit := emit (LogError msg e).

(** ** Hub and transport primitives *)

Definition capability_eqb (a b : capability) : bool :=
  match a, b with
  | ring, ring => true
  | alarm_disconnected, alarm_disconnected => true
  | measure_signal_strength, measure_signal_strength => true
  | _, _ => false
  end.

(** [this.setCapabilityValue(c, v)]: the hub stores the value when it accepts
    the write and rejects the promise otherwise. *)
Definition setCapabilityValue (w : world) (c : capability) (v : capval) : M unit :=
  call (SetCapabilityValue c v) (hub_setCapabilityValue w c v) ;;
  hubDo (fun h =>
    set_capabilities (fun c' => if capability_eqb c c' then Some v else capabilities h c') h).

Definition trigger (w : world) (c : card) : M unit :=
  call (FlowTrigger c) (flow_trigger w c).

Definition schedule (cb : callback) (ms : Z) (repeat : bool) : M handle :=
  fun s =>
    let h := nextHandle (homey s) in
    (Normal h,
     {| this := this s;
        homey := set_nextHandle (S h)
                   (set_timers (timers (homey s) ++
                      [{| t_handle := h; t_ms := ms; t_callback := cb;
                          t_repeat := repeat |}]) (homey s)) |}).

Definition setTimeout (cb : callback) (ms : Z) : M handle :=
  h <- schedule cb ms false ;;
  emit (SetTimeout h ms cb) ;;
  ret h.

Definition setInterval (cb : callback) (ms : Z) : M handle :=
  h <- schedule cb ms true ;;
  emit (SetInterval h ms cb) ;;
  ret h.

Definition cancel (h : handle) : M unit :=
  hubDo (fun hb => set_timers (filter (fun t => negb (t_handle t =? h)%nat) (timers hb)) hb).

Definition clearTimeout (h : handle) : M unit := emit (ClearTimeout h) ;; cancel h.

Definition clearInterval (h : handle) : M unit := emit (ClearInterval h) ;; cancel h.

Definition registerPeripheral (p : link) : M unit :=
  emit (RegisterPeripheral p) ;;
  hubDo (fun hb => set_registry (p :: registry hb) hb).

Definition unregisterPeripheral (p : link) : M unit :=
  emit (UnregisterPeripheral p) ;;
  hubDo (fun hb => set_registry (filter (fun q => negb (q =? p)%nat) (registry hb)) hb).

(** [peripheral.once('disconnect', ...)] *)
Definition onceDisconnect (p : link) : M unit :=
  hubDo (fun hb => set_disconnectObservers (disconnectObservers hb ++ [p]) hb).

(** [!x.id]: a missing or empty identifier is falsy. *)
Definition noId (id : option string) : bool :=
  match id with
  | None => true
  | Some EmptyString => true
  | Some _ => false
  end.

Definition connectionId (address : string) : string := toLowerCase (removeColons address).

(** [this.getStoreValue('address')] followed by [address.replace(...)]: a
    missing address makes the method call throw. *)
Definition storedConnectionId : M string :=
  address <- hubGets storeAddress ;;
  match address with
  | Some a => ret (connectionId a)
  | None => throw (TypeError "Cannot read properties of null (reading 'replace')")
  end.

(** ** Device session: methods *)

Definition updateRSSI (w : world) (rssi : option Z) : M unit :=
  match rssi with
  | Some r =>
      log "Updating RSSI to:" ;;
      try_catch (setCapabilityValue w measure_signal_strength (VNum r))
        (fun error => logError "Error setting RSSI capability:" error)
  | None => ret tt
  end.

Definition reconnect : M unit :=
  log "Attempting to reconnect..." ;;
  h <- setTimeout ReconnectCallback 7000 ;;
  assign (set_reconnectTimeout (Some h)).

(** [ringDevice(value)]: the branch is [value === true]; the first log line
    is written without the quotation marks of the source. *)
Definition ringDevice (w : world) (value : bool) : M unit :=
  log "Capability ring changed to:" ;;
  if value then
    log "Ringing iTAG device..." ;;
    try_catch
      (c <- gets alertChar ;;
       match c with
       | Some ch => call (CharWrite ch [x02]) (char_write w ch [x02])
       | None => throw (TypeError "Cannot read properties of undefined (reading 'write')")
       end ;;
       log "iTAG device rung successfully")
      (fun error => logError "Error ringing iTAG device:" error)
  else
    log "Stopping ring on iTAG device..." ;;
    try_catch
      (c <- gets alertChar ;;
       match c with
       | Some ch => call (CharWrite ch [x00]) (char_write w ch [x00])
       | None => throw (TypeError "Cannot read properties of undefined (reading 'write')")
       end ;;
       log "iTAG device ring stopped successfully")
      (fun error => logError "Error stopping ring on iTAG device:" error).

(** The callback both ring paths hand to [setTimeout]. *)
Definition ringStop (w : world) : M unit :=
  ringDevice w false ;;
  setCapabilityValue w ring (VBool false).

(** The listener of the [ring] capability. *)
Definition ringListener (w : world) (value : bool) : M bool :=
  ringDevice w value ;;
  (if value then
     h <- setTimeout RingStopCallback 10000 ;;
     assign (set__ringTimeout (Some h))
   else
     t <- gets _ringTimeout ;;
     match t with
     | Some h => clearTimeout h ;; assign (set__ringTimeout None)
     | None => ret tt
     end) ;;
  ret true.

(** The run listener of the [start_ringing] action card. *)
Definition startRingingListener (w : world) : M bool :=
  log "Flow action: Start Ringing" ;;
  ringDevice w true ;;
  setCapabilityValue w ring (VBool true) ;;
  h <- setTimeout RingStopCallback 10000 ;;
  assign (set__ringTimeout (Some h)) ;;
  ret true.

(** The run listener of the [stop_ringing] action card. *)
Definition stopRingingListener (w : world) : M bool :=
  log "Flow action: Stop Ringing" ;;
  ringDevice w false ;;
  t <- gets _ringTimeout ;;
  match t with
  | Some h => clearTimeout h ;; assign (set__ringTimeout None)
  | None => ret tt
  end ;;
  setCapabilityValue w ring (VBool false) ;;
  ret true.

(** *** A ring command in two steps

    The listener of [ring] suspends where [ringDevice] awaits the write to
    the tag (lines 239 and 246), so that a second command can start while
    the first waits.  The listener up to that [await], and from it on. *)

(** The answer to a call issued earlier. *)
Definition settle {A : Type} (outcome : completion A) : M A := fun s => (outcome, s).

(** [ringDevice(value)] up to its [await]: the write is issued on the stored
    characteristic; a missing handle throws before anything is awaited and
    is logged at once. *)
Definition ringDeviceIssues (value : bool) : M (option characteristic) :=
  log "Capability ring changed to:" ;;
  if value then
    log "Ringing iTAG device..." ;;
    c <- gets alertChar ;;
    match c with
    | Some ch => emit (CharWrite ch [x02]) ;; ret (Some ch)
    | None =>
        logError "Error ringing iTAG device:"
          (TypeError "Cannot read properties of undefined (reading 'write')") ;;
        ret None
    end
  else
    log "Stopping ring on iTAG device..." ;;
    c <- gets alertChar ;;
    match c with
    | Some ch => emit (CharWrite ch [x00]) ;; ret (Some ch)
    | None =>
        logError "Error stopping ring on iTAG device:"
          (TypeError "Cannot read properties of undefined (reading 'write')") ;;
        ret None
    end.

(** The rest of [ringDevice(value)], once the write has settled. *)
Definition ringDeviceSettles (w : world) (value : bool) (issued : option characteristic)
  : M unit :=
  match issued with
  | Some ch =>
      if value then
        try_catch (settle (char_write w ch [x02]) ;; log "iTAG device rung successfully")
          (fun error => logError "Error ringing iTAG device:" error)
      else
        try_catch
          (settle (char_write w ch [x00]) ;; log "iTAG device ring stopped successfully")
          (fun error => logError "Error stopping ring on iTAG device:" error)
  | None => ret tt
  end.

(** Lines 171-182: what the listener does after [await this.ringDevice(value)]. *)
Definition ringListenerAfter (value : bool) : M bool :=
  (if value then
     h <- setTimeout RingStopCallback 10000 ;;
     assign (set__ringTimeout (Some h))
   else
     t <- gets _ringTimeout ;;
     match t with
     | Some h => clearTimeout h ;; assign (set__ringTimeout None)
     | None => ret tt
     end) ;;
  ret true.

Definition ringListenerResumes (w : world) (value : bool) (issued : option characteristic)
  : M bool :=
  ringDeviceSettles w value issued ;;
  ringListenerAfter value.

(** Two ring commands, the second arriving while the first awaits its
    write: both listeners run up to the [await], then the first goes on,
    then the second. *)
Definition overlappingRings (w1 w2 : world) : M bool :=
  first <- ringDeviceIssues true ;;
  second <- ringDeviceIssues true ;;
  ringListenerResumes w1 true first ;;
  ringListenerResumes w2 true second.

(** The one-shot observer registered on a link. *)
Definition onDisconnect (w : world) (p : link) : M unit :=
  log "iTAG device disconnected" ;;
  try_catch (setCapabilityValue w alarm_disconnected (VBool true))
    (fun err => logError "Error setting disconnected alarm:" err) ;;
  assign (set_wasDisconnected true) ;;
  try_catch (trigger w device_disconnected)
    (fun err => logError "Error triggering disconnected Flow:" err) ;;
  unregisterPeripheral p ;;
  assign (set_peripheral None) ;;
  reconnect.

(** Lines 73-80 of the connect attempt. *)
Definition notifyReconnected (w : world) : M unit :=
  was <- gets wasDisconnected ;;
  if was then
    log "Triggering device_reconnected Flow" ;;
    try_catch (trigger w device_reconnected)
      (fun err => logError "Error triggering reconnected Flow:" err) ;;
    assign (set_wasDisconnected false)
  else ret tt.

(** Lines 167-215: the listeners, each behind its flag. *)
Definition registerListeners : M unit :=
  r <- gets ringListenerRegistered ;;
  (if negb r then
     hubDo (fun hb => set_ringListeners (S (ringListeners hb)) hb) ;;
     assign (set_ringListenerRegistered true)
   else ret tt) ;;
  f <- gets flowActionsRegistered ;;
  (if negb f then
     hubDo (fun hb => set_startRunListeners (S (startRunListeners hb)) hb) ;;
     hubDo (fun hb => set_stopRunListeners (S (stopRunListeners hb)) hb) ;;
     assign (set_flowActionsRegistered true)
   else ret tt).

Definition withId (c : characteristic) : characteristic :=
  if noId (char_id c) then {| char_id := Some (char_uuid c); char_uuid := char_uuid c |} else c.

(** The [try] block of [connectToDevice], in the order of the source.

    Lines 57-71: locate the advertisement, record its RSSI, request the link
    and clear the alarm. *)
Definition establishLink (w : world) : M link :=
  uuid <- storedConnectionId ;;
  log "Finding iTAG device..." ;;
  advertisement <- call (BleFind uuid) (ble_find w uuid) ;;
  updateRSSI w (ad_rssi advertisement) ;;
  log "Connecting to iTAG device..." ;;
  peripheral <- call (AdConnect uuid) (ad_connect advertisement) ;;
  log "Connected successfully" ;;
  setCapabilityValue w alarm_disconnected (VBool false) ;;
  ret peripheral.

(** Lines 82-139: register the link, resolve the two services and the three
    characteristics, keep the alert characteristic and silence the tag's own
    link-loss alarm. *)
Definition bindCharacteristics (w : world) (peripheral : link) : M unit :=
  log "Registering peripheral for notifications..." ;;
  registerPeripheral peripheral ;;
  log "Peripheral registered" ;;
  log "Discovering all services..." ;;
  services <- call (DiscoverServices peripheral) (discoverServices w peripheral) ;;
  log "Discovered services" ;;
  service <- call (GetService peripheral "0000ffe000001000800000805f9b34fb")
                  (getService w peripheral "0000ffe000001000800000805f9b34fb") ;;
  service <- match service with
             | Some sv => ret sv
             | None => throw (Error "FFE0 service not found")
             end ;;
  alertService <- call (GetService peripheral "0000180200001000800000805f9b34fb")
                       (getService w peripheral "0000180200001000800000805f9b34fb") ;;
  log "Found FFE0 service, ID:" ;;
  service <- (if noId (svc_id service) then
                log "WARNING: service.id is undefined, manually setting it" ;;
                ret {| svc_id := Some (svc_uuid service); svc_uuid := svc_uuid service |}
              else ret service) ;;
  linkLostChar <- call (GetCharacteristic service "0000ffe200001000800000805f9b34fb")
                       (getCharacteristic w service "0000ffe200001000800000805f9b34fb") ;;
  buttonChar <- call (GetCharacteristic service "0000ffe100001000800000805f9b34fb")
                     (getCharacteristic w service "0000ffe100001000800000805f9b34fb") ;;
  alertChar <- match alertService with
               | Some sv =>
                   call (GetCharacteristic sv "00002a0600001000800000805f9b34fb")
                        (getCharacteristic w sv "00002a0600001000800000805f9b34fb")
               | None =>
                   throw (TypeError "Cannot read properties of null (reading 'getCharacteristic')")
               end ;;
  linkLostChar <- match linkLostChar with
                  | Some c => ret c
                  | None => throw (Error "LinkLost characteristic (FFE2) not found")
                  end ;;
  buttonChar <- match buttonChar with
                | Some c => ret c
                | None => throw (Error "Button characteristic (FFE1) not found")
                end ;;
  alertChar <- match alertChar with
               | Some c => ret c
               | None => throw (Error "Alert characteristic (2A06) not found")
               end ;;
  let linkLostChar := withId linkLostChar in
  let buttonChar := withId buttonChar in
  let alertChar := withId alertChar in
  assign (set_alertChar (Some alertChar)) ;;
  log "Found all characteristics" ;;
  log "Writing to LinkLost characteristic to disable alarm..." ;;
  call (CharWrite linkLostChar [x00]) (char_write w linkLostChar [x00]) ;;
  log "Successfully disabled LinkLost alarm".

(** Lines 141-215: keep the link, observe its loss, register the listeners
    (the two [getActionCard] lookups touch no state). *)
Definition holdLink (peripheral : link) : M unit :=
  assign (set_peripheral (Some peripheral)) ;;
  onceDisconnect peripheral ;;
  registerListeners.

Definition attempt (w : world) : M unit :=
  peripheral <- establishLink w ;;
  notifyReconnected w ;;
  bindCharacteristics w peripheral ;;
  holdLink peripheral.

(** What reading a property of a value throws: nothing for an object, a
    [TypeError] for [undefined] and for [null]. *)
Definition unreadable (property : string) (e : error) : option error :=
  match e with
  | Error _ => None
  | Undefined =>
      Some (TypeError ("Cannot read properties of undefined (reading '" ++ property ++ "')"))
  | Null =>
      Some (TypeError ("Cannot read properties of null (reading '" ++ property ++ "')"))
  end.

(** [error.message], [error.stack] *)
Definition readProperty (property : string) (error : error) : M unit :=
  match unreadable property error with
  | None => ret tt
  | Some typeError => throw typeError
  end.

(** The [catch] block of [connectToDevice] (lines 217-232): the three log
    lines use [this.log]; the second and the third read a property of the
    caught value first. *)
Definition attemptFailed (w : world) (error : error) : M unit :=
  log "Error connecting to iTAG device:" ;;
  readProperty "message" error ;;
  log "Error message:" ;;
  readProperty "stack" error ;;
  log "Error stack:" ;;
  try_catch (setCapabilityValue w alarm_disconnected (VBool true))
    (fun err => logError "Error setting disconnected alarm:" err) ;;
  assign (set_wasDisconnected true) ;;
  reconnect.

Definition connectToDevice (w : world) : M unit :=
  try_catch (attempt w) (attemptFailed w).

Definition startRSSIMonitoring : M unit :=
  log "Starting RSSI monitoring" ;;
  h <- setInterval RssiPollCallback 5000 ;;
  assign (set_rssiInterval (Some h)).

(** The callback handed to [setInterval]. *)
Definition rssiPoll (w : world) : M unit :=
  try_catch
    (p <- gets peripheral ;;
     match p with
     | Some p =>
         rssi <- call (UpdateRssi p) (updateRssi w p) ;;
         updateRSSI w rssi
     | None =>
         uuid <- storedConnectionId ;;
         advertisements <- call BleDiscover (ble_discover w) ;;
         match find (fun ad => String.eqb (ad_uuid ad) uuid) advertisements with
         | Some ad =>
             match ad_rssi ad with
             | Some r => updateRSSI w (Some r)
             | None => log "Device not found in BLE scan - may be out of range"
             end
         | None => log "Device not found in BLE scan - may be out of range"
         end
     end)
    (fun error => logError "Error updating RSSI:" error).

Definition onInit (w : world) : M unit :=
  log "iTAG device has been initialized" ;;
  log "Homey version:" ;;
  try_catch (setCapabilityValue w ring (VBool false))
    (fun error => logError "Error setting initial capability value:" error) ;;
  i <- gets rssiInterval ;;
  match i with
  | None => startRSSIMonitoring
  | Some _ => ret tt
  end ;;
  match homey_version w with
  | Some v =>
      if v <? 6 then log "Homey version does not support BLE notifications"
      else connectToDevice w
  | None => connectToDevice w
  end.

Definition onDeleted (w : world) : M unit :=
  log "iTAG device has been deleted" ;;
  i <- gets rssiInterval ;;
  match i with
  | Some h => clearInterval h
  | None => ret tt
  end ;;
  t <- gets reconnectTimeout ;;
  match t with
  | Some h => clearTimeout h
  | None => ret tt
  end ;;
  t <- gets ringTimeout ;;
  match t with
  | Some h => clearTimeout h
  | None => ret tt
  end ;;
  p <- gets peripheral ;;
  match p with
  | Some p =>
      try_catch
        (unregisterPeripheral p ;;
         call (PeripheralDisconnect p) (peripheral_disconnect w p))
        (fun _ => log "Error disconnecting:")
  | None => ret tt
  end.

(** ** Inputs to a session *)

Definition runCallback (w : world) (cb : callback) : M unit :=
  match cb with
  | ReconnectCallback => connectToDevice w
  | RingStopCallback => ringStop w
  | RssiPollCallback => rssiPoll w
  end.

(** The scheduler fires a pending timer: a [setTimeout] timer leaves the
    queue, then its callback runs. *)
Definition fire (w : world) (h : handle) : M unit :=
  ts <- hubGets timers ;;
  match find (fun t => (t_handle t =? h)%nat) ts with
  | Some t =>
      (if t_repeat t then ret tt else cancel h) ;;
      runCallback w (t_callback t)
  | None => ret tt
  end.

(** Every registration of a listener is one invocation per trigger; what an
    invocation returns or throws goes to the hub, not to the session. *)
Fixpoint invoke {A : Type} (n : nat) (listener : M A) (s : session) : session :=
  match n with
  | O => s
  | S k => invoke k listener (snd (listener s))
  end.

Definition observing (p : link) (s : session) : nat :=
  List.length (filter (fun q => (q =? p)%nat) (disconnectObservers (homey s))).

Definition dropObservers (p : link) (s : session) : session :=
  {| this := this s;
     homey := set_disconnectObservers
                (filter (fun q => negb (q =? p)%nat) (disconnectObservers (homey s)))
                (homey s) |}.

Inductive input :=
| TimerFires (h : handle)
| LinkDisconnects (p : link)
| RingSet (value : bool)
| StartRinging
| StopRinging
| DeviceDeleted.

Definition react (i : input) (w : world) (s : session) : session :=
  match i with
  | TimerFires h => snd (fire w h s)
  | LinkDisconnects p => invoke (observing p s) (onDisconnect w p) (dropObservers p s)
  | RingSet value => invoke (ringListeners (homey s)) (ringListener w value) s
  | StartRinging => invoke (startRunListeners (homey s)) (startRingingListener w) s
  | StopRinging => invoke (stopRunListeners (homey s)) (stopRingingListener w) s
  | DeviceDeleted => snd (onDeleted w s)
  end.

Fixpoint run (inputs : list (input * world)) (s : session) : session :=
  match inputs with
  | [] => s
  | (i, w) :: rest => run rest (react i w s)
  end.

(** A session object as the hub constructs it: no field set, nothing
    scheduled or registered; the paired address and the capability values
    are the ones the hub has stored. *)
Definition created (address : option string) (stored : capability -> option capval) : session :=
  {| this := {| wasDisconnected := false; peripheral := None; alertChar := None;
                ringListenerRegistered := false; flowActionsRegistered := false;
                rssiInterval := None; reconnectTimeout := None;
                _ringTimeout := None; ringTimeout := None |};
     homey := {| storeAddress := address; capabilities := stored; timers := [];
                 nextHandle := O; ringListeners := O; startRunListeners := O;
                 stopRunListeners := O; registry := []; disconnectObservers := [];
                 trace := [] |} |}.

Definition unset : capability -> option capval := fun _ => None.

(** The session after [onInit]. *)
Definition started (address : option string) (stored : capability -> option capval)
  (w : world) : session :=
  snd (onInit w (created address stored)).

(** ** Observations the properties are stated on *)

Definition callback_eqb (a b : callback) : bool :=
  match a, b with
  | ReconnectCallback, ReconnectCallback => true
  | RingStopCallback, RingStopCallback => true
  | RssiPollCallback, RssiPollCallback => true
  | _, _ => false
  end.

Definition pending (cb : callback) (s : session) : list timer :=
  filter (fun t => callback_eqb (t_callback t) cb) (timers (homey s)).

Definition alarm (s : session) : option capval := capabilities (homey s) alarm_disconnected.

(** The connection phase is not a field of the object: the session holds a
    live link exactly when [this.peripheral] is set.  The time an attempt is
    in flight lies inside one handler run, so between inputs a session is
    either connected or disconnected. *)
Inductive phase := Disconnected | Connected.

Definition connectionPhase (s : session) : phase :=
  match peripheral (this s) with
  | Some _ => Connected
  | None => Disconnected
  end.

Definition isTrigger (c : card) (e : event) : bool :=
  match e, c with
  | FlowTrigger device_disconnected, device_disconnected => true
  | FlowTrigger device_reconnected, device_reconnected => true
  | FlowTrigger start_ringing, start_ringing => true
  | FlowTrigger stop_ringing, stop_ringing => true
  | _, _ => false
  end.

(** How often a trigger card has fired so far. *)
Definition fired (c : card) (s : session) : nat :=
  List.length (filter (isTrigger c) (trace (homey s))).

Definition occurrences (p : event -> bool) (s : session) : nat :=
  List.length (filter p (trace (homey s))).

Definition isFind (e : event) : bool :=
  match e with
  | BleFind _ => true
  | _ => false
  end.

Definition isConnect (e : event) : bool :=
  match e with
  | AdConnect _ => true
  | _ => false
  end.

Definition isAlarmWrite (b : bool) (e : event) : bool :=
  match e with
  | SetCapabilityValue alarm_disconnected (VBool v) => Bool.eqb v b
  | _ => false
  end.

Definition isErrorLog (e : event) : bool :=
  match e with
  | LogError _ _ => true
  | _ => false
  end.

(** The characteristic writes in a stretch of trace, in order. *)
Fixpoint writesOf (tr : list event) : list (characteristic * list byte) :=
  match tr with
  | [] => []
  | CharWrite c data :: rest => (c, data) :: writesOf rest
  | _ :: rest => writesOf rest
  end.

(** ** Connect attempts and link losses as events *)

(** The connect attempt reaches line 73: the address is stored, [find] and
    [connect] resolve and the hub accepts clearing the alarm. *)
Definition linkUp (w : world) (s : session) : bool :=
  match storeAddress (homey s) with
  | None => false
  | Some a =>
      match ble_find w (connectionId a) with
      | Throw _ => false
      | Normal advertisement =>
          match ad_connect advertisement with
          | Throw _ => false
          | Normal _ =>
              match hub_setCapabilityValue w alarm_disconnected (VBool false) with
              | Throw _ => false
              | Normal _ => true
              end
          end
      end
  end.

(** Connect attempts and link losses as they reach the session. *)
Inductive lifecycle :=
| ConnectAttempt (w : world)
| LinkLost (w : world) (p : link).

Definition apply (e : lifecycle) (s : session) : session :=
  match e with
  | ConnectAttempt w => snd (connectToDevice w s)
  | LinkLost w p => snd (onDisconnect w p s)
  end.

Definition applyAll (es : list lifecycle) (s : session) : session :=
  fold_left (fun s e => apply e s) es s.

(** A connect attempt that succeeds, or a link loss whose alarm write the hub
    accepts. *)
Definition settles (e : lifecycle) (s : session) : Prop :=
  match e with
  | ConnectAttempt w => fst (attempt w s) = Normal tt
  | LinkLost w _ => hub_setCapabilityValue w alarm_disconnected (VBool true) = Normal tt
  end.

Definition alarmMirrorsLink (s : session) : Prop :=
  alarm s = Some (VBool true) <-> connectionPhase s <> Connected.

(** ** Invariants of a running session *)

(** Timers of the three kinds as the source arms them. *)
Definition shaped (t : timer) : Prop :=
  match t_callback t with
  | ReconnectCallback => t_ms t = 7000 /\ t_repeat t = false
  | RingStopCallback => t_ms t = 10000 /\ t_repeat t = false
  | RssiPollCallback => t_ms t = 5000 /\ t_repeat t = true
  end.

(** The scheduler's queue is well formed: handles are fresh and distinct. *)
Definition scheduled (s : session) : Prop :=
  Forall (fun t => (t_handle t < nextHandle (homey s))%nat) (timers (homey s)) /\
  NoDup (map t_handle (timers (homey s))) /\
  Forall shaped (timers (homey s)) /\
  ringTimeout (this s) = None.

Definition flag (b : bool) : nat := if b then 1%nat else 0%nat.

Definition listenersMatchFlags (s : session) : Prop :=
  ringListeners (homey s) = flag (ringListenerRegistered (this s)) /\
  startRunListeners (homey s) = flag (flowActionsRegistered (this s)) /\
  stopRunListeners (homey s) = flag (flowActionsRegistered (this s)).

(** What can still start a connect attempt: a pending reconnect timer or a
    link whose loss is observed. *)
Definition tokens (s : session) : nat :=
  (List.length (pending ReconnectCallback s) + List.length (disconnectObservers (homey s)))%nat.

(** Every pending ring-stop timer is the one [_ringTimeout] names. *)
Definition ringTracked (s : session) : Prop :=
  forall t, In t (pending RingStopCallback s) -> _ringTimeout (this s) = Some (t_handle t).

Definition arms (i : input) : bool :=
  match i with
  | RingSet true => true
  | StartRinging => true
  | _ => false
  end.

(** A run in which ringing is only started while no ring-stop timer is
    pending. *)
Fixpoint armsWhenIdle (inputs : list (input * world)) (s : session) : Prop :=
  match inputs with
  | [] => True
  | (i, w) :: rest =>
      (arms i = true -> pending RingStopCallback s = []) /\
      armsWhenIdle rest (react i w s)
  end.

(** Two sessions that differ at most in their traces. *)
Definition sameButTrace (s s' : session) : Prop :=
  this s' = this s /\ set_trace [] (homey s') = set_trace [] (homey s).

(** A property of sessions that a method keeps, whatever it returns. *)
Definition preserves {A : Type} (P : session -> Prop) (m : M A) : Prop :=
  forall s, P s -> P (snd (m s)).

(** A stretch of events during which no link is established. *)
Definition keepsDisconnected (e : lifecycle) (s : session) : Prop :=
  match e with
  | ConnectAttempt w => linkUp w s = false
  | LinkLost _ _ => True
  end.

Fixpoint disconnectedRun (es : list lifecycle) (s : session) : Prop :=
  match es with
  | [] => True
  | e :: rest => keepsDisconnected e s /\ disconnectedRun rest (apply e s)
  end.

(** An event that sets [wasDisconnected]: a link loss, or a connect attempt
    that fails with an object. *)
Definition marks (e : lifecycle) (s : session) : Prop :=
  match e with
  | ConnectAttempt w => exists msg, fst (attempt w s) = Throw (Error msg)
  | LinkLost _ _ => True
  end.

Fixpoint marked (es : list lifecycle) (s : session) : Prop :=
  match es with
  | [] => False
  | e :: rest => marks e s \/ marked rest (apply e s)
  end.

(** The invariant of a running session. *)
Definition sound (s : session) : Prop :=
  scheduled s /\ listenersMatchFlags s /\ (tokens s <= 1)%nat.

(** A method that neither arms a ring-stop timer nor touches
    [_ringTimeout]. *)
Definition ringNeutral {A : Type} (m : M A) : Prop :=
  forall L f,
    preserves (fun s => incl (pending RingStopCallback s) L /\ _ringTimeout (this s) = f) m.

(** The handles a stretch of trace clears, in order. *)
Fixpoint clearsOf (tr : list event) : list handle :=
  match tr with
  | [] => []
  | ClearTimeout h :: rest => h :: clearsOf rest
  | ClearInterval h :: rest => h :: clearsOf rest
  | _ :: rest => clearsOf rest
  end.

Definition held {A : Type} (field : option A) : list A :=
  match field with
  | Some a => [a]
  | None => []
  end.

Definition without (hs : list handle) (ts : list timer) : list timer :=
  fold_left (fun ts h => filter (fun t => negb (t_handle t =? h)%nat) ts) hs ts.

(** The ring-stop timer armed by the first ring command of a session. *)
Definition firstRingTimer : timer :=
  {| t_handle := 1%nat; t_ms := 10000; t_callback := RingStopCallback; t_repeat := false |}.

(** ** Concrete collaborators, used to run the model *)

Definition tagAddress : string := "FF:FF:10:2A:3B:4C".

Definition itag : advertisement :=
  {| ad_uuid := "ffff102a3b4c"; ad_address := tagAddress;
     ad_localName := Some Driver.productName;
     ad_manufacturerData := [x05; x01; xab]; ad_rssi := Some (-60);
     ad_connect := Normal 1%nat |}.

Definition otherDevice : advertisement :=
  {| ad_uuid := "a1b2c3d4e5f6"; ad_address := "A1:B2:C3:D4:E5:F6";
     ad_localName := Some "iTAG"; ad_manufacturerData := [x00]; ad_rssi := Some (-71);
     ad_connect := Normal 2%nat |}.

(** Every call succeeds and every service and characteristic is there. *)
Definition cooperative : world :=
  {| homey_version := Some 12;
     ble_find := fun _ => Normal itag;
     ble_discover := Normal [itag];
     discoverServices := fun _ => Normal [];
     getService := fun _ u => Normal (Some {| svc_id := None; svc_uuid := u |});
     getCharacteristic := fun _ u => Normal (Some {| char_id := None; char_uuid := u |});
     char_write := fun _ _ => Normal tt;
     updateRssi := fun _ => Normal (Some (-58));
     peripheral_disconnect := fun _ => Normal tt;
     hub_setCapabilityValue := fun _ _ => Normal tt;
     flow_trigger := fun _ => Normal tt |}.

Definition with_find (f : string -> completion advertisement) (w : world) : world :=
  {| homey_version := homey_version w; ble_find := f; ble_discover := ble_discover w;
     discoverServices := discoverServices w; getService := getService w;
     getCharacteristic := getCharacteristic w; char_write := char_write w;
     updateRssi := updateRssi w; peripheral_disconnect := peripheral_disconnect w;
     hub_setCapabilityValue := hub_setCapabilityValue w; flow_trigger := flow_trigger w |}.

Definition with_discover (d : completion (list advertisement)) (w : world) : world :=
  {| homey_version := homey_version w; ble_find := ble_find w; ble_discover := d;
     discoverServices := discoverServices w; getService := getService w;
     getCharacteristic := getCharacteristic w; char_write := char_write w;
     updateRssi := updateRssi w; peripheral_disconnect := peripheral_disconnect w;
     hub_setCapabilityValue := hub_setCapabilityValue w; flow_trigger := flow_trigger w |}.

Definition with_getService (f : link -> string -> completion (option service)) (w : world)
  : world :=
  {| homey_version := homey_version w; ble_find := ble_find w;
     ble_discover := ble_discover w;
     discoverServices := discoverServices w; getService := f;
     getCharacteristic := getCharacteristic w; char_write := char_write w;
     updateRssi := updateRssi w; peripheral_disconnect := peripheral_disconnect w;
     hub_setCapabilityValue := hub_setCapabilityValue w; flow_trigger := flow_trigger w |}.

Definition with_getCharacteristic
  (f : service -> string -> completion (option characteristic)) (w : world) : world :=
  {| homey_version := homey_version w; ble_find := ble_find w;
     ble_discover := ble_discover w;
     discoverServices := discoverServices w; getService := getService w;
     getCharacteristic := f; char_write := char_write w;
     updateRssi := updateRssi w; peripheral_disconnect := peripheral_disconnect w;
     hub_setCapabilityValue := hub_setCapabilityValue w; flow_trigger := flow_trigger w |}.

Definition with_write (f : characteristic -> list byte -> completion unit) (w : world)
  : world :=
  {| homey_version := homey_version w; ble_find := ble_find w;
     ble_discover := ble_discover w;
     discoverServices := discoverServices w; getService := getService w;
     getCharacteristic := getCharacteristic w; char_write := f;
     updateRssi := updateRssi w; peripheral_disconnect := peripheral_disconnect w;
     hub_setCapabilityValue := hub_setCapabilityValue w; flow_trigger := flow_trigger w |}.

Definition with_hub (f : capability -> capval -> completion unit) (w : world) : world :=
  {| homey_version := homey_version w; ble_find := ble_find w;
     ble_discover := ble_discover w;
     discoverServices := discoverServices w; getService := getService w;
     getCharacteristic := getCharacteristic w; char_write := char_write w;
     updateRssi := updateRssi w; peripheral_disconnect := peripheral_disconnect w;
     hub_setCapabilityValue := f; flow_trigger := flow_trigger w |}.

Definition with_version (v : option Z) (w : world) : world :=
  {| homey_version := v; ble_find := ble_find w; ble_discover := ble_discover w;
     discoverServices := discoverServices w; getService := getService w;
     getCharacteristic := getCharacteristic w; char_write := char_write w;
     updateRssi := updateRssi w; peripheral_disconnect := peripheral_disconnect w;
     hub_setCapabilityValue := hub_setCapabilityValue w; flow_trigger := flow_trigger w |}.

(** The tag is out of range: [find] rejects. *)
Definition outOfRange : world :=
  with_find (fun _ => Throw (Error "Not found")) (with_discover (Normal []) cooperative).

(** The link comes up but the proprietary service is absent. *)
Definition serviceAbsent : world :=
  with_getService
    (fun p u =>
       if String.eqb u "0000ffe000001000800000805f9b34fb" then Normal None
       else getService cooperative p u)
    cooperative.

(** The link comes up but the standard alert service is absent. *)
Definition alertServiceAbsent : world :=
  with_getService
    (fun p u =>
       if String.eqb u "0000180200001000800000805f9b34fb" then Normal None
       else getService cooperative p u)
    cooperative.

(** The button characteristic is absent. *)
Definition buttonAbsent : world :=
  with_getCharacteristic
    (fun sv u =>
       if String.eqb u "0000ffe100001000800000805f9b34fb" then Normal None
       else getCharacteristic cooperative sv u)
    cooperative.

(** Every characteristic write is rejected by the transport. *)
Definition writeRejected : world :=
  with_write (fun _ _ => Throw (Error "Write failed")) cooperative.

(** The hub rejects every capability write. *)
Definition hubRejects : world :=
  with_hub (fun _ _ => Throw (Error "Capability write rejected")) cooperative.

(** A hub older than version 6: [onInit] returns before connecting. *)
Definition legacyHub : world := with_version (Some 5) cooperative.

(** The tag is not found, and the transport rejects with no reason. *)
Definition findRejectsUndefined : world :=
  with_find (fun _ => Throw Undefined) (with_discover (Normal []) cooperative).

(** A scan that sees only a device whose name lacks the padding. *)
Definition strangersOnly : world := with_discover (Normal [otherDevice]) cooperative.

(** A scan that sees the tag and another device. *)
Definition mixedScan : world := with_discover (Normal [otherDevice; itag]) cooperative.

(** A paired tag, started on a cooperative world: connected. *)
Definition connected : session := started (Some tagAddress) unset cooperative.

(** ** Further observations *)

Fixpoint allChars (p : ascii -> bool) (s : string) : bool :=
  match s with
  | EmptyString => true
  | String c rest => p c && allChars p rest
  end.

Definition isColon (c : ascii) : bool := Ascii.eqb c ":"%char.

(** A character of the ASCII range, where [toLowerCase] of the model and
    [String.prototype.toLowerCase] agree. *)
Definition isAsciiChar (c : ascii) : bool := (N_of_ascii c <? 128)%N.

Definition isUpper (c : ascii) : bool :=
  (65 <=? N_of_ascii c)%N && (N_of_ascii c <=? 90)%N.

Definition isHexDigit (c : ascii) : bool :=
  let n := N_of_ascii c in
  ((48 <=? n)%N && (n <=? 57)%N) || ((97 <=? n)%N && (n <=? 102)%N).

(** The value of a lowercase hexadecimal digit, and the buffer a string of
    such digits stands for: the inverse of [toHex]. *)
Definition hexValue (c : ascii) : option N :=
  let n := N_of_ascii c in
  if (48 <=? n)%N && (n <=? 57)%N then Some (n - 48)%N
  else if (97 <=? n)%N && (n <=? 102)%N then Some (n - 87)%N
  else None.

Fixpoint fromHex (s : string) : option (list byte) :=
  match s with
  | EmptyString => Some []
  | String hi (String lo rest) =>
      match hexValue hi, hexValue lo, fromHex rest with
      | Some h, Some l, Some buf =>
          match Byte.of_N (16 * h + l) with
          | Some b => Some (b :: buf)
          | None => None
          end
      | _, _, _ => None
      end
  | String _ EmptyString => None
  end.

(** The stored signal strength. *)
Definition signal (s : session) : option capval :=
  capabilities (homey s) measure_signal_strength.

(** The hub's side of a session without the capability store and the
    trace. *)
Definition skeleton (h : hub) : hub := set_capabilities unset (set_trace [] h).

Definition isDiscover (e : event) : bool :=
  match e with
  | BleDiscover => true
  | _ => false
  end.

Definition isUpdateRssi (e : event) : bool :=
  match e with
  | UpdateRssi _ => true
  | _ => false
  end.

Definition isUnregister (e : event) : bool :=
  match e with
  | UnregisterPeripheral _ => true
  | _ => false
  end.

Definition isPeripheralDisconnect (e : event) : bool :=
  match e with
  | PeripheralDisconnect _ => true
  | _ => false
  end.

(** Lines 100-104: a service without an identifier gets its UUID as one. *)
Definition withServiceId (sv : service) : service :=
  if noId (svc_id sv) then {| svc_id := Some (svc_uuid sv); svc_uuid := svc_uuid sv |}
  else sv.

(** Everything the binding of a link asks of the transport is there. *)
Definition bindable (w : world) (p : link) (linkLost alert : characteristic) : Prop :=
  exists services sv alertService button,
    discoverServices w p = Normal services /\
    getService w p "0000ffe000001000800000805f9b34fb" = Normal (Some sv) /\
    getService w p "0000180200001000800000805f9b34fb" = Normal (Some alertService) /\
    getCharacteristic w (withServiceId sv) "0000ffe200001000800000805f9b34fb" =
      Normal (Some linkLost) /\
    getCharacteristic w (withServiceId sv) "0000ffe100001000800000805f9b34fb" =
      Normal (Some button) /\
    getCharacteristic w alertService "00002a0600001000800000805f9b34fb" =
      Normal (Some alert) /\
    char_write w (withId linkLost) [x00] = Normal tt.

(** [onInit] up to the version test: the two log lines, the reset of
    [ring] and the start of the RSSI monitor. *)
Definition onInitPrefix (w : world) : M unit :=
  log "iTAG device has been initialized" ;;
  log "Homey version:" ;;
  try_catch (setCapabilityValue w ring (VBool false))
    (fun error => logError "Error setting initial capability value:" error) ;;
  i <- gets rssiInterval ;;
  match i with
  | None => startRSSIMonitoring
  | Some _ => ret tt
  end.

(** [parseInt(this.homey.version, 10) < 6] *)
Definition tooOld (w : world) : bool :=
  match homey_version w with
  | Some v => v <? 6
  | None => false
  end.

Definition ringTimerAt (h : handle) : timer :=
  {| t_handle := h; t_ms := 10000; t_callback := RingStopCallback; t_repeat := false |}.

Definition rssiTimerAt (h : handle) : timer :=
  {| t_handle := h; t_ms := 5000; t_callback := RssiPollCallback; t_repeat := true |}.

Definition reconnectTimerAt (h : handle) : timer :=
  {| t_handle := h; t_ms := 7000; t_callback := ReconnectCallback; t_repeat := false |}.

(** ** The session as a state machine *)

(** A link is held exactly while its loss is observed, by one observer, and
    while one is held no reconnect is pending. *)
Definition linked (s : session) : Prop :=
  match peripheral (this s) with
  | Some p => disconnectObservers (homey s) = [p] /\ pending ReconnectCallback s = []
  | None => disconnectObservers (homey s) = []
  end.

(** A handle field against the queue: the handle it holds has been
    allocated, and a pending timer with that handle is of the field's
    kind. *)
Definition namesIn (field : option handle) (cb : callback) (ts : list timer) (n : handle) : Prop :=
  (forall h, field = Some h -> (h < n)%nat) /\
  (forall t, In t ts -> field = Some (t_handle t) -> t_callback t = cb).

(** Every pending timer of a kind is the one the field holds. *)
Definition tracksIn (field : option handle) (cb : callback) (ts : list timer) : Prop :=
  forall t, In t ts -> t_callback t = cb -> field = Some (t_handle t).

Definition ledger (s : session) : Prop :=
  namesIn (rssiInterval (this s)) RssiPollCallback (timers (homey s)) (nextHandle (homey s)) /\
  namesIn (reconnectTimeout (this s)) ReconnectCallback (timers (homey s))
    (nextHandle (homey s)) /\
  namesIn (_ringTimeout (this s)) RingStopCallback (timers (homey s)) (nextHandle (homey s)) /\
  tracksIn (rssiInterval (this s)) RssiPollCallback (timers (homey s)) /\
  tracksIn (reconnectTimeout (this s)) ReconnectCallback (timers (homey s)).

Definition coherent (s : session) : Prop := sound s /\ linked s /\ ledger s.

Definition isTeardown (i : input) : bool :=
  match i with
  | DeviceDeleted => true
  | _ => false
  end.

(** The run contains a teardown. *)
Definition tornDown (inputs : list (input * world)) : bool :=
  existsb (fun iw => isTeardown (fst iw)) inputs.

(** The reconnect timer's callback returns normally when this input fires
    it: its connect attempt is not rejected. *)
Definition attemptSettles (i : input) (w : world) (s : session) : Prop :=
  match i with
  | TimerFires h =>
      forall t,
        find (fun t' => (t_handle t' =? h)%nat) (timers (homey s)) = Some t ->
        t_callback t = ReconnectCallback ->
        fst (fire w h s) = Normal tt
  | _ => True
  end.

(** Along the run no connect attempt started by a timer is rejected. *)
Fixpoint settled (inputs : list (input * world)) (s : session) : Prop :=
  match inputs with
  | [] => True
  | (i, w) :: rest => attemptSettles i w s /\ settled rest (react i w s)
  end.

(** A session that never sought a link: nothing can start a connect
    attempt, no listener is registered and no ring-stop timer is pending. *)
Definition dormant (s : session) : Prop :=
  tokens s = 0%nat /\
  peripheral (this s) = None /\
  ringListeners (homey s) = 0%nat /\
  startRunListeners (homey s) = 0%nat /\
  stopRunListeners (homey s) = 0%nat /\
  pending RingStopCallback s = [] /\
  occurrences isFind s = 0%nat /\
  occurrences isConnect s = 0%nat.

(** A timer that clearing the handles [hs] leaves pending. *)
Definition spared (hs : list handle) (t : timer) : bool :=
  forallb (fun h => negb (t_handle t =? h)%nat) hs.

(** The session holds an alert characteristic to write to. *)
Definition equipped (s : session) : Prop := exists ch, alertChar (this s) = Some ch.

(** Nothing is there that could ask the tag to ring or to stop. *)
Definition ringIdle (s : session) : Prop :=
  ringListenerRegistered (this s) = false /\
  flowActionsRegistered (this s) = false /\
  pending RingStopCallback s = [].

(** * Properties

    First the rules for what a method keeps, then what each method does,
    then the invariant of a running session and the properties of the
    specification. *)

#[local] Open Scope list_scope.

(** ** Rules for what a method keeps *)

Section Preservation.

Variable P : session -> Prop.

Lemma preserves_ret {A : Type} (a : A) : preserves P (ret a).
Proof. intros s H. exact H. Qed.

Lemma preserves_throw {A : Type} (e : error) : preserves P (@throw A e).
Proof. intros s H. exact H. Qed.

Lemma preserves_gets {A : Type} (f : device -> A) : preserves P (gets f).
Proof. intros s H. exact H. Qed.

Lemma preserves_hubGets {A : Type} (f : hub -> A) : preserves P (hubGets f).
Proof. intros s H. exact H. Qed.

Lemma preserves_bind {A B : Type} (m : M A) (k : A -> M B) :
  preserves P m -> (forall a, preserves P (k a)) -> preserves P (bind m k).
Proof.
  intros Hm Hk s H. unfold bind. specialize (Hm s H).
  destruct (m s) as [[a | e] s1]; simpl in *.
  - apply Hk. exact Hm.
  - exact Hm.
Qed.

Lemma preserves_try_catch {A : Type} (body : M A) (handler : error -> M A) :
  preserves P body -> (forall e, preserves P (handler e)) -> preserves P (try_catch body handler).
Proof.
  intros Hm Hk s H. unfold try_catch. specialize (Hm s H).
  destruct (body s) as [[a | e] s1]; simpl in *.
  - exact Hm.
  - apply Hk. exact Hm.
Qed.

Lemma preserves_assign (f : device -> device) :
  (forall s, P s -> P {| this := f (this s); homey := homey s |}) -> preserves P (assign f).
Proof. intros H s Hs. apply H. exact Hs. Qed.

Lemma preserves_hubDo (f : hub -> hub) :
  (forall s, P s -> P {| this := this s; homey := f (homey s) |}) -> preserves P (hubDo f).
Proof. intros H s Hs. apply H. exact Hs. Qed.

Lemma preserves_call {A : Type} (e : event) (c : completion A) :
  (forall s, P s ->
     P {| this := this s; homey := set_trace (trace (homey s) ++ [e]) (homey s) |}) ->
  preserves P (call e c).
Proof. intros H s Hs. apply H. exact Hs. Qed.

Lemma preserves_schedule (cb : callback) (ms : Z) (rp : bool) :
  (forall s, P s -> P (snd (schedule cb ms rp s))) -> preserves P (schedule cb ms rp).
Proof. intros H s Hs. apply H. exact Hs. Qed.

Lemma preserves_invoke {A : Type} (listener : M A) (n : nat) :
  preserves P listener -> forall s, P s -> P (invoke n listener s).
Proof.
  intros H. induction n as [| n IH]; intros s Hs; simpl.
  - exact Hs.
  - apply IH. apply H. exact Hs.
Qed.

End Preservation.

Ltac unfold_methods_but_listeners :=
  unfold onInit, onDeleted, rssiPoll, startRSSIMonitoring, connectToDevice, attemptFailed,
    attempt, holdLink, bindCharacteristics, establishLink,
    notifyReconnected, onDisconnect, stopRingingListener, startRingingListener,
    readProperty, unreadable, ringListener, ringStop, ringDevice, reconnect, updateRSSI,
    storedConnectionId,
    onceDisconnect, unregisterPeripheral, registerPeripheral, clearInterval,
    clearTimeout, cancel, setInterval, setTimeout, trigger,
    setCapabilityValue, logError, log, emit.

Ltac unfold_methods := unfold_methods_but_listeners; unfold registerListeners.

(** One step through a method: the rule of the construct at its head. *)
Ltac pres_step side :=
  lazymatch goal with
  | |- preserves _ (bind _ _) => apply preserves_bind; [ | intros ? ]
  | |- preserves _ (try_catch _ _) => apply preserves_try_catch; [ | intros ? ]
  | |- preserves _ (ret _) => apply preserves_ret
  | |- preserves _ (throw _) => apply preserves_throw
  | |- preserves _ (gets _) => apply preserves_gets
  | |- preserves _ (hubGets _) => apply preserves_hubGets
  | |- preserves _ (assign _) => apply preserves_assign; side
  | |- preserves _ (hubDo _) => apply preserves_hubDo; side
  | |- preserves _ (call _ _) => apply preserves_call; side
  | |- preserves _ (schedule _ _ _) => apply preserves_schedule; side
  | |- preserves _ (match ?x with _ => _ end) => destruct x
  end.

Ltac pres_steps side := cbv zeta; repeat pres_step side.

(** Walk through a method, leaving to [side] what each primitive step does
    to the property. *)
Ltac pres side := unfold_methods; pres_steps side.

(** ** Lists *)

Lemma Forall_filter_keep {A : Type} (Q : A -> Prop) (g : A -> bool) (l : list A) :
  Forall Q l -> Forall Q (filter g l).
Proof.
  intros H. apply Forall_forall. intros x Hx.
  apply filter_In in Hx. destruct Hx as [Hx _].
  revert x Hx. apply Forall_forall. exact H.
Qed.

Lemma NoDup_map_filter {A B : Type} (f : A -> B) (g : A -> bool) (l : list A) :
  NoDup (map f l) -> NoDup (map f (filter g l)).
Proof.
  induction l as [| x l IH]; simpl; intros H.
  - constructor.
  - inversion H as [| y l' Hnotin Hrest]; subst.
    destruct (g x); simpl.
    + constructor.
      * intros Hin. apply Hnotin. apply in_map_iff in Hin.
        destruct Hin as (z & Hz & Hin). apply in_map_iff. exists z. split; [ exact Hz | ].
        apply filter_In in Hin. apply Hin.
      * apply IH. exact Hrest.
    + apply IH. exact Hrest.
Qed.

Lemma filter_split_length {A : Type} (g : A -> bool) (l : list A) :
  (List.length (filter g l) + List.length (filter (fun x => negb (g x)) l))%nat = List.length l.
Proof.
  induction l as [| x l IH]; simpl.
  - reflexivity.
  - destruct (g x); simpl; lia.
Qed.

Lemma filter_length_le {A : Type} (g : A -> bool) (l : list A) :
  (List.length (filter g l) <= List.length l)%nat.
Proof. pose proof (filter_split_length g l). lia. Qed.

Lemma filter_filter_comm {A : Type} (f g : A -> bool) (l : list A) :
  filter f (filter g l) = filter g (filter f l).
Proof.
  induction l as [| x l IH]; simpl.
  - reflexivity.
  - destruct (f x) eqn:Hf, (g x) eqn:Hg; simpl; rewrite ?Hf, ?Hg, IH; reflexivity.
Qed.

(** ** The scheduler's queue stays well formed *)

Lemma scheduled_schedule s cb ms rp :
  shaped {| t_handle := nextHandle (homey s); t_ms := ms; t_callback := cb; t_repeat := rp |} ->
  scheduled s ->
  scheduled (snd (schedule cb ms rp s)).
Proof.
  intros Hshape (Hfresh & Hnodup & Hshaped & Hring).
  unfold scheduled; cbn. repeat split.
  - apply Forall_app. split.
    + eapply Forall_impl; [ | exact Hfresh ]. cbn. intros; lia.
    + constructor; [ cbn; lia | constructor ].
  - rewrite map_app. cbn.
    apply NoDup_app; [ exact Hnodup | constructor; [ intros [] | constructor ] | ].
    intros h Hin [Heq | []]. subst h.
    apply in_map_iff in Hin. destruct Hin as (t & Ht & Hin).
    rewrite Forall_forall in Hfresh. specialize (Hfresh t Hin). lia.
  - apply Forall_app. split; [ exact Hshaped | constructor; [ exact Hshape | constructor ] ].
  - exact Hring.
Qed.

Lemma scheduled_cancel s g :
  scheduled s ->
  scheduled {| this := this s; homey := set_timers (filter g (timers (homey s))) (homey s) |}.
Proof.
  intros (Hfresh & Hnodup & Hshaped & Hring).
  unfold scheduled; cbn. repeat split.
  - apply Forall_filter_keep. exact Hfresh.
  - apply NoDup_map_filter. exact Hnodup.
  - apply Forall_filter_keep. exact Hshaped.
  - exact Hring.
Qed.

Ltac scheduled_side :=
  intros ? ?;
  match goal with
  | H : scheduled ?s |- _ =>
      first
        [ exact H
        | apply (scheduled_cancel s _ H)
        | apply (scheduled_schedule s _ _ _); [ cbv; auto | exact H ] ]
  end.

Lemma onInit_scheduled w : preserves scheduled (onInit w).
Proof. pres scheduled_side. Qed.

Lemma onDeleted_scheduled w : preserves scheduled (onDeleted w).
Proof. pres scheduled_side. Qed.

Lemma fire_scheduled w h : preserves scheduled (fire w h).
Proof. unfold fire, runCallback. pres scheduled_side. Qed.
(** ** Running a method on a symbolic state *)

Ltac unfold_monad :=
  unfold bind, try_catch, ret, throw, gets, assign, hubGets, hubDo, call, schedule.

Ltac destruct_scrutinee :=
  match goal with
  | |- context [match ?x with _ => _ end] =>
      lazymatch x with
      | context [match _ with _ => _ end] => fail
      | _ => destruct x eqn:?
      end
  end.

Ltac exec :=
  unfold_methods; unfold_monad; cbn;
  repeat (destruct_scrutinee; cbn).

Ltac count_trace :=
  unfold fired, occurrences in *; cbn in *;
  repeat rewrite filter_app; repeat rewrite length_app; cbn; try lia.

(** ** The discovery lister *)

Lemma isTag_iff ad : Driver.isTag ad = true <-> ad_localName ad = Some Driver.productName.
Proof.
  unfold Driver.isTag. destruct (ad_localName ad) as [n |].
  - rewrite String.eqb_eq. split; [ intros ->; reflexivity | intros [= ->]; reflexivity ].
  - split; discriminate.
Qed.

Lemma toHex_length buf : String.length (toHex buf) = (2 * List.length buf)%nat.
Proof.
  induction buf as [| b buf IH]; simpl.
  - reflexivity.
  - rewrite IH. lia.
Qed.

(** ** The catch block and the callers of a connect attempt *)

Lemma attemptFailed_result w e s :
  fst (attemptFailed w e s) =
    match unreadable "message" e with
    | None => Normal tt
    | Some typeError => Throw typeError
    end.
Proof. destruct e; exec; reflexivity. Qed.

(** The catch block on a value without properties: it stops at line 219,
    with the first log line written and nothing else done. *)
Lemma attemptFailed_stops w e s :
  unreadable "message" e <> None ->
  snd (attemptFailed w e s) =
    {| this := this s;
       homey := set_trace (trace (homey s) ++ [Log "Error connecting to iTAG device:"])
                  (homey s) |}.
Proof. destruct e; [ intros H; exfalso; apply H; reflexivity | | ]; intros _; reflexivity. Qed.

Lemma connectToDevice_result w s :
  fst (connectToDevice w s) =
    match fst (attempt w s) with
    | Normal _ => Normal tt
    | Throw e =>
        match unreadable "message" e with
        | None => Normal tt
        | Some typeError => Throw typeError
        end
    end.
Proof.
  unfold connectToDevice, try_catch.
  destruct (attempt w s) as [[[] | e] s1]; [ reflexivity | apply attemptFailed_result ].
Qed.

Lemma onInit_split w s :
  onInit w s =
    (onInitPrefix w ;;
     if tooOld w then log "Homey version does not support BLE notifications"
     else connectToDevice w) s.
Proof.
  destruct s as [[was per alert rl fl ri rt _rt rgt] hb].
  unfold onInit, onInitPrefix, tooOld, startRSSIMonitoring, setInterval, setCapabilityValue,
    logError, log, emit.
  unfold_monad.
  destruct (hub_setCapabilityValue w ring (VBool false)); cbn -[connectToDevice];
    destruct ri as [i |]; cbn -[connectToDevice];
    destruct (homey_version w) as [v |]; try destruct (v <? 6); reflexivity.
Qed.

Lemma onInitPrefix_returns w s : fst (onInitPrefix w s) = Normal tt.
Proof.
  destruct s as [[was per alert rl fl ri rt _rt rgt] hb].
  unfold onInitPrefix, startRSSIMonitoring, setInterval, setCapabilityValue, logError, log,
    emit.
  unfold_monad.
  destruct (hub_setCapabilityValue w ring (VBool false)); cbn; destruct ri; reflexivity.
Qed.

Lemma onInit_result w s :
  fst (onInit w s) =
    if tooOld w then Normal tt else fst (connectToDevice w (snd (onInitPrefix w s))).
Proof.
  rewrite onInit_split. unfold bind.
  pose proof (onInitPrefix_returns w s) as Hret.
  destruct (onInitPrefix w s) as [[[] | e] s1]; cbn [fst snd] in *; [ | discriminate ].
  destruct (tooOld w); reflexivity.
Qed.

(** ** Observations a method leaves alone *)

Lemma unchanged {A X : Type} (f : session -> X) (m : M A) :
  (forall v, preserves (fun s => f s = v) m) -> forall s, f (snd (m s)) = f s.
Proof. intros H s. apply (H (f s)). reflexivity. Qed.

Ltac frame_side :=
  intros ? ?;
  match goal with
  | H : _ = _ |- _ =>
      first
        [ exact H
        | unfold fired, occurrences in *; cbn in *;
          rewrite filter_app, length_app; cbn; lia ]
  end.

Ltac frame f := apply (unchanged f); intros ?; pres frame_side.

(** C9: [onPairListDevices] keeps exactly the advertisements whose local
    name is the product name, in scan order, and turns each into a candidate
    with its address and its manufacturer payload in hexadecimal; when no
    name matches the list is empty; a rejected scan is passed on unchanged. *)
Theorem onPairListDevices_keeps_exactly_the_tags (w : world) :
  match ble_discover w with
  | Throw e => Driver.onPairListDevices w = Throw e
  | Normal advertisements =>
      exists devices,
        Driver.onPairListDevices w = Normal devices /\
        map Driver.store_address devices =
          map ad_address (filter Driver.isTag advertisements) /\
        map Driver.store_manufacturerData devices =
          map (fun ad => toHex (ad_manufacturerData ad)) (filter Driver.isTag advertisements) /\
        (forall ad, Driver.isTag ad = true <-> ad_localName ad = Some Driver.productName) /\
        (forall c, In c devices <->
           exists ad, In ad advertisements /\
                      ad_localName ad = Some Driver.productName /\
                      c = Driver.toDevice ad) /\
        ((forall ad, In ad advertisements -> ad_localName ad <> Some Driver.productName) ->
         devices = [])
  end.
Proof.
  unfold Driver.onPairListDevices.
  destruct (ble_discover w) as [advertisements | e]; [ | reflexivity ].
  exists (map Driver.toDevice (filter Driver.isTag advertisements)).
  split; [ reflexivity | ].
  split; [ rewrite map_map; reflexivity | ].
  split; [ rewrite map_map; reflexivity | ].
  split; [ exact isTag_iff | ].
  split.
  - intros c. rewrite in_map_iff. split.
    + intros (ad & <- & Hin). apply filter_In in Hin. destruct Hin as [Hin Htag].
      exists ad. rewrite <- isTag_iff. auto.
    + intros (ad & Hin & Hname & ->). exists ad. split; [ reflexivity | ].
      apply filter_In. rewrite isTag_iff. auto.
  - intros Hnone. induction advertisements as [| ad rest IH]; [ reflexivity | ].
    simpl. destruct (Driver.isTag ad) eqn:Htag.
    + apply isTag_iff in Htag. exfalso. apply (Hnone ad); [ left; reflexivity | exact Htag ].
    + apply IH. intros ad' Hin. apply Hnone. right. exact Hin.
Qed.

Lemma onPairListDevices_on_scans :
  Driver.onPairListDevices strangersOnly = Normal [] /\
  Driver.onPairListDevices mixedScan =
    Normal [ {| Driver.name := "iTAG FF:FF:10:2A:3B:4C";
                Driver.data_id := "FF:FF:10:2A:3B:4C";
                Driver.store_manufacturerData := "0501ab";
                Driver.store_address := "FF:FF:10:2A:3B:4C" |} ].
Proof.
  split.
  - pose proof (onPairListDevices_keeps_exactly_the_tags strangersOnly) as H.
    cbn in H. destruct H as (devices & Hrun & _ & _ & _ & _ & Hnone).
    rewrite <- (Hnone ltac:(intros ad [<- | []]; discriminate)). exact Hrun.
  - reflexivity.
Defined.

(** C8: [ringDevice] writes the one byte [0x02] to ring and the one byte
    [0x00] to stop, on the stored alert characteristic; whether the write
    resolves, rejects or the handle is missing, it returns normally, logs an
    error exactly when the write did not happen or failed, and changes
    nothing of the session but the trace. *)
Theorem ringDevice_best_effort (w : world) (active : bool) (s : session) :
  let code := if active then x02 else x00 in
  exists delta,
    fst (ringDevice w active s) = Normal tt /\
    sameButTrace s (snd (ringDevice w active s)) /\
    trace (homey (snd (ringDevice w active s))) = trace (homey s) ++ delta /\
    writesOf delta =
      match alertChar (this s) with
      | Some ch => [(ch, [code])]
      | None => []
      end /\
    List.length (filter isErrorLog delta) =
      match alertChar (this s) with
      | Some ch =>
          match char_write w ch [code] with
          | Normal _ => 0%nat
          | Throw _ => 1%nat
          end
      | None => 1%nat
      end.
Proof.
  unfold sameButTrace.
  destruct active; exec;
    eexists; (split; [ reflexivity | ]); (split; [ split; reflexivity | ]);
    (split; [ repeat rewrite <- app_assoc; cbn; reflexivity | ]);
    split; reflexivity.
Qed.

(** C10 (as the code has it): a throw inside the attempt is handed to the
    catch block, on the state the attempt left.  The catch block reads
    [error.message] before anything else it does: for a thrown object it
    returns normally, so that [connectToDevice] resolves; for [undefined]
    and [null] it throws a [TypeError], so that [connectToDevice] rejects,
    with the fields, the timers and the capability values as the attempt
    left them.  So [connectToDevice] resolves exactly when the attempt
    returns or throws an object.  The reconnect timer's callback, and
    [onInit] on a hub of version 6 or later, return what [connectToDevice]
    returns. *)
Theorem connectToDevice_resolves_unless_reason_unreadable (w : world) (s : session) :
  match attempt w s with
  | (Normal _, s1) => connectToDevice w s = (Normal tt, s1)
  | (Throw e, s1) =>
      connectToDevice w s = attemptFailed w e s1 /\
      match unreadable "message" e with
      | None => fst (connectToDevice w s) = Normal tt
      | Some typeError =>
          fst (connectToDevice w s) = Throw typeError /\
          this (snd (connectToDevice w s)) = this s1 /\
          timers (homey (snd (connectToDevice w s))) = timers (homey s1) /\
          capabilities (homey (snd (connectToDevice w s))) = capabilities (homey s1)
      end
  end /\
  (fst (connectToDevice w s) = Normal tt <->
   forall e, fst (attempt w s) = Throw e -> exists msg, e = Error msg) /\
  fst (runCallback w ReconnectCallback s) = fst (connectToDevice w s) /\
  fst (onInit w s) =
    (if tooOld w then Normal tt else fst (connectToDevice w (snd (onInitPrefix w s)))).
Proof.
  split.
  { pose proof (connectToDevice_result w s) as Hres.
    unfold connectToDevice, try_catch in *.
    destruct (attempt w s) as [[[] | e] s1]; cbn [fst snd] in *; [ reflexivity | ].
    split; [ reflexivity | ].
    destruct (unreadable "message" e) as [typeError |] eqn:Hread; [ | exact Hres ].
    split; [ exact Hres | ].
    rewrite attemptFailed_stops by (rewrite Hread; discriminate).
    repeat split. }
  split.
  { rewrite connectToDevice_result. split.
    - intros Hres e He. rewrite He in Hres.
      destruct e as [msg | |]; [ exists msg; reflexivity | discriminate | discriminate ].
    - intros Hobject. destruct (fst (attempt w s)) as [[] | e]; [ reflexivity | ].
      destruct (Hobject e eq_refl) as [msg ->]. reflexivity. }
  split; [ reflexivity | apply onInit_result ].
Qed.

Lemma connectToDevice_resolves_on_absent_service :
  fst (connectToDevice serviceAbsent (created (Some tagAddress) unset)) = Normal tt.
Proof.
  destruct (connectToDevice_resolves_unless_reason_unreadable serviceAbsent
              (created (Some tagAddress) unset)) as (_ & Hiff & _).
  apply Hiff. intros e He.
  assert (Hthrow : fst (attempt serviceAbsent (created (Some tagAddress) unset)) =
                   Throw (Error "FFE0 service not found")) by (vm_compute; reflexivity).
  rewrite Hthrow in He. injection He as <-. eexists. reflexivity.
Defined.

Lemma connectToDevice_rejects_on_undefined_reason :
  let s0 := created (Some tagAddress) unset in
  let waiting := started (Some tagAddress) unset outOfRange in
  let typeError := TypeError "Cannot read properties of undefined (reading 'message')" in
  fst (attempt findRejectsUndefined s0) = Throw Undefined /\
  fst (connectToDevice findRejectsUndefined s0) = Throw typeError /\
  fst (onInit findRejectsUndefined s0) = Throw typeError /\
  pending ReconnectCallback (started (Some tagAddress) unset findRejectsUndefined) = [] /\
  pending ReconnectCallback waiting = [reconnectTimerAt 1%nat] /\
  fst (fire findRejectsUndefined 1%nat waiting) = Throw typeError /\
  pending ReconnectCallback (react (TimerFires 1%nat) findRejectsUndefined waiting) = [].
Proof. repeat split; vm_compute; reflexivity. Qed.

(** ** The phases of a connect attempt *)

Lemma attempt_phases w s :
  attempt w s =
    match establishLink w s with
    | (Normal p, s1) =>
        match notifyReconnected w s1 with
        | (Normal _, s2) =>
            match bindCharacteristics w p s2 with
            | (Normal _, s3) => holdLink p s3
            | (Throw e, s3) => (Throw e, s3)
            end
        | (Throw e, s2) => (Throw e, s2)
        end
    | (Throw e, s1) => (Throw e, s1)
    end.
Proof. reflexivity. Qed.

Lemma establishLink_spec w s :
  (occurrences isFind (snd (establishLink w s)) <= S (occurrences isFind s))%nat /\
  (occurrences isConnect (snd (establishLink w s)) <= S (occurrences isConnect s))%nat /\
  match fst (establishLink w s) with
  | Normal _ => linkUp w s = true /\ alarm (snd (establishLink w s)) = Some (VBool false)
  | Throw _ => linkUp w s = false
  end.
Proof.
  unfold linkUp, alarm. exec; (split; [ count_trace | ]); (split; [ count_trace | ]);
    first [ reflexivity | split; reflexivity ].
Qed.

Lemma notifyReconnected_spec w s :
  fst (notifyReconnected w s) = Normal tt /\
  wasDisconnected (this (snd (notifyReconnected w s))) = false /\
  fired device_reconnected (snd (notifyReconnected w s)) =
    (fired device_reconnected s + flag (wasDisconnected (this s)))%nat.
Proof.
  exec; (split; [ reflexivity | ]); (split; [ congruence | ]); count_trace.
Qed.

Lemma holdLink_spec p s :
  fst (holdLink p s) = Normal tt /\
  peripheral (this (snd (holdLink p s))) = Some p /\
  wasDisconnected (this (snd (holdLink p s))) = wasDisconnected (this s) /\
  ringListenerRegistered (this (snd (holdLink p s))) = true /\
  flowActionsRegistered (this (snd (holdLink p s))) = true /\
  disconnectObservers (homey (snd (holdLink p s))) = disconnectObservers (homey s) ++ [p].
Proof.
  exec;
    repeat match goal with
           | H : negb _ = true |- _ => apply negb_true_iff in H
           | H : negb _ = false |- _ => apply negb_false_iff in H
           end;
    repeat split; congruence.
Qed.

Lemma attemptFailed_spec w e s :
  unreadable "message" e = None ->
  let s' := snd (attemptFailed w e s) in
  wasDisconnected (this s') = true /\
  peripheral (this s') = peripheral (this s) /\
  reconnectTimeout (this s') = Some (nextHandle (homey s)) /\
  timers (homey s') =
    timers (homey s) ++ [{| t_handle := nextHandle (homey s); t_ms := 7000;
                            t_callback := ReconnectCallback; t_repeat := false |}] /\
  disconnectObservers (homey s') = disconnectObservers (homey s) /\
  alarm s' =
    match hub_setCapabilityValue w alarm_disconnected (VBool true) with
    | Normal _ => Some (VBool true)
    | Throw _ => alarm s
    end /\
  occurrences (isAlarmWrite true) s' = S (occurrences (isAlarmWrite true) s) /\
  occurrences isFind s' = occurrences isFind s /\
  occurrences isConnect s' = occurrences isConnect s /\
  fired device_reconnected s' = fired device_reconnected s.
Proof.
  destruct e; try discriminate. intros _.
  unfold alarm. exec; repeat split; count_trace.
Qed.

Lemma attemptFailed_logs w e s :
  unreadable "message" e = None ->
  occurrences isErrorLog (snd (attemptFailed w e s)) =
    match hub_setCapabilityValue w alarm_disconnected (VBool true) with
    | Normal _ => occurrences isErrorLog s
    | Throw _ => S (occurrences isErrorLog s)
    end.
Proof.
  destruct e; try discriminate. intros _. exec; count_trace.
Qed.

Lemma onDisconnect_spec w p s :
  let s' := snd (onDisconnect w p s) in
  fst (onDisconnect w p s) = Normal tt /\
  wasDisconnected (this s') = true /\
  peripheral (this s') = None /\
  reconnectTimeout (this s') = Some (nextHandle (homey s)) /\
  timers (homey s') =
    timers (homey s) ++ [{| t_handle := nextHandle (homey s); t_ms := 7000;
                            t_callback := ReconnectCallback; t_repeat := false |}] /\
  disconnectObservers (homey s') = disconnectObservers (homey s) /\
  alarm s' =
    match hub_setCapabilityValue w alarm_disconnected (VBool true) with
    | Normal _ => Some (VBool true)
    | Throw _ => alarm s
    end /\
  fired device_reconnected s' = fired device_reconnected s /\
  fired device_disconnected s' = S (fired device_disconnected s).
Proof.
  unfold alarm. exec; repeat split; count_trace.
Qed.

Lemma attempt_keeps_queue w s :
  timers (homey (snd (attempt w s))) = timers (homey s) /\
  nextHandle (homey (snd (attempt w s))) = nextHandle (homey s).
Proof.
  split.
  - revert s. frame (fun s => timers (homey s)).
  - revert s. frame (fun s => nextHandle (homey s)).
Qed.

Lemma attempt_never_raises_alarm w s :
  occurrences (isAlarmWrite true) (snd (attempt w s)) = occurrences (isAlarmWrite true) s.
Proof. revert s. frame (occurrences (isAlarmWrite true)). Qed.

Lemma attempt_split w s :
  attempt w s =
    match establishLink w s with
    | (Normal p, s1) => (notifyReconnected w ;; bindCharacteristics w p ;; holdLink p) s1
    | (Throw e, s1) => (Throw e, s1)
    end.
Proof. reflexivity. Qed.

Lemma afterLink_keeps_calls w p s :
  let s' := snd ((notifyReconnected w ;; bindCharacteristics w p ;; holdLink p) s) in
  occurrences isFind s' = occurrences isFind s /\
  occurrences isConnect s' = occurrences isConnect s.
Proof.
  split.
  - revert s. frame (occurrences isFind).
  - revert s. frame (occurrences isConnect).
Qed.

Lemma attempt_calls_once w s :
  (occurrences isFind (snd (attempt w s)) <= S (occurrences isFind s))%nat /\
  (occurrences isConnect (snd (attempt w s)) <= S (occurrences isConnect s))%nat.
Proof.
  rewrite attempt_split.
  destruct (establishLink_spec w s) as (Hfind & Hconnect & _).
  destruct (establishLink w s) as [[p | e] s1]; cbn [fst snd] in *.
  - destruct (afterLink_keeps_calls w p s1) as [-> ->]. auto.
  - auto.
Qed.

Lemma establishLink_frame w s :
  this (snd (establishLink w s)) = this s /\
  disconnectObservers (homey (snd (establishLink w s))) = disconnectObservers (homey s) /\
  fired device_reconnected (snd (establishLink w s)) = fired device_reconnected s.
Proof.
  split; [ | split ].
  - revert s. frame (fun s => this s).
  - revert s. frame (fun s => disconnectObservers (homey s)).
  - revert s. frame (fired device_reconnected).
Qed.

Lemma notifyReconnected_frame w s :
  alarm (snd (notifyReconnected w s)) = alarm s /\
  peripheral (this (snd (notifyReconnected w s))) = peripheral (this s) /\
  disconnectObservers (homey (snd (notifyReconnected w s))) = disconnectObservers (homey s).
Proof.
  split; [ | split ].
  - revert s. frame alarm.
  - revert s. frame (fun s => peripheral (this s)).
  - revert s. frame (fun s => disconnectObservers (homey s)).
Qed.

Lemma bindCharacteristics_frame w p s :
  let s' := snd (bindCharacteristics w p s) in
  alarm s' = alarm s /\
  peripheral (this s') = peripheral (this s) /\
  wasDisconnected (this s') = wasDisconnected (this s) /\
  disconnectObservers (homey s') = disconnectObservers (homey s) /\
  fired device_reconnected s' = fired device_reconnected s.
Proof.
  repeat split.
  - revert s. frame alarm.
  - revert s. frame (fun s => peripheral (this s)).
  - revert s. frame (fun s => wasDisconnected (this s)).
  - revert s. frame (fun s => disconnectObservers (homey s)).
  - revert s. frame (fired device_reconnected).
Qed.

Lemma holdLink_frame p s :
  alarm (snd (holdLink p s)) = alarm s /\
  fired device_reconnected (snd (holdLink p s)) = fired device_reconnected s.
Proof.
  split.
  - revert s. frame alarm.
  - revert s. frame (fired device_reconnected).
Qed.

(** What a connect attempt has done when it returns and when it throws. *)
Lemma attempt_outcome w s :
  match fst (attempt w s) with
  | Normal _ =>
      exists p,
        linkUp w s = true /\
        alarm (snd (attempt w s)) = Some (VBool false) /\
        peripheral (this (snd (attempt w s))) = Some p /\
        wasDisconnected (this (snd (attempt w s))) = false /\
        ringListenerRegistered (this (snd (attempt w s))) = true /\
        flowActionsRegistered (this (snd (attempt w s))) = true /\
        disconnectObservers (homey (snd (attempt w s))) = disconnectObservers (homey s) ++ [p]
  | Throw _ =>
      peripheral (this (snd (attempt w s))) = peripheral (this s) /\
      disconnectObservers (homey (snd (attempt w s))) = disconnectObservers (homey s)
  end /\
  fired device_reconnected (snd (attempt w s)) =
    (fired device_reconnected s + flag (linkUp w s && wasDisconnected (this s)))%nat.
Proof.
  rewrite attempt_phases.
  destruct (establishLink_spec w s) as (_ & _ & Hlink).
  destruct (establishLink_frame w s) as (Hthis1 & Hobs1 & Hfired1).
  destruct (establishLink w s) as [[p | e] s1]; cbn [fst snd] in *.
  2: { rewrite Hlink, Hthis1, Hobs1, Hfired1. cbn. repeat split; lia. }
  destruct Hlink as [Hup Halarm1].
  destruct (notifyReconnected_spec w s1) as (Hret2 & Hflag2 & Hfired2).
  destruct (notifyReconnected_frame w s1) as (Halarm2 & Hper2 & Hobs2).
  destruct (notifyReconnected w s1) as [[[] | e] s2]; cbn [fst snd] in *; [ | discriminate ].
  destruct (bindCharacteristics_frame w p s2) as (Halarm3 & Hper3 & Hflag3 & Hobs3 & Hfired3).
  assert (Hcount : fired device_reconnected s2 =
                   (fired device_reconnected s + flag (linkUp w s && wasDisconnected (this s)))%nat).
  { rewrite Hfired2, Hfired1, Hup, Hthis1. reflexivity. }
  destruct (bindCharacteristics w p s2) as [[[] | e] s3]; cbn [fst snd] in *.
  2: { rewrite Hper3, Hper2, Hthis1, Hobs3, Hobs2, Hobs1, Hfired3. auto. }
  destruct (holdLink_spec p s3) as (Hret4 & Hper4 & Hflag4 & Hring4 & Hflow4 & Hobs4).
  destruct (holdLink_frame p s3) as (Halarm4 & Hfired4).
  destruct (holdLink p s3) as [[[] | e] s4]; cbn [fst snd] in *; [ | discriminate ].
  split.
  - exists p. rewrite Halarm4, Halarm3, Halarm2, Hflag4, Hflag3, Hobs4, Hobs3, Hobs2, Hobs1.
    auto 10.
  - rewrite Hfired4, Hfired3. exact Hcount.
Qed.

(** C3 (as the code has it): when anything in the try block throws,
    [connectToDevice] runs the catch block on the state the block left, and
    the attempt has called [find] and [connect] at most once each, so
    nothing is retried inside it.  For a thrown object the catch block asks
    the hub once to raise the alarm: the alarm is true afterwards when the
    hub accepts the write, and keeps its value, with one error logged, when
    the hub rejects it; then it sets [wasDisconnected] and adds exactly one
    7000 ms reconnect timer.  For [undefined] and [null] the catch block
    throws at line 219: no alarm write, no flag, no timer. *)
Theorem failed_attempt_takes_the_failure_path
  (w : world) (s s1 : session) (e : error) :
  attempt w s = (Throw e, s1) ->
  let s' := snd (connectToDevice w s) in
  connectToDevice w s = attemptFailed w e s1 /\
  (occurrences isFind s' <= S (occurrences isFind s))%nat /\
  (occurrences isConnect s' <= S (occurrences isConnect s))%nat /\
  match unreadable "message" e with
  | None =>
      fst (connectToDevice w s) = Normal tt /\
      occurrences (isAlarmWrite true) s' = S (occurrences (isAlarmWrite true) s) /\
      match hub_setCapabilityValue w alarm_disconnected (VBool true) with
      | Normal _ =>
          alarm s' = Some (VBool true) /\
          occurrences isErrorLog s' = occurrences isErrorLog s1
      | Throw _ =>
          alarm s' = alarm s1 /\
          occurrences isErrorLog s' = S (occurrences isErrorLog s1)
      end /\
      wasDisconnected (this s') = true /\
      timers (homey s') =
        timers (homey s) ++ [{| t_handle := nextHandle (homey s); t_ms := 7000;
                                t_callback := ReconnectCallback; t_repeat := false |}] /\
      reconnectTimeout (this s') = Some (nextHandle (homey s))
  | Some typeError =>
      fst (connectToDevice w s) = Throw typeError /\
      occurrences (isAlarmWrite true) s' = occurrences (isAlarmWrite true) s /\
      alarm s' = alarm s1 /\
      wasDisconnected (this s') = wasDisconnected (this s1) /\
      timers (homey s') = timers (homey s) /\
      reconnectTimeout (this s') = reconnectTimeout (this s1)
  end.
Proof.
  intros Hthrow s'.
  assert (Hrun : connectToDevice w s = attemptFailed w e s1).
  { unfold connectToDevice, try_catch. rewrite Hthrow. reflexivity. }
  destruct (attempt_keeps_queue w s) as [Htimers Hnext].
  pose proof (attempt_never_raises_alarm w s) as Hquiet.
  destruct (attempt_calls_once w s) as [Hfind Hconnect].
  rewrite Hthrow in Htimers, Hnext, Hquiet, Hfind, Hconnect. cbn [snd] in *.
  subst s'. rewrite Hrun.
  split; [ reflexivity | ].
  pose proof (attemptFailed_result w e s1) as Hres.
  destruct (unreadable "message" e) as [typeError |] eqn:Hread.
  - rewrite attemptFailed_stops by (rewrite Hread; discriminate).
    unfold occurrences, alarm in *. cbn.
    rewrite !filter_app, !length_app. cbn.
    split; [ lia | ]. split; [ lia | ].
    split; [ exact Hres | ].
    split; [ lia | ]. auto.
  - destruct (attemptFailed_spec w e s1 Hread)
      as (Hflag & _ & Hhandle & Hqueue & _ & Halarm & Hraised & Hfind' & Hconnect' & _).
    pose proof (attemptFailed_logs w e s1 Hread) as Hlogs.
    rewrite Hfind', Hconnect'.
    split; [ exact Hfind | ]. split; [ exact Hconnect | ].
    split; [ exact Hres | ].
    split; [ rewrite Hraised, Hquiet; reflexivity | ].
    split.
    { destruct (hub_setCapabilityValue w alarm_disconnected (VBool true)); auto. }
    rewrite Hqueue, Htimers, Hhandle, Hnext. auto.
Qed.

Lemma failed_attempt_on_absent_service :
  let s := created (Some tagAddress) unset in
  let s' := snd (connectToDevice serviceAbsent s) in
  fst (attempt serviceAbsent s) = Throw (Error "FFE0 service not found") /\
  alarm s' = Some (VBool true) /\
  wasDisconnected (this s') = true /\
  pending ReconnectCallback s' =
    [{| t_handle := 0%nat; t_ms := 7000; t_callback := ReconnectCallback;
        t_repeat := false |}] /\
  occurrences isFind s' = 1%nat /\
  occurrences isConnect s' = 1%nat.
Proof.
  intros s s'.
  assert (Hthrow : attempt serviceAbsent s =
                   (Throw (Error "FFE0 service not found"), snd (attempt serviceAbsent s)))
    by (vm_compute; reflexivity).
  destruct (failed_attempt_takes_the_failure_path serviceAbsent s _ _ Hthrow)
    as (_ & _ & _ & Hpath).
  cbn [unreadable] in Hpath. destruct Hpath as (_ & _ & Halarm & Hflag & _).
  split; [ vm_compute; reflexivity | ].
  split; [ apply Halarm | ].
  split; [ exact Hflag | ].
  repeat split; vm_compute; reflexivity.
Defined.

(** The failure path without its effects: on a hub that rejects capability
    writes the alarm is not true after a failed attempt, though the flag is
    set and the reconnect is scheduled; after a rejection with [undefined]
    the catch block has written no alarm, set no flag and scheduled
    nothing. *)
Lemma failure_path_without_alarm :
  let s := created (Some tagAddress) unset in
  (fst (attempt hubRejects s) = Throw (Error "Capability write rejected") /\
   alarm (snd (connectToDevice hubRejects s)) = None /\
   wasDisconnected (this (snd (connectToDevice hubRejects s))) = true /\
   pending ReconnectCallback (snd (connectToDevice hubRejects s)) = [reconnectTimerAt 0%nat]) /\
  (fst (attempt findRejectsUndefined s) = Throw Undefined /\
   occurrences (isAlarmWrite true) (snd (connectToDevice findRejectsUndefined s)) = 0%nat /\
   alarm (snd (connectToDevice findRejectsUndefined s)) = None /\
   wasDisconnected (this (snd (connectToDevice findRejectsUndefined s))) = false /\
   pending ReconnectCallback (snd (connectToDevice findRejectsUndefined s)) = []).
Proof. repeat split; vm_compute; reflexivity. Qed.

(** The other failures the attempt can meet end in a throw as well. *)
Example attempt_failures :
  fst (attempt outOfRange (created (Some tagAddress) unset)) = Throw (Error "Not found") /\
  fst (attempt alertServiceAbsent (created (Some tagAddress) unset)) =
    Throw (TypeError "Cannot read properties of null (reading 'getCharacteristic')") /\
  fst (attempt buttonAbsent (created (Some tagAddress) unset)) =
    Throw (Error "Button characteristic (FFE1) not found") /\
  fst (attempt writeRejected (created (Some tagAddress) unset)) =
    Throw (Error "Write failed") /\
  fst (attempt hubRejects (created (Some tagAddress) unset)) =
    Throw (Error "Capability write rejected") /\
  fst (attempt cooperative (created None unset)) =
    Throw (TypeError "Cannot read properties of null (reading 'replace')").
Proof. repeat split; vm_compute; reflexivity. Qed.

(** ** Connect attempts and link losses *)

Lemma connectToDevice_spec w s :
  let s' := snd (connectToDevice w s) in
  fired device_reconnected s' =
    (fired device_reconnected s + flag (linkUp w s && wasDisconnected (this s)))%nat /\
  wasDisconnected (this s') =
    match fst (attempt w s) with
    | Normal _ => false
    | Throw e =>
        match unreadable "message" e with
        | None => true
        | Some _ => wasDisconnected (this (snd (attempt w s)))
        end
    end.
Proof.
  unfold connectToDevice, try_catch.
  destruct (attempt_outcome w s) as [Hout Hfired].
  destruct (attempt w s) as [[[] | e] s1]; cbn [fst snd] in *.
  - destruct Hout as (p & _ & _ & _ & Hflag & _). auto.
  - destruct (unreadable "message" e) as [typeError |] eqn:Hread.
    + rewrite attemptFailed_stops by (rewrite Hread; discriminate).
      split; [ | reflexivity ].
      rewrite <- Hfired. unfold fired. cbn. rewrite filter_app, length_app. cbn. lia.
    + destruct (attemptFailed_spec w e s1 Hread)
        as (Hflag & _ & _ & _ & _ & _ & _ & _ & _ & Hsame).
      rewrite Hsame. auto.
Qed.

Lemma applyAll_snoc es e s : applyAll (es ++ [e]) s = apply e (applyAll es s).
Proof. unfold applyAll. rewrite fold_left_app. reflexivity. Qed.

Lemma attempt_throws_without_link w s :
  linkUp w s = false ->
  exists e, fst (attempt w s) = Throw e /\
            wasDisconnected (this (snd (attempt w s))) = wasDisconnected (this s).
Proof.
  intros Hdown. rewrite attempt_split.
  destruct (establishLink_spec w s) as (_ & _ & Hlink).
  destruct (establishLink_frame w s) as (Hthis & _).
  destruct (establishLink w s) as [[p | e] s1]; cbn [fst snd] in *.
  - destruct Hlink as [Hup _]. congruence.
  - exists e. rewrite Hthis. auto.
Qed.

Lemma disconnected_event e s :
  keepsDisconnected e s ->
  fired device_reconnected (apply e s) = fired device_reconnected s /\
  (marks e s -> wasDisconnected (this (apply e s)) = true) /\
  (~ marks e s -> wasDisconnected (this (apply e s)) = wasDisconnected (this s)) /\
  (wasDisconnected (this s) = true -> wasDisconnected (this (apply e s)) = true).
Proof.
  destruct e as [w | w p]; cbn [keepsDisconnected apply marks].
  - intros Hdown. destruct (connectToDevice_spec w s) as [Hfired Hflag].
    destruct (attempt_throws_without_link w s Hdown) as (e & He & Hkept).
    rewrite Hfired, Hflag, Hdown, He, Hkept. cbn.
    split; [ lia | ]. split; [ | split ].
    + intros [msg Hmsg]. injection Hmsg as ->. reflexivity.
    + intros Hbare. destruct e as [msg | |]; [ | reflexivity | reflexivity ].
      exfalso. apply Hbare. exists msg. reflexivity.
    + intros Hset. destruct e; cbn; auto.
  - intros _. destruct (onDisconnect_spec w p s) as (_ & Hflag & _ & _ & _ & _ & _ & Hfired & _).
    split; [ exact Hfired | ]. split; [ intros _; exact Hflag | ].
    split; [ | intros _; exact Hflag ].
    intros Hno. exfalso. apply Hno. exact I.
Qed.

Lemma disconnectedRun_spec es :
  forall s, disconnectedRun es s ->
    fired device_reconnected (applyAll es s) = fired device_reconnected s /\
    (marked es s \/ wasDisconnected (this s) = true ->
     wasDisconnected (this (applyAll es s)) = true) /\
    (~ marked es s -> wasDisconnected (this (applyAll es s)) = wasDisconnected (this s)).
Proof.
  induction es as [| e rest IH]; intros s Hrun.
  - cbn. split; [ reflexivity | ]. split; [ intros [[] | H]; exact H | reflexivity ].
  - destruct Hrun as [Hhead Hrest].
    destruct (disconnected_event e s Hhead) as (Hfired & Hset & Hkept & Hstays).
    destruct (IH (apply e s) Hrest) as (Hfired' & Hset' & Hkept').
    change (applyAll (e :: rest) s) with (applyAll rest (apply e s)).
    split; [ rewrite Hfired'; exact Hfired | ].
    split.
    + intros [[Hmarks | Hlater] | Hflag].
      * apply Hset'. right. apply Hset. exact Hmarks.
      * apply Hset'. left. exact Hlater.
      * apply Hset'. right. apply Hstays. exact Hflag.
    + intros Hno. cbn [marked] in Hno.
      rewrite Hkept'; [ apply Hkept | ]; intros H; apply Hno; auto.
Qed.

Lemma bind_post {A B : Type} (P Q : session -> Prop) (m : M A) (k : A -> M B) :
  (forall s, P s -> Q s) ->
  preserves P m ->
  (forall a s, P s -> Q (snd (k a s))) ->
  forall s, P s -> Q (snd (bind m k s)).
Proof.
  intros HPQ Hm Hk s Hs. unfold bind. specialize (Hm s Hs).
  destruct (m s) as [[a | e] s1]; cbn [snd] in *.
  - apply Hk. exact Hm.
  - apply HPQ. exact Hm.
Qed.

Ltac quiet_side :=
  intros ? [? ?]; split;
  [ first [ assumption
          | unfold fired, occurrences in *; cbn in *;
            rewrite filter_app, length_app; cbn; lia ]
  | assumption ].

Lemma onInit_fires_nothing w s :
  wasDisconnected (this s) = false ->
  fired device_reconnected (snd (onInit w s)) = fired device_reconnected s.
Proof.
  intros Hflag.
  set (P := fun s' => fired device_reconnected s' = fired device_reconnected s /\
                      wasDisconnected (this s') = false).
  set (Q := fun s' => fired device_reconnected s' = fired device_reconnected s).
  cut (forall s', P s' -> Q (snd (onInit w s'))).
  { intros H. apply H. split; [ reflexivity | exact Hflag ]. }
  unfold onInit.
  repeat (apply (bind_post P Q);
          [ intros ? [? _]; assumption | solve [ subst P; pres quiet_side ] | intros ? ]).
  intros s' [Hfired Hflag']. subst Q. cbn beta.
  assert (Hconnect : fired device_reconnected (snd (connectToDevice w s')) =
                     fired device_reconnected s).
  { destruct (connectToDevice_spec w s') as [-> _].
    rewrite Hflag', andb_false_r, Hfired. cbn. lia. }
  destruct (homey_version w) as [v |]; [ destruct (v <? 6) | ]; try exact Hconnect.
  unfold log, emit, hubDo. cbn. count_trace.
Qed.

(** C1 (as the code has it): after a connect attempt that succeeds, and
    after a link loss whose alarm write the hub accepts, [alarm_disconnected]
    is true exactly when no link is held and false exactly when one is,
    whatever happened before. *)
Theorem alarm_mirrors_link_after_settled_event
  (s0 : session) (events : list lifecycle) (last : lifecycle) :
  settles last (applyAll events s0) ->
  let s := applyAll (events ++ [last]) s0 in
  alarmMirrorsLink s /\
  (alarm s = Some (VBool false) <-> connectionPhase s = Connected).
Proof.
  intros Hsettles s. subst s. rewrite applyAll_snoc.
  set (s := applyAll events s0) in *.
  unfold alarmMirrorsLink, connectionPhase.
  destruct last as [w | w p]; cbn [apply settles] in *.
  - destruct (attempt_outcome w s) as [Hout _].
    unfold connectToDevice, try_catch.
    destruct (attempt w s) as [[[] | e] s1]; cbn [fst snd] in *; [ | discriminate ].
    destruct Hout as (p & _ & -> & -> & _).
    repeat split; intros; congruence.
  - destruct (onDisconnect_spec w p s) as (_ & _ & -> & _ & _ & _ & -> & _).
    rewrite Hsettles. repeat split; intros; congruence.
Qed.

Lemma alarm_mirrors_link_on_a_run :
  let s := applyAll [ConnectAttempt cooperative; LinkLost cooperative 1%nat;
                     ConnectAttempt outOfRange; ConnectAttempt cooperative]
             (created (Some tagAddress) unset) in
  alarm s = Some (VBool false) /\ connectionPhase s = Connected.
Proof.
  intros s.
  destruct (alarm_mirrors_link_after_settled_event (created (Some tagAddress) unset)
              [ConnectAttempt cooperative; LinkLost cooperative 1%nat;
               ConnectAttempt outOfRange]
              (ConnectAttempt cooperative)) as [_ Hiff].
  - vm_compute. reflexivity.
  - assert (Hphase : connectionPhase s = Connected) by (vm_compute; reflexivity).
    split; [ apply Hiff; exact Hphase | exact Hphase ].
Defined.

Lemma alarm_stale_without_settled_event :
  ~ alarmMirrorsLink (started (Some tagAddress) unset legacyHub) /\
  ~ alarmMirrorsLink
      (applyAll [ConnectAttempt cooperative; LinkLost hubRejects 1%nat]
         (created (Some tagAddress) unset)).
Proof.
  split.
  - intros [_ H].
    assert (Hnone : alarm (started (Some tagAddress) unset legacyHub) = None)
      by (vm_compute; reflexivity).
    rewrite Hnone in H. discriminate H.
    vm_compute. discriminate.
  - intros [_ H].
    assert (Hfalse : alarm (applyAll [ConnectAttempt cooperative; LinkLost hubRejects 1%nat]
                              (created (Some tagAddress) unset)) = Some (VBool false))
      by (vm_compute; reflexivity).
    rewrite Hfalse in H. discriminate H.
    vm_compute. discriminate.
Qed.

(** C2 (as the code has it): a connect attempt fires [device_reconnected]
    exactly once when it brings the link up while [wasDisconnected] is set,
    and not at all otherwise; the flag is cleared right after the trigger,
    and set again by every link loss and by every attempt that fails with
    an object; an attempt that fails with [undefined] or [null] leaves the
    flag as the try block left it.  So the session's first attempt never
    fires it; a stretch of link losses and of attempts that bring no link
    up, followed by an attempt that does, fires it exactly once when the
    flag was set before or the stretch has a link loss or a failure with an
    object, and not at all otherwise. *)
Theorem reconnected_fires_once_when_flagged (w : world) (s : session) :
  let s' := snd (connectToDevice w s) in
  fired device_reconnected s' =
    (fired device_reconnected s + flag (linkUp w s && wasDisconnected (this s)))%nat /\
  wasDisconnected (this s') =
    match fst (attempt w s) with
    | Normal _ => false
    | Throw e =>
        match unreadable "message" e with
        | None => true
        | Some _ => wasDisconnected (this (snd (attempt w s)))
        end
    end /\
  wasDisconnected (this (snd (notifyReconnected w s))) = false /\
  fired device_reconnected (snd (notifyReconnected w s)) =
    (fired device_reconnected s + flag (wasDisconnected (this s)))%nat /\
  (forall p, wasDisconnected (this (snd (onDisconnect w p s))) = true /\
             fired device_reconnected (snd (onDisconnect w p s)) = fired device_reconnected s) /\
  (forall address stored, fired device_reconnected (started address stored w) = 0%nat) /\
  (forall es, disconnectedRun es s -> linkUp w (applyAll es s) = true ->
     (marked es s \/ wasDisconnected (this s) = true ->
      fired device_reconnected (apply (ConnectAttempt w) (applyAll es s)) =
        S (fired device_reconnected s)) /\
     (~ marked es s -> wasDisconnected (this s) = false ->
      fired device_reconnected (apply (ConnectAttempt w) (applyAll es s)) =
        fired device_reconnected s)).
Proof.
  destruct (connectToDevice_spec w s) as [Hfired Hflag].
  destruct (notifyReconnected_spec w s) as (_ & Hcleared & Hnotified).
  repeat (split; [ assumption | ]).
  split.
  { intros p. destruct (onDisconnect_spec w p s) as (_ & H & _ & _ & _ & _ & _ & H' & _).
    auto. }
  split.
  { intros address stored. unfold started. rewrite onInit_fires_nothing; reflexivity. }
  intros es Hrun Hup.
  destruct (disconnectedRun_spec es s Hrun) as (Hsame & Hset & Hkept).
  cbn [apply]. destruct (connectToDevice_spec w (applyAll es s)) as [-> _].
  rewrite Hup, Hsame. split.
  - intros Hmarked. rewrite (Hset Hmarked). cbn. lia.
  - intros Hno Hclear. rewrite (Hkept Hno), Hclear. cbn. lia.
Qed.

Lemma reconnected_fires_once_after_a_loss :
  fired device_reconnected
    (apply (ConnectAttempt cooperative)
       (applyAll [LinkLost cooperative 1%nat; ConnectAttempt outOfRange] connected)) =
  S (fired device_reconnected connected).
Proof.
  destruct (reconnected_fires_once_when_flagged cooperative connected)
    as (_ & _ & _ & _ & _ & _ & Hrun).
  destruct (Hrun [LinkLost cooperative 1%nat; ConnectAttempt outOfRange]) as [Hfires _].
  - vm_compute. repeat split.
  - vm_compute. reflexivity.
  - apply Hfires. left. left. exact I.
Defined.

Lemma reconnected_fires_on_first_ever_connect :
  let s0 := started (Some tagAddress) unset outOfRange in
  let s1 := react (TimerFires 1%nat) cooperative s0 in
  occurrences isConnect s0 = 0%nat /\ connectionPhase s0 = Disconnected /\
  fired device_reconnected s0 = 0%nat /\
  occurrences isConnect s1 = 1%nat /\ connectionPhase s1 = Connected /\
  fired device_reconnected s1 = 1%nat.
Proof. repeat split; vm_compute; reflexivity. Qed.

(** ** The invariant of a running session *)

Lemma filter_strictly_shorter {A : Type} (f g : A -> bool) (l : list A) (a : A) :
  In a l -> f a = true -> g a = false ->
  (List.length (filter f (filter g l)) < List.length (filter f l))%nat.
Proof.
  induction l as [| x l IH]; intros Hin Hf Hg.
  - destruct Hin.
  - simpl. destruct Hin as [-> | Hin].
    + rewrite Hg, Hf. simpl.
      rewrite filter_filter_comm. pose proof (filter_length_le g (filter f l)). lia.
    + specialize (IH Hin Hf Hg).
      destruct (g x), (f x) eqn:Hfx; simpl; rewrite ?Hfx; simpl; lia.
Qed.

Lemma NoDup_map_injective {A B : Type} (f : A -> B) (l : list A) (a b : A) :
  NoDup (map f l) -> In a l -> In b l -> f a = f b -> a = b.
Proof.
  induction l as [| x l IH]; intros Hnodup Ha Hb Heq.
  - destruct Ha.
  - simpl in Hnodup. inversion Hnodup as [| y l' Hnotin Hrest]; subst.
    destruct Ha as [-> | Ha], Hb as [-> | Hb].
    + reflexivity.
    + exfalso. apply Hnotin. rewrite Heq. apply in_map. exact Hb.
    + exfalso. apply Hnotin. rewrite <- Heq. apply in_map. exact Ha.
    + apply IH; assumption.
Qed.

Lemma same_key_at_most_one {A B : Type} (f : A -> B) (l : list A) (c : B) :
  NoDup (map f l) -> (forall x, In x l -> f x = c) -> (List.length l <= 1)%nat.
Proof.
  intros Hnodup Hsame. destruct l as [| a [| b rest]]; simpl; try lia.
  exfalso. simpl in Hnodup. inversion Hnodup as [| y l' Hnotin _]; subst.
  apply Hnotin. left.
  rewrite (Hsame a), (Hsame b); simpl; auto.
Qed.

Lemma pending_schedule_same cb cb' ms rp s :
  callback_eqb cb' cb = false ->
  pending cb (snd (schedule cb' ms rp s)) = pending cb s.
Proof.
  intros Hne. unfold pending, schedule. cbn.
  rewrite filter_app. cbn. rewrite Hne. apply app_nil_r.
Qed.

Lemma pending_schedule_new cb ms rp s :
  pending cb (snd (schedule cb ms rp s)) =
    pending cb s ++ [{| t_handle := nextHandle (homey s); t_ms := ms; t_callback := cb;
                        t_repeat := rp |}].
Proof.
  unfold pending, schedule. cbn. rewrite filter_app. cbn.
  destruct cb; reflexivity.
Qed.

Lemma pending_cancel cb g s :
  pending cb {| this := this s; homey := set_timers (filter g (timers (homey s))) (homey s) |}
  = filter g (pending cb s).
Proof. unfold pending. cbn. apply filter_filter_comm. Qed.

Lemma tokens_schedule_other cb ms rp s :
  callback_eqb cb ReconnectCallback = false ->
  tokens (snd (schedule cb ms rp s)) = tokens s.
Proof.
  intros Hne. unfold tokens. rewrite (pending_schedule_same _ _ _ _ _ Hne). reflexivity.
Qed.

Lemma tokens_cancel g s :
  (tokens {| this := this s; homey := set_timers (filter g (timers (homey s))) (homey s) |}
   <= tokens s)%nat.
Proof.
  unfold tokens. rewrite pending_cancel. cbn.
  pose proof (filter_length_le g (pending ReconnectCallback s)). lia.
Qed.

Ltac tokens_side :=
  intros ? ?;
  match goal with
  | H : (tokens ?s <= ?n)%nat |- _ =>
      first
        [ exact H
        | rewrite tokens_schedule_other; [ exact H | reflexivity ]
        | apply (Nat.le_trans _ (tokens s)); [ apply tokens_cancel | exact H ] ]
  end.

(** A connect attempt that returns leaves one more way to start the next
    one: the observer of the new link, or a reconnect timer.  One that
    throws leaves none. *)
Lemma connectToDevice_tokens w s :
  tokens (snd (connectToDevice w s)) =
    match fst (connectToDevice w s) with
    | Normal _ => S (tokens s)
    | Throw _ => tokens s
    end.
Proof.
  pose proof (connectToDevice_result w s) as Hres. rewrite Hres.
  unfold connectToDevice, try_catch in *.
  destruct (attempt_outcome w s) as [Hout _].
  destruct (attempt_keeps_queue w s) as [Htimers _].
  destruct (attempt w s) as [[[] | e] s1]; cbn [fst snd] in *.
  - destruct Hout as (p & _ & _ & _ & _ & _ & _ & Hobs).
    unfold tokens, pending. rewrite Htimers, Hobs, length_app. cbn. lia.
  - destruct Hout as [_ Hobs].
    destruct (unreadable "message" e) as [typeError |] eqn:Hread.
    + rewrite attemptFailed_stops by (rewrite Hread; discriminate).
      unfold tokens, pending. cbn. rewrite Htimers, Hobs. reflexivity.
    + destruct (attemptFailed_spec w e s1 Hread) as (_ & _ & _ & Hqueue & Hobs' & _).
      unfold tokens, pending. rewrite Hqueue, Hobs', Htimers, Hobs, filter_app, length_app.
      cbn. lia.
Qed.

Lemma connectToDevice_tokens_le w s :
  (tokens (snd (connectToDevice w s)) <= S (tokens s))%nat.
Proof. rewrite connectToDevice_tokens. destruct (fst (connectToDevice w s)); lia. Qed.

Lemma onDisconnect_tokens w p s : tokens (snd (onDisconnect w p s)) = S (tokens s).
Proof.
  destruct (onDisconnect_spec w p s) as (_ & _ & _ & _ & Hqueue & Hobs & _).
  unfold tokens, pending. rewrite Hqueue, Hobs, filter_app, length_app. cbn. lia.
Qed.

Lemma invoke_onDisconnect_tokens w p n :
  forall s, tokens (invoke n (onDisconnect w p) s) = (tokens s + n)%nat.
Proof.
  induction n as [| n IH]; intros s; simpl.
  - lia.
  - rewrite IH, onDisconnect_tokens. lia.
Qed.

Lemma ringStop_tokens w n : preserves (fun s => (tokens s <= n)%nat) (ringStop w).
Proof. pres tokens_side. Qed.

Lemma rssiPoll_tokens w n : preserves (fun s => (tokens s <= n)%nat) (rssiPoll w).
Proof. pres tokens_side. Qed.

Lemma ringListener_tokens w v n : preserves (fun s => (tokens s <= n)%nat) (ringListener w v).
Proof. pres tokens_side. Qed.

Lemma startRingingListener_tokens w n :
  preserves (fun s => (tokens s <= n)%nat) (startRingingListener w).
Proof. pres tokens_side. Qed.

Lemma stopRingingListener_tokens w n :
  preserves (fun s => (tokens s <= n)%nat) (stopRingingListener w).
Proof. pres tokens_side. Qed.

Lemma onDeleted_tokens w n : preserves (fun s => (tokens s <= n)%nat) (onDeleted w).
Proof. pres tokens_side. Qed.

Lemma fire_unfold w h s :
  fire w h s =
    match find (fun t => (t_handle t =? h)%nat) (timers (homey s)) with
    | Some t =>
        if t_repeat t then runCallback w (t_callback t) s
        else runCallback w (t_callback t) (snd (cancel h s))
    | None => (Normal tt, s)
    end.
Proof.
  unfold fire, bind, hubGets. cbn.
  destruct (find _ _) as [t |]; [ | reflexivity ].
  destruct (t_repeat t); reflexivity.
Qed.

Lemma fire_tokens w h s : scheduled s -> (tokens s <= 1)%nat -> (tokens (snd (fire w h s)) <= 1)%nat.
Proof.
  intros (_ & _ & Hshaped & _) Htokens. rewrite fire_unfold.
  destruct (find _ _) as [t |] eqn:Hfind; [ | exact Htokens ].
  apply find_some in Hfind. destruct Hfind as [Hin Hhandle].
  rewrite Forall_forall in Hshaped. specialize (Hshaped t Hin). unfold shaped in Hshaped.
  assert (Hcancel : (tokens (snd (cancel h s)) <= 1)%nat).
  { apply (Nat.le_trans _ (tokens s)); [ apply tokens_cancel | exact Htokens ]. }
  destruct (t_callback t) eqn:Hcb; cbn [runCallback].
  - destruct Hshaped as [_ ->].
    pose proof (connectToDevice_tokens_le w (snd (cancel h s))) as Hconnect.
    assert (Hless : (tokens (snd (cancel h s)) < tokens s)%nat).
    { unfold tokens, cancel, hubDo. cbn [snd]. rewrite pending_cancel. cbn.
      apply Nat.add_lt_mono_r. unfold pending.
      rewrite <- filter_filter_comm.
      apply (filter_strictly_shorter _ _ _ t Hin).
      - rewrite Hcb. reflexivity.
      - rewrite Hhandle. reflexivity. }
    lia.
  - destruct (t_repeat t); apply ringStop_tokens; assumption.
  - destruct (t_repeat t); apply rssiPoll_tokens; assumption.
Qed.

Lemma dropObservers_tokens p s :
  (tokens (dropObservers p s) + observing p s)%nat = tokens s.
Proof.
  unfold tokens, observing, dropObservers, pending. cbn.
  pose proof (filter_split_length (fun q => (q =? p)%nat) (disconnectObservers (homey s)))
    as Hsplit.
  cbv beta in Hsplit. unfold link in *. lia.
Qed.

Lemma react_tokens i w s :
  scheduled s -> listenersMatchFlags s -> (tokens s <= 1)%nat -> (tokens (react i w s) <= 1)%nat.
Proof.
  intros Hsched Hmatch Htokens. destruct i as [h | p | v | | |]; cbn [react].
  - apply fire_tokens; assumption.
  - rewrite invoke_onDisconnect_tokens. pose proof (dropObservers_tokens p s). lia.
  - apply (preserves_invoke (fun s => (tokens s <= 1)%nat)); [ apply ringListener_tokens | exact Htokens ].
  - apply (preserves_invoke (fun s => (tokens s <= 1)%nat));
      [ apply startRingingListener_tokens | exact Htokens ].
  - apply (preserves_invoke (fun s => (tokens s <= 1)%nat));
      [ apply stopRingingListener_tokens | exact Htokens ].
  - apply onDeleted_tokens. exact Htokens.
Qed.

Lemma react_scheduled i w s : scheduled s -> scheduled (react i w s).
Proof.
  intros H. destruct i as [h | p | v | | |]; cbn [react].
  - apply fire_scheduled. exact H.
  - apply preserves_invoke; [ pres scheduled_side | exact H ].
  - apply preserves_invoke; [ pres scheduled_side | exact H ].
  - apply preserves_invoke; [ pres scheduled_side | exact H ].
  - apply preserves_invoke; [ pres scheduled_side | exact H ].
  - apply onDeleted_scheduled. exact H.
Qed.

Lemma registerListeners_match : preserves listenersMatchFlags registerListeners.
Proof.
  intros [d h] (Hring & Hstart & Hstop).
  unfold listenersMatchFlags, registerListeners in *. unfold_monad. cbn in *.
  destruct (ringListenerRegistered d) eqn:E1; destruct (flowActionsRegistered d) eqn:E2;
    cbn in *; rewrite ?E1, ?E2; cbn; rewrite ?Hring, ?Hstart, ?Hstop, ?E1, ?E2; cbn; auto.
Qed.

Ltac match_side := intros ? ?; assumption.

Ltac pres_match :=
  unfold_methods_but_listeners; pres_steps match_side;
  try apply registerListeners_match.

Lemma react_match i w s : listenersMatchFlags s -> listenersMatchFlags (react i w s).
Proof.
  intros H. destruct i as [h | p | v | | |]; cbn [react].
  - revert s H. change (preserves listenersMatchFlags (fire w h)).
    unfold fire, runCallback. pres_match.
  - apply preserves_invoke; [ pres_match | exact H ].
  - apply preserves_invoke; [ pres_match | exact H ].
  - apply preserves_invoke; [ pres_match | exact H ].
  - apply preserves_invoke; [ pres_match | exact H ].
  - revert s H. change (preserves listenersMatchFlags (onDeleted w)). pres_match.
Qed.

Lemma react_sound i w s : sound s -> sound (react i w s).
Proof.
  intros (Hsched & Hmatch & Htokens). split; [ | split ].
  - apply react_scheduled. exact Hsched.
  - apply react_match. exact Hmatch.
  - apply react_tokens; assumption.
Qed.

Lemma run_sound inputs : forall s, sound s -> sound (run inputs s).
Proof.
  induction inputs as [| [i w] rest IH]; intros s H; simpl.
  - exact H.
  - apply IH. apply react_sound. exact H.
Qed.

Lemma onInit_tokens w s : tokens s = 0%nat -> (tokens (snd (onInit w s)) <= 1)%nat.
Proof.
  intros Hzero.
  set (P := fun s' => (tokens s' <= 0)%nat).
  set (Q := fun s' => (tokens s' <= 1)%nat).
  cut (forall s', P s' -> Q (snd (onInit w s'))).
  { intros H. apply H. subst P. cbn beta. lia. }
  unfold onInit.
  repeat (apply (bind_post P Q);
          [ subst P Q; cbn beta; intros; lia | solve [ subst P; pres tokens_side ] | intros ? ]).
  subst P Q. cbn beta. intros s' Hs'.
  pose proof (connectToDevice_tokens_le w s') as Hconnect.
  destruct (homey_version w) as [v |]; [ destruct (v <? 6) | ]; try lia.
  unfold log, emit, hubDo. cbn. unfold tokens, pending in *. cbn in *. lia.
Qed.

Lemma created_sound address stored : sound (created address stored).
Proof.
  unfold sound, scheduled, listenersMatchFlags, tokens. cbn.
  repeat split; auto; constructor.
Qed.

Lemma started_sound address stored w : sound (started address stored w).
Proof.
  destruct (created_sound address stored) as (Hsched & Hmatch & _).
  unfold started. split; [ | split ].
  - apply onInit_scheduled. exact Hsched.
  - revert Hmatch. generalize (created address stored).
    change (preserves listenersMatchFlags (onInit w)). pres_match.
  - apply onInit_tokens. reflexivity.
Qed.

Lemma running_sound address stored w inputs : sound (run inputs (started address stored w)).
Proof. apply run_sound. apply started_sound. Qed.

(** ** Reconnect timers *)

Lemma reconnect_spec s :
  fst (reconnect s) = Normal tt /\
  pending ReconnectCallback (snd (reconnect s)) =
    pending ReconnectCallback s ++
      [{| t_handle := nextHandle (homey s); t_ms := 7000; t_callback := ReconnectCallback;
          t_repeat := false |}] /\
  reconnectTimeout (this (snd (reconnect s))) = Some (nextHandle (homey s)).
Proof.
  unfold reconnect, setTimeout, log, emit. unfold_monad. cbn.
  unfold pending. cbn. rewrite filter_app. cbn. auto.
Qed.

Lemma fire_reconnect w t s :
  scheduled s -> (tokens s <= 1)%nat -> In t (pending ReconnectCallback s) ->
  fire w (t_handle t) s = connectToDevice w (snd (cancel (t_handle t) s)) /\
  pending ReconnectCallback (snd (cancel (t_handle t) s)) = [].
Proof.
  intros (_ & Hnodup & Hshaped & _) Htokens Hin.
  unfold pending in Hin. apply filter_In in Hin. destruct Hin as [Hin Hcb].
  assert (Hfind : find (fun t' => (t_handle t' =? t_handle t)%nat) (timers (homey s)) = Some t).
  { destruct (find _ _) as [t' |] eqn:Hfind.
    - apply find_some in Hfind. destruct Hfind as [Hin' Heq]. apply Nat.eqb_eq in Heq.
      f_equal. apply (NoDup_map_injective t_handle (timers (homey s))); assumption.
    - pose proof (find_none _ _ Hfind t Hin) as Hno. cbn in Hno.
      rewrite Nat.eqb_refl in Hno. discriminate. }
  rewrite Forall_forall in Hshaped. specialize (Hshaped t Hin). unfold shaped in Hshaped.
  destruct (t_callback t) eqn:Hkind; try discriminate. destruct Hshaped as [_ Honce].
  split.
  - rewrite fire_unfold, Hfind, Honce, Hkind. reflexivity.
  - assert (Hless : (List.length (pending ReconnectCallback (snd (cancel (t_handle t) s)))
                     < List.length (pending ReconnectCallback s))%nat).
    { unfold cancel, hubDo. cbn [snd]. rewrite pending_cancel. unfold pending.
      rewrite <- filter_filter_comm.
      apply (filter_strictly_shorter _ _ _ t Hin).
      - rewrite Hkind. reflexivity.
      - rewrite Nat.eqb_refl. reflexivity. }
    unfold tokens in Htokens.
    destruct (pending ReconnectCallback (snd (cancel (t_handle t) s))); [ reflexivity | ].
    cbn in Hless. lia.
Qed.

(** C4 (as the code has it): [reconnect] has no guard: every call adds one
    one-shot 7000 ms timer whose callback is one connect attempt.  Along
    every run of a session, from [onInit] through any inputs, at most one
    such timer is pending, because a reconnect is only scheduled by the
    observer of the one held link or by the failure path of the one attempt
    in flight; firing the pending timer takes it off the queue and runs
    exactly one [connectToDevice]. *)
Theorem at_most_one_reconnect_pending
  (address : option string) (stored : capability -> option capval) (w0 : world)
  (inputs : list (input * world)) :
  let s := run inputs (started address stored w0) in
  (List.length (pending ReconnectCallback s) <= 1)%nat /\
  Forall (fun t => t_ms t = 7000 /\ t_repeat t = false) (pending ReconnectCallback s) /\
  (forall t w, In t (pending ReconnectCallback s) ->
     react (TimerFires (t_handle t)) w s =
       snd (connectToDevice w (snd (cancel (t_handle t) s))) /\
     pending ReconnectCallback (snd (cancel (t_handle t) s)) = []) /\
  (forall s1, pending ReconnectCallback (snd (reconnect s1)) =
     pending ReconnectCallback s1 ++
       [{| t_handle := nextHandle (homey s1); t_ms := 7000;
           t_callback := ReconnectCallback; t_repeat := false |}]).
Proof.
  intros s. destruct (running_sound address stored w0 inputs) as (Hsched & _ & Htokens).
  fold s in Hsched, Htokens.
  split; [ unfold tokens in Htokens; lia | ].
  split.
  - destruct Hsched as (_ & _ & Hshaped & _).
    apply Forall_forall. intros t Hin. unfold pending in Hin.
    apply filter_In in Hin. destruct Hin as [Hin Hcb].
    rewrite Forall_forall in Hshaped. specialize (Hshaped t Hin). unfold shaped in Hshaped.
    destruct (t_callback t); try discriminate. exact Hshaped.
  - split.
    + intros t w Hin. destruct (fire_reconnect w t s Hsched Htokens Hin) as [Hfire Hnone].
      split; [ cbn [react]; rewrite Hfire; reflexivity | exact Hnone ].
    + intros s1. apply reconnect_spec.
Qed.

Lemma reconnect_timer_runs_one_attempt :
  let s := run [] (started (Some tagAddress) unset outOfRange) in
  let t := {| t_handle := 1%nat; t_ms := 7000; t_callback := ReconnectCallback;
              t_repeat := false |} in
  react (TimerFires (t_handle t)) cooperative s =
    snd (connectToDevice cooperative (snd (cancel (t_handle t) s))) /\
  pending ReconnectCallback (snd (cancel (t_handle t) s)) = [].
Proof.
  intros s t.
  destruct (at_most_one_reconnect_pending (Some tagAddress) unset outOfRange [])
    as (_ & _ & Hfire & _).
  apply Hfire. vm_compute. left. reflexivity.
Defined.

Lemma reconnect_stacks_when_called_twice :
  let s := started (Some tagAddress) unset outOfRange in
  List.length (pending ReconnectCallback s) = 1%nat /\
  fst (reconnect s) = Normal tt /\
  List.length (pending ReconnectCallback (snd (reconnect s))) = 2%nat.
Proof. repeat split; vm_compute; reflexivity. Qed.

(** C7: along every run of a session the ring capability listener and the
    two run listeners are registered once or not at all, exactly as the two
    flags say, however many connect attempts succeed; so a trigger invokes a
    registered listener exactly once; and every attempt that succeeds leaves
    both flags set. *)
Theorem listeners_registered_at_most_once
  (address : option string) (stored : capability -> option capval) (w0 : world)
  (inputs : list (input * world)) :
  let s := run inputs (started address stored w0) in
  ringListeners (homey s) = flag (ringListenerRegistered (this s)) /\
  startRunListeners (homey s) = flag (flowActionsRegistered (this s)) /\
  stopRunListeners (homey s) = flag (flowActionsRegistered (this s)) /\
  (ringListeners (homey s) <= 1)%nat /\
  (startRunListeners (homey s) <= 1)%nat /\
  (stopRunListeners (homey s) <= 1)%nat /\
  (forall w v, react (RingSet v) w s =
     if ringListenerRegistered (this s) then snd (ringListener w v s) else s) /\
  (forall w, react StartRinging w s =
     if flowActionsRegistered (this s) then snd (startRingingListener w s) else s) /\
  (forall w, react StopRinging w s =
     if flowActionsRegistered (this s) then snd (stopRingingListener w s) else s) /\
  (forall w, match fst (attempt w s) with
             | Normal _ =>
                 ringListenerRegistered (this (snd (connectToDevice w s))) = true /\
                 flowActionsRegistered (this (snd (connectToDevice w s))) = true
             | Throw _ => True
             end).
Proof.
  intros s. destruct (running_sound address stored w0 inputs) as (_ & Hmatch & _).
  fold s in Hmatch. destruct Hmatch as (Hring & Hstart & Hstop).
  repeat split; try assumption.
  - rewrite Hring. destruct (ringListenerRegistered (this s)); cbn; lia.
  - rewrite Hstart. destruct (flowActionsRegistered (this s)); cbn; lia.
  - rewrite Hstop. destruct (flowActionsRegistered (this s)); cbn; lia.
  - cbn [react]. rewrite Hring. destruct (ringListenerRegistered (this s)); reflexivity.
  - cbn [react]. rewrite Hstart. destruct (flowActionsRegistered (this s)); reflexivity.
  - cbn [react]. rewrite Hstop. destruct (flowActionsRegistered (this s)); reflexivity.
  - intros w. destruct (attempt_outcome w s) as [Hout _].
    unfold connectToDevice, try_catch.
    destruct (attempt w s) as [[[] | e] s1]; cbn [fst snd] in *; [ | exact I ].
    destruct Hout as (p & _ & _ & _ & _ & Hr & Hf & _). auto.
Qed.

Example listeners_after_three_connects :
  let s := run [(LinkDisconnects 1%nat, cooperative); (TimerFires 1%nat, cooperative);
                (LinkDisconnects 1%nat, cooperative); (TimerFires 2%nat, cooperative)]
             connected in
  connectionPhase s = Connected /\ occurrences isConnect s = 3%nat /\
  ringListeners (homey s) = 1%nat /\ startRunListeners (homey s) = 1%nat /\
  stopRunListeners (homey s) = 1%nat.
Proof. repeat split; vm_compute; reflexivity. Qed.

(** ** Ring-stop timers *)

Lemma filter_same_key_out (h : handle) (l : list timer) :
  (forall t, In t l -> h = t_handle t) ->
  filter (fun t => negb (t_handle t =? h)%nat) l = [].
Proof.
  induction l as [| x l IH]; intros Hsame; simpl.
  - reflexivity.
  - rewrite <- (Hsame x (or_introl eq_refl)), Nat.eqb_refl. simpl.
    apply IH. intros t Hin. apply Hsame. right. exact Hin.
Qed.

Ltac ring_side :=
  intros ? [? ?]; split;
  [ first
      [ assumption
      | rewrite pending_schedule_same by reflexivity; assumption
      | cbv beta; rewrite pending_cancel;
        let x := fresh "x" in
        let Hx := fresh "Hx" in
        intros x Hx; apply filter_In in Hx; destruct Hx as [Hx _];
        match goal with H : incl _ _ |- _ => apply H; exact Hx end ]
  | assumption ].

Lemma connectToDevice_ringNeutral w : ringNeutral (connectToDevice w).
Proof. intros L f. pres ring_side. Qed.

Lemma ringStop_ringNeutral w : ringNeutral (ringStop w).
Proof. intros L f. pres ring_side. Qed.

Lemma rssiPoll_ringNeutral w : ringNeutral (rssiPoll w).
Proof. intros L f. pres ring_side. Qed.

Lemma onDisconnect_ringNeutral w p : ringNeutral (onDisconnect w p).
Proof. intros L f. pres ring_side. Qed.

Lemma onDeleted_ringNeutral w : ringNeutral (onDeleted w).
Proof. intros L f. pres ring_side. Qed.

Lemma onInit_ringNeutral w : ringNeutral (onInit w).
Proof. intros L f. pres ring_side. Qed.

Lemma fire_ringNeutral w h : ringNeutral (fire w h).
Proof. intros L f. unfold fire, runCallback. pres ring_side. Qed.

Lemma ringNeutral_tracked {A : Type} (m : M A) s :
  ringNeutral m -> ringTracked s -> ringTracked (snd (m s)).
Proof.
  intros Hneutral Htracked.
  destruct (Hneutral (pending RingStopCallback s) (_ringTimeout (this s)) s) as [Hincl Hfield].
  { split; [ apply incl_refl | reflexivity ]. }
  intros t Hin. rewrite Hfield. apply Htracked. apply Hincl. exact Hin.
Qed.

Lemma ringNeutral_invoke {A : Type} (m : M A) n :
  ringNeutral m -> forall s, ringTracked s -> ringTracked (invoke n m s).
Proof.
  intros Hneutral. induction n as [| n IH]; intros s Htracked; simpl.
  - exact Htracked.
  - apply IH. apply ringNeutral_tracked; assumption.
Qed.

Lemma ringDevice_keeps w v s :
  fst (ringDevice w v s) = Normal tt /\
  this (snd (ringDevice w v s)) = this s /\
  timers (homey (snd (ringDevice w v s))) = timers (homey s) /\
  nextHandle (homey (snd (ringDevice w v s))) = nextHandle (homey s).
Proof. destruct v; exec; repeat split; reflexivity. Qed.

(** Arming: one more 10000 ms timer, nothing cancelled. *)
Lemma ringListener_arms w s :
  pending RingStopCallback (snd (ringListener w true s)) =
    pending RingStopCallback s ++
      [{| t_handle := nextHandle (homey s); t_ms := 10000; t_callback := RingStopCallback;
          t_repeat := false |}] /\
  _ringTimeout (this (snd (ringListener w true s))) = Some (nextHandle (homey s)).
Proof.
  unfold ringListener, bind.
  destruct (ringDevice_keeps w true s) as (Hret & Hthis & Htimers & Hnext).
  destruct (ringDevice w true s) as [[[] | e] s1]; cbn [fst snd] in *; [ | discriminate ].
  unfold setTimeout, emit, assign, hubDo, ret, bind, schedule. cbn.
  unfold pending. cbn. rewrite filter_app, Htimers, Hnext. cbn. auto.
Qed.

Lemma startRingingListener_arms w s :
  match hub_setCapabilityValue w ring (VBool true) with
  | Normal _ =>
      pending RingStopCallback (snd (startRingingListener w s)) =
        pending RingStopCallback s ++
          [{| t_handle := nextHandle (homey s); t_ms := 10000;
              t_callback := RingStopCallback; t_repeat := false |}] /\
      _ringTimeout (this (snd (startRingingListener w s))) = Some (nextHandle (homey s))
  | Throw _ =>
      pending RingStopCallback (snd (startRingingListener w s)) = pending RingStopCallback s /\
      _ringTimeout (this (snd (startRingingListener w s))) = _ringTimeout (this s)
  end.
Proof.
  unfold startRingingListener, bind, log, emit, hubDo. cbn [fst snd].
  set (s0 := {| this := this s; homey := _ |}).
  destruct (ringDevice_keeps w true s0) as (Hret & Hthis & Htimers & Hnext).
  destruct (ringDevice w true s0) as [[[] | e] s1]; cbn [fst snd] in *; [ | discriminate ].
  unfold setCapabilityValue, setTimeout, emit, assign, hubDo, ret, bind, schedule, call.
  destruct (hub_setCapabilityValue w ring (VBool true)); cbn;
    unfold pending; cbn; rewrite ?filter_app, Htimers, ?Hnext, ?Hthis; cbn; auto.
Qed.

(** Stopping: the timer [_ringTimeout] names leaves the queue. *)
Lemma ringListener_stops w s :
  pending RingStopCallback (snd (ringListener w false s)) =
    match _ringTimeout (this s) with
    | Some h => filter (fun t => negb (t_handle t =? h)%nat) (pending RingStopCallback s)
    | None => pending RingStopCallback s
    end /\
  _ringTimeout (this (snd (ringListener w false s))) = None.
Proof.
  unfold ringListener, bind.
  destruct (ringDevice_keeps w false s) as (Hret & Hthis & Htimers & Hnext).
  destruct (ringDevice w false s) as [[[] | e] s1]; cbn [fst snd] in *; [ | discriminate ].
  unfold gets, clearTimeout, cancel, emit, assign, hubDo, ret, bind. cbn.
  rewrite Hthis.
  destruct (_ringTimeout (this s)) as [h |] eqn:Hfield; cbn.
  - unfold pending. cbn. rewrite Htimers. split; [ apply filter_filter_comm | reflexivity ].
  - unfold pending. rewrite Htimers, Hthis. auto.
Qed.

Lemma stopRingingListener_stops w s :
  pending RingStopCallback (snd (stopRingingListener w s)) =
    match _ringTimeout (this s) with
    | Some h => filter (fun t => negb (t_handle t =? h)%nat) (pending RingStopCallback s)
    | None => pending RingStopCallback s
    end /\
  _ringTimeout (this (snd (stopRingingListener w s))) = None.
Proof.
  unfold stopRingingListener, bind, log, emit, hubDo. cbn [fst snd].
  set (s0 := {| this := this s; homey := _ |}).
  destruct (ringDevice_keeps w false s0) as (Hret & Hthis & Htimers & Hnext).
  destruct (ringDevice w false s0) as [[[] | e] s1]; cbn [fst snd] in *; [ | discriminate ].
  unfold gets, clearTimeout, cancel, emit, assign, hubDo, ret, bind, setCapabilityValue, call.
  cbn. rewrite Hthis. subst s0. cbn [this].
  destruct (_ringTimeout (this s)) as [h |] eqn:Hfield; cbn;
    destruct (hub_setCapabilityValue w ring (VBool false)); cbn;
    unfold pending; cbn; rewrite ?Htimers, ?Hthis; cbn;
    (split; [ first [ apply filter_filter_comm | reflexivity ] | auto ]).
Qed.

Lemma stopped_nothing_pending (s : session) (l : list timer) :
  ringTracked s ->
  l = match _ringTimeout (this s) with
      | Some h => filter (fun t => negb (t_handle t =? h)%nat) (pending RingStopCallback s)
      | None => pending RingStopCallback s
      end ->
  l = [].
Proof.
  intros Htracked ->. destruct (_ringTimeout (this s)) as [h |] eqn:Hfield.
  - apply filter_same_key_out. intros t Hin.
    specialize (Htracked t Hin). congruence.
  - destruct (pending RingStopCallback s) as [| t rest] eqn:Hpending; [ reflexivity | ].
    specialize (Htracked t). rewrite Hpending in Htracked.
    specialize (Htracked (or_introl eq_refl)). congruence.
Qed.

Lemma tracked_of_nothing_pending s : pending RingStopCallback s = [] -> ringTracked s.
Proof. intros H t Hin. rewrite H in Hin. destruct Hin. Qed.

Lemma tracked_of_single s t :
  pending RingStopCallback s = [t] -> _ringTimeout (this s) = Some (t_handle t) ->
  ringTracked s.
Proof. intros H Hfield t' Hin. rewrite H in Hin. destruct Hin as [<- | []]. exact Hfield. Qed.

Lemma react_tracked i w s :
  listenersMatchFlags s -> ringTracked s ->
  (arms i = true -> pending RingStopCallback s = []) ->
  ringTracked (react i w s).
Proof.
  intros (Hring & Hstart & Hstop) Htracked Hidle.
  destruct i as [h | p | v | | |]; cbn [react].
  - apply ringNeutral_tracked; [ apply fire_ringNeutral | exact Htracked ].
  - apply ringNeutral_invoke; [ apply onDisconnect_ringNeutral | exact Htracked ].
  - rewrite Hring. destruct (ringListenerRegistered (this s)); cbn [flag invoke];
      [ | exact Htracked ].
    destruct v.
    + destruct (ringListener_arms w s) as [Hpending Hfield].
      rewrite (Hidle eq_refl) in Hpending.
      apply (tracked_of_single _ _ Hpending). exact Hfield.
    + destruct (ringListener_stops w s) as [Hpending _].
      apply tracked_of_nothing_pending.
      apply (stopped_nothing_pending s _ Htracked Hpending).
  - rewrite Hstart. destruct (flowActionsRegistered (this s)); cbn [flag invoke];
      [ | exact Htracked ].
    pose proof (startRingingListener_arms w s) as Harm.
    destruct (hub_setCapabilityValue w ring (VBool true)).
    + destruct Harm as [Hpending Hfield]. rewrite (Hidle eq_refl) in Hpending.
      apply (tracked_of_single _ _ Hpending). exact Hfield.
    + destruct Harm as [Hpending Hfield]. rewrite (Hidle eq_refl) in Hpending.
      apply tracked_of_nothing_pending. exact Hpending.
  - rewrite Hstop. destruct (flowActionsRegistered (this s)); cbn [flag invoke];
      [ | exact Htracked ].
    destruct (stopRingingListener_stops w s) as [Hpending _].
    apply tracked_of_nothing_pending.
    apply (stopped_nothing_pending s _ Htracked Hpending).
  - apply ringNeutral_tracked; [ apply onDeleted_ringNeutral | exact Htracked ].
Qed.

Lemma run_tracked inputs :
  forall s, sound s -> ringTracked s -> armsWhenIdle inputs s ->
            ringTracked (run inputs s).
Proof.
  induction inputs as [| [i w] rest IH]; intros s Hsound Htracked Hidle; simpl.
  - exact Htracked.
  - destruct Hidle as [Hhead Hrest]. apply IH.
    + apply react_sound. exact Hsound.
    + apply react_tracked; [ apply Hsound | exact Htracked | exact Hhead ].
    + exact Hrest.
Qed.

Lemma started_nothing_ringing address stored w :
  pending RingStopCallback (started address stored w) = [].
Proof.
  unfold started.
  destruct (onInit_ringNeutral w [] None (created address stored)) as [Hincl _].
  { split; [ apply incl_refl | reflexivity ]. }
  destruct (pending RingStopCallback _) as [| t rest]; [ reflexivity | ].
  destruct (Hincl t (or_introl eq_refl)).
Qed.

Lemma ringListener_two_steps w value s :
  ringListener w value s =
    (issued <- ringDeviceIssues value ;; ringListenerResumes w value issued) s.
Proof.
  unfold ringListener, ringListenerResumes, ringDeviceSettles, ringDeviceIssues, ringDevice,
    ringListenerAfter, settle, logError, log, emit.
  unfold_monad.
  destruct value; cbn; destruct (alertChar (this s)) as [ch |]; reflexivity.
Qed.

Lemma tracked_at_most_one s :
  scheduled s -> ringTracked s -> (List.length (pending RingStopCallback s) <= 1)%nat.
Proof.
  intros (_ & Hnodup & _) Htracked.
  destruct (pending RingStopCallback s) as [| t0 rest] eqn:Hpending; [ simpl; lia | ].
  rewrite <- Hpending.
  apply (same_key_at_most_one t_handle _ (t_handle t0)).
  - unfold pending. apply NoDup_map_filter. exact Hnodup.
  - intros t Hin.
    pose proof (Htracked t Hin) as H1.
    assert (Hin0 : In t0 (pending RingStopCallback s)) by (rewrite Hpending; left; reflexivity).
    pose proof (Htracked t0 Hin0) as H0. congruence.
Qed.

(** C5 (as the code has it): arming a ring-stop timer, by the listener of
    [ring] or by the start action once the hub has accepted its write of
    [ring], adds a one-shot 10000 ms timer and records its handle,
    cancelling nothing; the start action arms nothing when the hub rejects
    that write.  A stop path cancels the timer [_ringTimeout] names and
    clears the field.  So along every run in which every handler runs to
    completion before the next input is taken, and in which ringing is only
    started while no ring-stop timer is pending, at most one is pending,
    and after either stop path none is.  The listener of [ring] is its two
    steps, before and after the write it awaits, run one after the
    other. *)
Theorem ring_timer_single_when_armed_idle
  (address : option string) (stored : capability -> option capval) (w0 : world)
  (inputs : list (input * world)) :
  armsWhenIdle inputs (started address stored w0) ->
  let s := run inputs (started address stored w0) in
  (List.length (pending RingStopCallback s) <= 1)%nat /\
  Forall (fun t => t_ms t = 10000 /\ t_repeat t = false) (pending RingStopCallback s) /\
  (forall w, pending RingStopCallback (snd (ringListener w false s)) = [] /\
             pending RingStopCallback (snd (stopRingingListener w s)) = []) /\
  (forall w s1,
     pending RingStopCallback (snd (ringListener w true s1)) =
       pending RingStopCallback s1 ++
         [{| t_handle := nextHandle (homey s1); t_ms := 10000;
             t_callback := RingStopCallback; t_repeat := false |}] /\
     _ringTimeout (this (snd (ringListener w true s1))) = Some (nextHandle (homey s1))) /\
  (forall w s1,
     match hub_setCapabilityValue w ring (VBool true) with
     | Normal _ =>
         pending RingStopCallback (snd (startRingingListener w s1)) =
           pending RingStopCallback s1 ++
             [{| t_handle := nextHandle (homey s1); t_ms := 10000;
                 t_callback := RingStopCallback; t_repeat := false |}] /\
         _ringTimeout (this (snd (startRingingListener w s1))) = Some (nextHandle (homey s1))
     | Throw _ =>
         pending RingStopCallback (snd (startRingingListener w s1)) =
           pending RingStopCallback s1 /\
         _ringTimeout (this (snd (startRingingListener w s1))) = _ringTimeout (this s1)
     end) /\
  (forall w value s1,
     ringListener w value s1 =
       (issued <- ringDeviceIssues value ;; ringListenerResumes w value issued) s1) /\
  (forall w s1,
     pending RingStopCallback (snd (ringListener w false s1)) =
       without (held (_ringTimeout (this s1))) (pending RingStopCallback s1) /\
     pending RingStopCallback (snd (stopRingingListener w s1)) =
       without (held (_ringTimeout (this s1))) (pending RingStopCallback s1) /\
     _ringTimeout (this (snd (ringListener w false s1))) = None /\
     _ringTimeout (this (snd (stopRingingListener w s1))) = None).
Proof.
  intros Hidle s.
  pose proof (running_sound address stored w0 inputs) as Hsound. fold s in Hsound.
  assert (Htracked : ringTracked s).
  { apply run_tracked.
    - apply started_sound.
    - apply tracked_of_nothing_pending. apply started_nothing_ringing.
    - exact Hidle. }
  destruct Hsound as (Hsched & _ & _).
  split; [ apply tracked_at_most_one; assumption | ].
  split.
  { destruct Hsched as (_ & _ & Hshaped & _).
    apply Forall_forall. intros t Hin. unfold pending in Hin.
    apply filter_In in Hin. destruct Hin as [Hin Hcb].
    rewrite Forall_forall in Hshaped. specialize (Hshaped t Hin). unfold shaped in Hshaped.
    destruct (t_callback t); try discriminate. exact Hshaped. }
  split.
  { intros w. split.
    - destruct (ringListener_stops w s) as [Hpending _].
      apply (stopped_nothing_pending s _ Htracked Hpending).
    - destruct (stopRingingListener_stops w s) as [Hpending _].
      apply (stopped_nothing_pending s _ Htracked Hpending). }
  split.
  { intros w s1. apply ringListener_arms. }
  split.
  { intros w s1. apply startRingingListener_arms. }
  split.
  { intros w value s1. apply ringListener_two_steps. }
  intros w s1.
  destruct (ringListener_stops w s1) as [H1 H2].
  destruct (stopRingingListener_stops w s1) as [H3 H4].
  rewrite H1, H3. destruct (_ringTimeout (this s1)); auto.
Qed.

Lemma ring_timer_single_on_a_run :
  let inputs := [(RingSet true, cooperative); (TimerFires 1%nat, cooperative);
                 (StartRinging, cooperative); (StopRinging, cooperative);
                 (RingSet true, cooperative)] in
  (List.length
     (pending RingStopCallback (run inputs (started (Some tagAddress) unset cooperative)))
   <= 1)%nat.
Proof.
  intros inputs.
  apply (ring_timer_single_when_armed_idle (Some tagAddress) unset cooperative inputs).
  vm_compute. repeat split; intros H; first [ reflexivity | discriminate H ].
Defined.

Lemma ring_timers_stack_when_rearmed :
  pending RingStopCallback connected = [] /\
  pending RingStopCallback
    (snd ((first <- ringDeviceIssues true ;; ringDeviceIssues true) connected)) = [] /\
  List.length
    (pending RingStopCallback (snd (overlappingRings cooperative cooperative connected))) =
    2%nat /\
  List.length
    (pending RingStopCallback
       (run [(RingSet true, cooperative); (RingSet true, cooperative)] connected)) = 2%nat /\
  List.length
    (pending RingStopCallback
       (run [(RingSet true, cooperative); (StartRinging, cooperative);
             (StopRinging, cooperative)] connected)) = 1%nat /\
  List.length
    (pending RingStopCallback
       (run [(StartRinging, cooperative); (RingSet true, cooperative);
             (RingSet false, cooperative)] connected)) = 1%nat.
Proof. repeat split; vm_compute; reflexivity. Qed.

(** ** Teardown *)

Lemma ringTimeout_never_set address stored w inputs :
  ringTimeout (this (run inputs (started address stored w))) = None.
Proof. destruct (running_sound address stored w inputs) as ((_ & _ & _ & H) & _). exact H. Qed.

Lemma onDeleted_spec w s :
  ringTimeout (this s) = None ->
  exists delta,
    fst (onDeleted w s) = Normal tt /\
    trace (homey (snd (onDeleted w s))) = trace (homey s) ++ delta /\
    clearsOf delta = held (rssiInterval (this s)) ++ held (reconnectTimeout (this s)) /\
    timers (homey (snd (onDeleted w s))) =
      without (held (rssiInterval (this s)) ++ held (reconnectTimeout (this s)))
        (timers (homey s)) /\
    match peripheral (this s) with
    | Some p =>
        In (UnregisterPeripheral p) delta /\ In (PeripheralDisconnect p) delta /\
        ~ In p (registry (homey (snd (onDeleted w s))))
    | None => registry (homey (snd (onDeleted w s))) = registry (homey s)
    end.
Proof.
  destruct s as [[was per alert rl fl ri rt _rt unsetField] hb]. cbn [this ringTimeout].
  intros ->. unfold onDeleted. unfold_methods. unfold_monad.
  destruct ri as [i |], rt as [r |], per as [p |]; cbn;
    try (destruct (peripheral_disconnect w p) as [[] | e]; cbn);
    eexists; (split; [ reflexivity | ]);
    (split; [ repeat rewrite <- app_assoc; cbn; reflexivity | ]);
    (split; [ reflexivity | ]); (split; [ reflexivity | ]);
    try reflexivity;
    (split; [ cbn; auto 10 | ]); (split; [ cbn; auto 10 | ]);
    intros Hin; apply filter_In in Hin; destruct Hin as [_ Hne];
    rewrite Nat.eqb_refl in Hne; discriminate.
Qed.

(** In every state a session reaches, teardown returns normally and clears
    the RSSI interval and the reconnect timer by their handles, and no other
    handle. *)
Lemma teardown_clears_two_fields address stored w0 inputs w :
  let s := run inputs (started address stored w0) in
  exists delta,
    fst (onDeleted w s) = Normal tt /\
    trace (homey (snd (onDeleted w s))) = trace (homey s) ++ delta /\
    clearsOf delta = held (rssiInterval (this s)) ++ held (reconnectTimeout (this s)).
Proof.
  intros s.
  destruct (onDeleted_spec w s (ringTimeout_never_set address stored w0 inputs))
    as (delta & Hret & Htrace & Hclears & _).
  exists delta. auto.
Qed.

(** C6 (what the code does on the input that breaks the claim): a session
    that is connected and ringing holds its ring-stop timer in
    [_ringTimeout]; [onDeleted] reads [ringTimeout], which no method ever
    sets, so the ring-stop timer is still pending after teardown, while the
    RSSI interval is cancelled and the link is unregistered and asked to
    disconnect. *)
Theorem teardown_leaves_ring_timer_pending :
  let s := run [(RingSet true, cooperative)] connected in
  let s' := react DeviceDeleted cooperative s in
  pending RingStopCallback s = [firstRingTimer] /\
  _ringTimeout (this s) = Some 1%nat /\
  ringTimeout (this s) = None /\
  pending RingStopCallback s' = [firstRingTimer] /\
  pending RssiPollCallback s' = [] /\
  pending ReconnectCallback s' = [] /\
  registry (homey s') = [] /\
  clearsOf (trace (homey s')) = [0%nat].
Proof. repeat split; vm_compute; reflexivity. Qed.

(** * Further properties of the code *)

(** ** Identifiers and payloads *)

Lemma lowerAscii_spec c :
  isColon (lowerAscii c) = isColon c /\
  isUpper (lowerAscii c) = false /\
  lowerAscii (lowerAscii c) = lowerAscii c.
Proof.
  destruct c as [[] [] [] [] [] [] [] []]; vm_compute; auto.
Qed.

Lemma removeColons_toLowerCase s :
  removeColons (toLowerCase s) = toLowerCase (removeColons s).
Proof.
  induction s as [| c s IH]; simpl.
  - reflexivity.
  - destruct (lowerAscii_spec c) as (Hcolon & _ & _). unfold isColon in Hcolon.
    rewrite Hcolon. destruct (Ascii.eqb c ":"); simpl; rewrite IH; reflexivity.
Qed.

Lemma removeColons_idempotent s : removeColons (removeColons s) = removeColons s.
Proof.
  induction s as [| c s IH]; simpl.
  - reflexivity.
  - destruct (Ascii.eqb c ":") eqn:Hc; simpl; rewrite ?Hc, IH; reflexivity.
Qed.

Lemma toLowerCase_idempotent s : toLowerCase (toLowerCase s) = toLowerCase s.
Proof.
  induction s as [| c s IH]; simpl.
  - reflexivity.
  - destruct (lowerAscii_spec c) as (_ & _ & ->). rewrite IH. reflexivity.
Qed.

Lemma removeColons_clean s : allChars (fun c => negb (isColon c)) (removeColons s) = true.
Proof.
  induction s as [| c s IH]; simpl.
  - reflexivity.
  - destruct (Ascii.eqb c ":") eqn:Hc; simpl; [ exact IH | ].
    rewrite IH. unfold isColon. rewrite Hc. reflexivity.
Qed.

Lemma toLowerCase_clean s :
  allChars (fun c => negb (isColon c)) s = true ->
  allChars (fun c => negb (isColon c) && negb (isUpper c)) (toLowerCase s) = true.
Proof.
  induction s as [| c s IH]; simpl.
  - reflexivity.
  - intros H. apply andb_true_iff in H. destruct H as [Hc Hs].
    destruct (lowerAscii_spec c) as (-> & -> & _). rewrite Hc, (IH Hs). reflexivity.
Qed.

Lemma connectionId_ascii s :
  allChars isAsciiChar s = true -> allChars isAsciiChar (toLowerCase (removeColons s)) = true.
Proof.
  induction s as [| c s IH]; simpl.
  - reflexivity.
  - intros H. apply andb_true_iff in H. destruct H as [Hc Hs].
    destruct (Ascii.eqb c ":"); simpl; [ exact (IH Hs) | ].
    rewrite (IH Hs), andb_true_r.
    revert Hc. clear. destruct c as [[] [] [] [] [] [] [] []]; vm_compute; auto.
Qed.

(** X1: the connection identifier derived from a stored address made of
    ASCII characters (a MAC address is) is made of ASCII characters and
    holds no colon and no upper-case letter; deriving is idempotent and does
    not depend on the case or on the colons of the address, and the
    identifier is not longer than the address. *)
Theorem connectionId_normal_form (address : string) :
  allChars isAsciiChar address = true ->
  allChars isAsciiChar (connectionId address) = true /\
  allChars (fun c => negb (isColon c) && negb (isUpper c)) (connectionId address) = true /\
  connectionId (connectionId address) = connectionId address /\
  connectionId (toLowerCase address) = connectionId address /\
  connectionId (removeColons address) = connectionId address /\
  (String.length (connectionId address) <= String.length address)%nat.
Proof.
  intros Hascii. unfold connectionId.
  split; [ apply connectionId_ascii; exact Hascii | ].
  repeat split.
  - apply toLowerCase_clean. apply removeColons_clean.
  - rewrite removeColons_toLowerCase, removeColons_idempotent, toLowerCase_idempotent.
    reflexivity.
  - rewrite removeColons_toLowerCase, toLowerCase_idempotent. reflexivity.
  - rewrite removeColons_idempotent. reflexivity.
  - clear Hascii. induction address as [| c s IH]; simpl; [ lia | ].
    destruct (Ascii.eqb c ":"); simpl; lia.
Qed.

Lemma connectionId_of_the_tag_address :
  connectionId tagAddress = "ffff102a3b4c" /\
  connectionId (connectionId tagAddress) = connectionId tagAddress.
Proof.
  destruct (connectionId_normal_form tagAddress) as (_ & _ & Hidem & _).
  - vm_compute. reflexivity.
  - split; [ vm_compute; reflexivity | exact Hidem ].
Defined.

Lemma hexByte_decodes b :
  exists hi lo,
    hexByte b = String hi (String lo EmptyString) /\
    isHexDigit hi = true /\ isHexDigit lo = true /\
    fromHex (String hi (String lo EmptyString)) = Some [b].
Proof.
  destruct b; eexists; eexists; (split; [ reflexivity | ]); vm_compute; auto.
Qed.

Lemma fromHex_cons hi lo rest b buf :
  fromHex (String hi (String lo EmptyString)) = Some [b] ->
  fromHex rest = Some buf ->
  fromHex (String hi (String lo rest)) = Some (b :: buf).
Proof.
  cbn [fromHex]. intros H ->.
  destruct (hexValue hi) as [h |]; [ | discriminate ].
  destruct (hexValue lo) as [l |]; [ | discriminate ].
  destruct (Byte.of_N (16 * h + l)) as [b' |]; [ | discriminate ].
  injection H as ->. reflexivity.
Qed.

Lemma toHex_roundtrip buf : fromHex (toHex buf) = Some buf.
Proof.
  induction buf as [| b buf IH]; cbn [toHex].
  - reflexivity.
  - destruct (hexByte_decodes b) as (hi & lo & -> & _ & _ & Hb).
    cbn [append]. apply fromHex_cons; assumption.
Qed.

(** X2: the hexadecimal form of a manufacturer payload has two characters
    per byte, all of them digits or the letters a to f, and it loses
    nothing: decoding it gives the payload back, so two payloads with the
    same form are equal. *)
Theorem toHex_faithful (buf : list byte) :
  String.length (toHex buf) = (2 * List.length buf)%nat /\
  allChars isHexDigit (toHex buf) = true /\
  fromHex (toHex buf) = Some buf /\
  (forall other, toHex other = toHex buf -> other = buf).
Proof.
  split; [ apply toHex_length | ].
  split.
  - induction buf as [| b buf IH]; cbn [toHex]; [ reflexivity | ].
    destruct (hexByte_decodes b) as (hi & lo & -> & Hhi & Hlo & _).
    cbn [append allChars]. rewrite Hhi, Hlo, IH. reflexivity.
  - split; [ apply toHex_roundtrip | ].
    intros other Heq. pose proof (toHex_roundtrip other) as Hother.
    rewrite Heq, toHex_roundtrip in Hother. congruence.
Qed.

Lemma toHex_distinguishes :
  toHex [x05; x01; xab] = "0501ab"%string /\
  forall other, toHex other = "0501ab"%string -> other = [x05; x01; xab].
Proof.
  destruct (toHex_faithful [x05; x01; xab]) as (_ & _ & _ & Hinj).
  split; [ reflexivity | exact Hinj ].
Defined.

(** ** Signal strength *)


Lemma rssiPoll_frame w s :
  fst (rssiPoll w s) = Normal tt /\
  this (snd (rssiPoll w s)) = this s /\
  skeleton (homey (snd (rssiPoll w s))) = skeleton (homey s) /\
  capabilities (homey (snd (rssiPoll w s))) ring = capabilities (homey s) ring /\
  alarm (snd (rssiPoll w s)) = alarm s.
Proof.
  unfold alarm, skeleton. exec; repeat split; reflexivity.
Qed.

Lemma rssiPoll_connected w s p :
  peripheral (this s) = Some p ->
  rssiPoll w s =
    try_catch (rssi <- call (UpdateRssi p) (updateRssi w p) ;; updateRSSI w rssi)
      (fun error => logError "Error updating RSSI:" error) s.
Proof. intros Hp. unfold rssiPoll, try_catch, bind, gets. cbn. rewrite Hp. reflexivity. Qed.

Lemma rssiPoll_disconnected w s a :
  peripheral (this s) = None -> storeAddress (homey s) = Some a ->
  rssiPoll w s =
    try_catch
      (advertisements <- call BleDiscover (ble_discover w) ;;
       match find (fun ad => String.eqb (ad_uuid ad) (connectionId a)) advertisements with
       | Some ad =>
           match ad_rssi ad with
           | Some r => updateRSSI w (Some r)
           | None => log "Device not found in BLE scan - may be out of range"
           end
       | None => log "Device not found in BLE scan - may be out of range"
       end)
      (fun error => logError "Error updating RSSI:" error) s.
Proof.
  intros Hp Ha.
  unfold rssiPoll, storedConnectionId, try_catch, bind, gets, hubGets, ret. cbn.
  rewrite Hp, Ha. reflexivity.
Qed.

Lemma find_absent {A : Type} (f : A -> bool) (l : list A) :
  (forall x, In x l -> f x = false) -> find f l = None.
Proof.
  induction l as [| x l IH]; intros H; simpl.
  - reflexivity.
  - rewrite (H x (or_introl eq_refl)). apply IH. intros y Hy. apply H. right. exact Hy.
Qed.

(** X4: the RSSI poll never throws and touches nothing but the stored
    signal strength and the trace.  While a link is held it asks that link
    and never scans; the store then holds the link's answer when the hub
    accepts it.  Without a link it never asks a link; it scans at most once,
    and when no advertisement of the scan carries the session's connection
    identifier the stored value stays and no error is logged. *)
Theorem rssiPoll_contract (w : world) (s : session) :
  let s' := snd (rssiPoll w s) in
  fst (rssiPoll w s) = Normal tt /\
  this s' = this s /\
  skeleton (homey s') = skeleton (homey s) /\
  capabilities (homey s') ring = capabilities (homey s) ring /\
  alarm s' = alarm s /\
  match peripheral (this s) with
  | Some p =>
      occurrences isDiscover s' = occurrences isDiscover s /\
      occurrences isUpdateRssi s' = S (occurrences isUpdateRssi s) /\
      (forall r, updateRssi w p = Normal (Some r) ->
                 hub_setCapabilityValue w measure_signal_strength (VNum r) = Normal tt ->
                 signal s' = Some (VNum r))
  | None =>
      occurrences isUpdateRssi s' = occurrences isUpdateRssi s /\
      (occurrences isDiscover s' <= S (occurrences isDiscover s))%nat /\
      (forall a advertisements,
         storeAddress (homey s) = Some a ->
         ble_discover w = Normal advertisements ->
         (forall ad, In ad advertisements -> ad_uuid ad <> connectionId a) ->
         signal s' = signal s /\ occurrences isErrorLog s' = occurrences isErrorLog s) /\
      (forall a advertisements ad r,
         storeAddress (homey s) = Some a ->
         ble_discover w = Normal advertisements ->
         find (fun ad => String.eqb (ad_uuid ad) (connectionId a)) advertisements = Some ad ->
         ad_rssi ad = Some r ->
         hub_setCapabilityValue w measure_signal_strength (VNum r) = Normal tt ->
         signal s' = Some (VNum r))
  end.
Proof.
  intros s'. destruct (rssiPoll_frame w s) as (Hret & Hthis & Hskel & Hring & Halarm).
  repeat (split; [ assumption | ]). subst s'.
  destruct (peripheral (this s)) as [p |] eqn:Hp.
  - rewrite (rssiPoll_connected w s p Hp). split; [ | split ].
    + exec; count_trace.
    + exec; count_trace.
    + intros r Hlink Hhub. unfold signal. unfold_methods. unfold_monad.
      rewrite Hlink. cbn. rewrite Hhub. reflexivity.
  - split; [ | split; [ | split ] ].
    + unfold rssiPoll, try_catch, bind, gets. cbn. rewrite Hp. exec; count_trace.
    + unfold rssiPoll, try_catch, bind, gets. cbn. rewrite Hp. exec; count_trace.
    + intros a advertisements Ha Hscan Hnone.
      rewrite (rssiPoll_disconnected w s a Hp Ha).
      unfold signal. unfold_methods. unfold_monad. rewrite Hscan. cbn.
      rewrite find_absent.
      * cbn. split; [ reflexivity | count_trace ].
      * intros ad Hin. apply String.eqb_neq. apply Hnone. exact Hin.
    + intros a advertisements ad r Ha Hscan Hfind Hr Hhub.
      rewrite (rssiPoll_disconnected w s a Hp Ha).
      unfold signal. unfold_methods. unfold_monad. rewrite Hscan. cbn.
      rewrite Hfind, Hr. cbn. rewrite Hhub. reflexivity.
Qed.

Lemma rssiPoll_on_scans :
  let waiting := started (Some tagAddress) unset outOfRange in
  signal (snd (rssiPoll outOfRange waiting)) = signal waiting /\
  signal (snd (rssiPoll cooperative waiting)) = Some (VNum (-60)) /\
  signal (snd (rssiPoll cooperative connected)) = Some (VNum (-58)).
Proof.
  intros waiting.
  destruct (rssiPoll_contract outOfRange waiting) as (_ & _ & _ & _ & _ & Hout).
  destruct (rssiPoll_contract cooperative waiting) as (_ & _ & _ & _ & _ & Hin).
  destruct (rssiPoll_contract cooperative connected) as (_ & _ & _ & _ & _ & Hlink).
  assert (Hwaiting : peripheral (this waiting) = None) by (vm_compute; reflexivity).
  assert (Hconnected : peripheral (this connected) = Some 1%nat) by (vm_compute; reflexivity).
  rewrite Hwaiting in Hout, Hin. rewrite Hconnected in Hlink.
  destruct Hout as (_ & _ & Hmiss & _). destruct Hin as (_ & _ & _ & Hhit).
  destruct Hlink as (_ & _ & Hlive).
  split; [ | split ].
  - apply (Hmiss tagAddress []); [ vm_compute; reflexivity | reflexivity | ].
    intros ad [].
  - apply (Hhit tagAddress [itag] itag (-60));
      first [ reflexivity | vm_compute; reflexivity ].
  - apply (Hlive (-58)); reflexivity.
Defined.

(** ** More on a connect attempt *)

Lemma bind_establish {A B : Type} (P Q : session -> Prop) (m : M A) (k : A -> M B) :
  (forall s, P s -> Q (snd (m s))) ->
  (forall a, preserves Q (k a)) ->
  forall s, P s -> Q (snd (bind m k s)).
Proof.
  intros Hm Hk s Hs. unfold bind. specialize (Hm s Hs).
  destruct (m s) as [[a | e] s1]; cbn [snd] in *.
  - apply Hk. exact Hm.
  - exact Hm.
Qed.

Lemma establishLink_found w s a ad :
  storeAddress (homey s) = Some a ->
  ble_find w (connectionId a) = Normal ad ->
  establishLink w s =
    (updateRSSI w (ad_rssi ad) ;;
     log "Connecting to iTAG device..." ;;
     peripheral <- call (AdConnect (connectionId a)) (ad_connect ad) ;;
     log "Connected successfully" ;;
     setCapabilityValue w alarm_disconnected (VBool false) ;;
     ret peripheral)
      {| this := this s;
         homey := set_trace ((trace (homey s) ++ [Log "Finding iTAG device..."]) ++
                             [BleFind (connectionId a)]) (homey s) |}.
Proof.
  intros Ha Hfind.
  unfold establishLink, storedConnectionId, bind at 1 2 3, hubGets, ret, log, emit, hubDo, call.
  cbn. rewrite Ha. cbn. rewrite Hfind. reflexivity.
Qed.

Lemma afterLink_keeps_signal w p s :
  signal (snd ((notifyReconnected w ;; bindCharacteristics w p ;; holdLink p) s)) = signal s.
Proof. revert s. frame signal. Qed.

Lemma attemptFailed_keeps_signal w e s : signal (snd (attemptFailed w e s)) = signal s.
Proof. revert s. frame signal. Qed.

(** X5: a connect attempt records the RSSI of the advertisement it finds
    before it asks for the link: when [find] resolves with a value and the
    hub accepts it, the stored signal strength is that value after
    [connectToDevice], whether the attempt then succeeds or fails. *)
Theorem connect_records_advertised_rssi
  (w : world) (s : session) (a : string) (ad : advertisement) (r : Z) :
  storeAddress (homey s) = Some a ->
  ble_find w (connectionId a) = Normal ad ->
  ad_rssi ad = Some r ->
  hub_setCapabilityValue w measure_signal_strength (VNum r) = Normal tt ->
  signal (snd (connectToDevice w s)) = Some (VNum r).
Proof.
  intros Ha Hfind Hr Hhub.
  assert (Hlink : signal (snd (establishLink w s)) = Some (VNum r)).
  { rewrite (establishLink_found w s a ad Ha Hfind), Hr.
    unfold signal. unfold_methods. unfold_monad. cbn. rewrite Hhub. cbn.
    destruct (ad_connect ad) as [p |]; cbn; [ | reflexivity ].
    destruct (hub_setCapabilityValue w alarm_disconnected (VBool false)); reflexivity. }
  unfold connectToDevice, try_catch. rewrite attempt_split.
  destruct (establishLink w s) as [[p | e] s1]; cbn [fst snd] in *.
  - pose proof (afterLink_keeps_signal w p s1) as Hafter.
    destruct ((notifyReconnected w ;; bindCharacteristics w p ;; holdLink p) s1)
      as [[[] | e] s2]; cbn [snd] in *.
    + congruence.
    + rewrite attemptFailed_keeps_signal. congruence.
  - rewrite attemptFailed_keeps_signal. exact Hlink.
Qed.

Lemma connect_records_advertised_rssi_on_failure :
  signal (snd (connectToDevice serviceAbsent (created (Some tagAddress) unset))) =
    Some (VNum (-60)).
Proof.
  apply (connect_records_advertised_rssi serviceAbsent _ tagAddress itag (-60));
    first [ reflexivity | vm_compute; reflexivity ].
Defined.

(** X6: the write that clears the alarm (line 71) is not guarded: when the
    link has come up and the hub rejects that write, the attempt throws the
    hub's reason, and the link is neither stored nor registered nor
    observed.  When the reason is an object the catch block asks for the
    alarm and schedules a reconnect; when it is [undefined] or [null] the
    catch block throws, the alarm stays and nothing is scheduled. *)
Theorem rejected_alarm_clear_aborts_attempt
  (w : world) (s : session) (a : string) (ad : advertisement) (p : link) (e : error) :
  storeAddress (homey s) = Some a ->
  ble_find w (connectionId a) = Normal ad ->
  ad_connect ad = Normal p ->
  hub_setCapabilityValue w alarm_disconnected (VBool false) = Throw e ->
  let s' := snd (connectToDevice w s) in
  fst (attempt w s) = Throw e /\
  occurrences isConnect s' = S (occurrences isConnect s) /\
  peripheral (this s') = peripheral (this s) /\
  registry (homey s') = registry (homey s) /\
  disconnectObservers (homey s') = disconnectObservers (homey s) /\
  match unreadable "message" e with
  | None =>
      fst (connectToDevice w s) = Normal tt /\
      alarm s' =
        match hub_setCapabilityValue w alarm_disconnected (VBool true) with
        | Normal _ => Some (VBool true)
        | Throw _ => alarm s
        end /\
      pending ReconnectCallback s' =
        pending ReconnectCallback s ++
          [{| t_handle := nextHandle (homey s); t_ms := 7000;
              t_callback := ReconnectCallback; t_repeat := false |}]
  | Some typeError =>
      fst (connectToDevice w s) = Throw typeError /\
      alarm s' = alarm s /\
      pending ReconnectCallback s' = pending ReconnectCallback s
  end.
Proof.
  intros Ha Hfind Hconnect Hhub s'. subst s'.
  assert (Hlink : exists s1,
            establishLink w s = (Throw e, s1) /\
            this s1 = this s /\ registry (homey s1) = registry (homey s) /\
            disconnectObservers (homey s1) = disconnectObservers (homey s) /\
            timers (homey s1) = timers (homey s) /\
            nextHandle (homey s1) = nextHandle (homey s) /\
            alarm s1 = alarm s /\
            occurrences isConnect s1 = S (occurrences isConnect s)).
  { rewrite (establishLink_found w s a ad Ha Hfind).
    unfold alarm, updateRSSI, setCapabilityValue, logError, log, emit. unfold_monad.
    destruct (ad_rssi ad) as [r |]; cbn;
      try destruct (hub_setCapabilityValue w measure_signal_strength (VNum r)); cbn;
      rewrite Hconnect; cbn; rewrite Hhub; cbn;
      eexists; (split; [ reflexivity | ]); repeat split; count_trace. }
  destruct Hlink as (s1 & Hrun & Hthis & Hreg & Hobs & Htimers & Hnext & Halarm & Hcalls).
  assert (Hthrow : attempt w s = (Throw e, s1)).
  { rewrite attempt_split, Hrun. reflexivity. }
  pose proof (connectToDevice_result w s) as Hres.
  unfold connectToDevice, try_catch in *. rewrite Hthrow in *. cbn [fst snd] in *.
  assert (Hreg' : registry (homey (snd (attemptFailed w e s1))) = registry (homey s1)).
  { generalize s1. frame (fun s => registry (homey s)). }
  assert (Hper : peripheral (this (snd (attemptFailed w e s1))) = peripheral (this s1)).
  { generalize s1. frame (fun s => peripheral (this s)). }
  assert (Hobs' : disconnectObservers (homey (snd (attemptFailed w e s1))) =
                  disconnectObservers (homey s1)).
  { generalize s1. frame (fun s => disconnectObservers (homey s)). }
  assert (Hcalls' : occurrences isConnect (snd (attemptFailed w e s1)) =
                    occurrences isConnect s1).
  { generalize s1. frame (occurrences isConnect). }
  split; [ reflexivity | ].
  rewrite Hcalls', Hcalls, Hper, Hthis, Hreg', Hreg, Hobs', Hobs.
  repeat (split; [ reflexivity | ]).
  destruct (unreadable "message" e) as [typeError |] eqn:Hread.
  - rewrite attemptFailed_stops by (rewrite Hread; discriminate).
    split; [ exact Hres | ]. split; [ exact Halarm | ].
    unfold pending. cbn. rewrite Htimers. reflexivity.
  - destruct (attemptFailed_spec w e s1 Hread) as (_ & _ & _ & Hqueue & _ & Halarm' & _).
    split; [ exact Hres | ]. rewrite Halarm', Halarm.
    unfold pending. rewrite Hqueue, Htimers, Hnext, filter_app. cbn. auto.
Qed.

Lemma rejected_alarm_clear_on_rejecting_hub :
  let s := created (Some tagAddress) unset in
  fst (attempt hubRejects s) = Throw (Error "Capability write rejected") /\
  connectionPhase (snd (connectToDevice hubRejects s)) = Disconnected /\
  occurrences isConnect (snd (connectToDevice hubRejects s)) = 1%nat /\
  List.length (pending ReconnectCallback (snd (connectToDevice hubRejects s))) = 1%nat.
Proof.
  intros s.
  destruct (rejected_alarm_clear_aborts_attempt hubRejects s tagAddress itag 1%nat
              (Error "Capability write rejected"))
    as (Hthrow & Hcalls & Hlink & _ & _ & _ & _ & Hpending);
    try (vm_compute; reflexivity).
  split; [ exact Hthrow | ].
  split; [ unfold connectionPhase; rewrite Hlink; reflexivity | ].
  split; [ rewrite Hcalls; reflexivity | ].
  rewrite Hpending. reflexivity.
Defined.

Lemma connectToDevice_keeps_links_calls w s :
  occurrences isUnregister (snd (connectToDevice w s)) = occurrences isUnregister s /\
  occurrences isPeripheralDisconnect (snd (connectToDevice w s)) =
    occurrences isPeripheralDisconnect s.
Proof.
  split.
  - revert s. frame (occurrences isUnregister).
  - revert s. frame (occurrences isPeripheralDisconnect).
Qed.

Ltac registry_side :=
  intros ? ?; first [ assumption | cbn; right; assumption ].

Lemma connectToDevice_keeps_registered w q :
  preserves (fun s => In q (registry (homey s))) (connectToDevice w).
Proof. pres registry_side. Qed.

Lemma bind_step {A B : Type} (m : M A) (k : A -> M B) s a s1 :
  m s = (Normal a, s1) -> bind m k s = k a s1.
Proof. intros H. unfold bind. rewrite H. reflexivity. Qed.

Lemma bindCharacteristics_registers w p s :
  In p (registry (homey (snd (bindCharacteristics w p s)))).
Proof.
  unfold bindCharacteristics.
  erewrite bind_step by (unfold log, emit, hubDo; reflexivity).
  erewrite bind_step by (unfold registerPeripheral, log, emit, hubDo, bind; reflexivity).
  lazymatch goal with
  | |- In _ (registry (homey (snd (?m ?s0)))) =>
      cut (preserves (fun s => In p (registry (homey s))) m);
      [ intros Hkeep; apply Hkeep; cbn; left; reflexivity | pres registry_side ]
  end.
Qed.

Lemma holdLink_keeps_registered p q :
  preserves (fun s => In q (registry (homey s))) (holdLink p).
Proof. pres registry_side. Qed.

Lemma attemptFailed_keeps_registered w e q :
  preserves (fun s => In q (registry (homey s))) (attemptFailed w e).
Proof. pres registry_side. Qed.

Lemma establishLink_up w s a ad p :
  storeAddress (homey s) = Some a ->
  ble_find w (connectionId a) = Normal ad ->
  ad_connect ad = Normal p ->
  hub_setCapabilityValue w alarm_disconnected (VBool false) = Normal tt ->
  exists s1, establishLink w s = (Normal p, s1).
Proof.
  intros Ha Hfind Hconnect Hhub.
  rewrite (establishLink_found w s a ad Ha Hfind).
  unfold updateRSSI, setCapabilityValue, logError, log, emit. unfold_monad.
  destruct (ad_rssi ad) as [r |]; cbn;
    try destruct (hub_setCapabilityValue w measure_signal_strength (VNum r)); cbn;
    rewrite Hconnect; cbn; rewrite Hhub; cbn; eexists; reflexivity.
Qed.

(** X7: [connectToDevice] never unregisters a link and never asks one to
    disconnect, and every link in the registry stays there.  In particular a
    link that has come up is registered when [connectToDevice] returns, also
    when the attempt failed after the registration (a service or a
    characteristic missing, a rejected write): the failure path does not
    release it. *)
Theorem connectToDevice_never_releases_a_link (w : world) (s : session) :
  let s' := snd (connectToDevice w s) in
  occurrences isUnregister s' = occurrences isUnregister s /\
  occurrences isPeripheralDisconnect s' = occurrences isPeripheralDisconnect s /\
  (forall q, In q (registry (homey s)) -> In q (registry (homey s'))) /\
  (forall a ad p,
     storeAddress (homey s) = Some a ->
     ble_find w (connectionId a) = Normal ad ->
     ad_connect ad = Normal p ->
     hub_setCapabilityValue w alarm_disconnected (VBool false) = Normal tt ->
     In p (registry (homey s'))).
Proof.
  intros s'. subst s'.
  destruct (connectToDevice_keeps_links_calls w s) as [Hunreg Hdisc].
  split; [ exact Hunreg | ]. split; [ exact Hdisc | ].
  split; [ intros q Hq; apply connectToDevice_keeps_registered; exact Hq | ].
  intros a ad p Ha Hfind Hconnect Hhub.
  destruct (establishLink_up w s a ad p Ha Hfind Hconnect Hhub) as [s1 Hlink].
  unfold connectToDevice, try_catch. rewrite attempt_phases, Hlink.
  destruct (notifyReconnected_spec w s1) as (Hret & _).
  destruct (notifyReconnected w s1) as [[[] | e] s2]; cbn [fst] in Hret; [ | discriminate ].
  pose proof (bindCharacteristics_registers w p s2) as Hreg.
  destruct (bindCharacteristics w p s2) as [[[] | e] s3]; cbn [snd] in Hreg.
  - pose proof (holdLink_keeps_registered p p s3 Hreg) as Hheld.
    destruct (holdLink_spec p s3) as (Hret4 & _).
    destruct (holdLink p s3) as [[[] | e] s4]; cbn [fst snd] in *; [ exact Hheld | discriminate ].
  - apply attemptFailed_keeps_registered. exact Hreg.
Qed.

Lemma link_stays_registered_when_service_absent :
  let s' := snd (connectToDevice serviceAbsent (created (Some tagAddress) unset)) in
  connectionPhase s' = Disconnected /\ In 1%nat (registry (homey s')) /\
  occurrences isPeripheralDisconnect s' = 0%nat.
Proof.
  intros s'. subst s'.
  destruct (connectToDevice_never_releases_a_link serviceAbsent
              (created (Some tagAddress) unset)) as (_ & Hdisc & _ & Hreg).
  split; [ vm_compute; reflexivity | ].
  split.
  - apply (Hreg tagAddress itag 1%nat); first [ reflexivity | vm_compute; reflexivity ].
  - rewrite Hdisc. reflexivity.
Defined.

Lemma writesOf_app a b : writesOf (a ++ b) = writesOf a ++ writesOf b.
Proof.
  induction a as [| e a IH]; simpl; [ reflexivity | ].
  destruct e; simpl; rewrite ?IH; reflexivity.
Qed.

#[local] Arguments withId : simpl never.

Lemma bindCharacteristics_needs w p s :
  fst (bindCharacteristics w p s) = Normal tt ->
  exists linkLost alert,
    bindable w p linkLost alert /\
    alertChar (this (snd (bindCharacteristics w p s))) = Some (withId alert) /\
    registry (homey (snd (bindCharacteristics w p s))) = p :: registry (homey s) /\
    exists delta,
      trace (homey (snd (bindCharacteristics w p s))) = trace (homey s) ++ delta /\
      writesOf delta = [(withId linkLost, [x00])].
Proof.
  unfold bindCharacteristics.
  unfold registerPeripheral, logError, log, emit. unfold_monad. cbn.
  repeat (destruct_scrutinee; cbn); try discriminate; intros _;
    repeat match goal with u : unit |- _ => destruct u end;
    unfold bindable, withServiceId;
    do 2 eexists;
    (split;
       [ do 4 eexists;
         repeat (split;
                 [ first [ eassumption
                         | match goal with
                           | H : noId _ = _ |- _ => rewrite H; eassumption
                           end ]
                 | ]);
         eassumption
       | ]);
    (split; [ reflexivity | ]); (split; [ reflexivity | ]);
    eexists; (split; [ repeat rewrite <- app_assoc; cbn; reflexivity | reflexivity ]).
Qed.

Lemma bindCharacteristics_suffices w p s linkLost alert :
  bindable w p linkLost alert -> fst (bindCharacteristics w p s) = Normal tt.
Proof.
  intros (services & sv & alertService & button & H1 & H2 & H3 & H4 & H5 & H6 & H7).
  unfold withServiceId in *.
  unfold bindCharacteristics, registerPeripheral, logError, log, emit. unfold_monad. cbn.
  rewrite H1. cbn. rewrite H2. cbn. rewrite H3. cbn.
  destruct (noId (svc_id sv)); cbn; rewrite H4; cbn; rewrite H5; cbn; rewrite H6; cbn;
    rewrite H7; reflexivity.
Qed.

(** X8: binding a link succeeds exactly when the service discovery resolves,
    both services and all three characteristics (the button one included,
    though it is not used afterwards) are there, and the write that silences
    the tag's link-loss alarm resolves.  It then has registered the link,
    written the single byte [0x00] to the link-loss characteristic and
    nothing else, and stored the alert characteristic with its identifier
    filled in. *)
Theorem bindCharacteristics_succeeds_iff (w : world) (p : link) (s : session) :
  let s' := snd (bindCharacteristics w p s) in
  (fst (bindCharacteristics w p s) = Normal tt <->
   exists linkLost alert, bindable w p linkLost alert) /\
  (fst (bindCharacteristics w p s) = Normal tt ->
   exists linkLost alert,
     bindable w p linkLost alert /\
     alertChar (this s') = Some (withId alert) /\
     registry (homey s') = p :: registry (homey s) /\
     exists delta,
       trace (homey s') = trace (homey s) ++ delta /\
       writesOf delta = [(withId linkLost, [x00])]).
Proof.
  intros s'. split.
  - split.
    + intros H. destruct (bindCharacteristics_needs w p s H) as (l & a & Hb & _).
      exists l, a. exact Hb.
    + intros (l & a & Hb). apply (bindCharacteristics_suffices w p s l a Hb).
  - apply bindCharacteristics_needs.
Qed.

Lemma bindCharacteristics_on_cooperative_world :
  let s := created (Some tagAddress) unset in
  alertChar (this (snd (bindCharacteristics cooperative 1%nat s))) =
    Some {| char_id := Some "00002a0600001000800000805f9b34fb"%string;
            char_uuid := "00002a0600001000800000805f9b34fb" |} /\
  registry (homey (snd (bindCharacteristics cooperative 1%nat s))) = [1%nat].
Proof.
  intros s.
  destruct (bindCharacteristics_succeeds_iff cooperative 1%nat s) as [_ Hdone].
  destruct (Hdone ltac:(vm_compute; reflexivity)) as (l & a & _ & _ & Hreg & _).
  split; [ vm_compute; reflexivity | exact Hreg ].
Defined.

(** ** The disconnect observer and [onInit] *)

(** X9: the disconnect observer never throws and always runs all of its
    steps: it asks once for the alarm, sets [wasDisconnected], fires
    [device_disconnected] exactly once, takes the link out of the registry,
    forgets it and schedules one 7000 ms reconnect.  A rejected alarm write
    and a rejected trigger are each logged and stop none of the rest. *)
Theorem onDisconnect_contract (w : world) (p : link) (s : session) :
  let s' := snd (onDisconnect w p s) in
  fst (onDisconnect w p s) = Normal tt /\
  peripheral (this s') = None /\
  wasDisconnected (this s') = true /\
  registry (homey s') = filter (fun q => negb (q =? p)%nat) (registry (homey s)) /\
  ~ In p (registry (homey s')) /\
  fired device_disconnected s' = S (fired device_disconnected s) /\
  fired device_reconnected s' = fired device_reconnected s /\
  occurrences (isAlarmWrite true) s' = S (occurrences (isAlarmWrite true) s) /\
  alarm s' =
    match hub_setCapabilityValue w alarm_disconnected (VBool true) with
    | Normal _ => Some (VBool true)
    | Throw _ => alarm s
    end /\
  pending ReconnectCallback s' =
    pending ReconnectCallback s ++
      [{| t_handle := nextHandle (homey s); t_ms := 7000; t_callback := ReconnectCallback;
          t_repeat := false |}] /\
  reconnectTimeout (this s') = Some (nextHandle (homey s)) /\
  occurrences isErrorLog s' =
    (occurrences isErrorLog s
     + match hub_setCapabilityValue w alarm_disconnected (VBool true) with
       | Normal _ => 0
       | Throw _ => 1
       end
     + match flow_trigger w device_disconnected with
       | Normal _ => 0
       | Throw _ => 1
       end)%nat.
Proof.
  unfold alarm, pending.
  exec; repeat rewrite filter_app; cbn;
    repeat split; try count_trace;
    intros Hin; apply filter_In in Hin; destruct Hin as [_ Hne];
    rewrite Nat.eqb_refl in Hne; discriminate.
Qed.

Lemma onInitPrefix_spec w s :
  let s' := snd (onInitPrefix w s) in
  fst (onInitPrefix w s) = Normal tt /\
  pending RssiPollCallback s' =
    pending RssiPollCallback s ++
      match rssiInterval (this s) with
      | None => [rssiTimerAt (nextHandle (homey s))]
      | Some _ => []
      end /\
  rssiInterval (this s') =
    match rssiInterval (this s) with
    | None => Some (nextHandle (homey s))
    | Some i => Some i
    end /\
  capabilities (homey s') ring =
    match hub_setCapabilityValue w ring (VBool false) with
    | Normal _ => Some (VBool false)
    | Throw _ => capabilities (homey s) ring
    end /\
  pending ReconnectCallback s' = pending ReconnectCallback s /\
  pending RingStopCallback s' = pending RingStopCallback s /\
  occurrences isFind s' = occurrences isFind s /\
  alarm s' = alarm s /\
  peripheral (this s') = peripheral (this s) /\
  disconnectObservers (homey s') = disconnectObservers (homey s).
Proof.
  destruct s as [[was per alert rl fl ri rt _rt rgt] hb].
  unfold onInitPrefix, startRSSIMonitoring, setInterval, setCapabilityValue, logError, log,
    emit, alarm, pending, rssiTimerAt.
  unfold_monad.
  destruct ri as [i |]; cbn;
    destruct (hub_setCapabilityValue w ring (VBool false)); cbn;
    rewrite ?filter_app, ?app_nil_r; cbn; rewrite ?app_nil_r;
    repeat split; count_trace.
Qed.

Ltac pending_side :=
  intros ? ?;
  first
    [ assumption
    | rewrite pending_schedule_same by reflexivity; assumption ].

Lemma connectToDevice_keeps_other_timers w s :
  pending RssiPollCallback (snd (connectToDevice w s)) = pending RssiPollCallback s /\
  pending RingStopCallback (snd (connectToDevice w s)) = pending RingStopCallback s /\
  rssiInterval (this (snd (connectToDevice w s))) = rssiInterval (this s) /\
  _ringTimeout (this (snd (connectToDevice w s))) = _ringTimeout (this s) /\
  capabilities (homey (snd (connectToDevice w s))) ring = capabilities (homey s) ring.
Proof.
  repeat split.
  - revert s. apply (unchanged (pending RssiPollCallback)). intros ?. pres pending_side.
  - revert s. apply (unchanged (pending RingStopCallback)). intros ?. pres pending_side.
  - revert s. frame (fun s => rssiInterval (this s)).
  - revert s. frame (fun s => _ringTimeout (this s)).
  - revert s. frame (fun s => capabilities (homey s) ring).
Qed.

(** X10: [onInit] starts the RSSI monitor (one repeating 5000 ms timer)
    exactly when none is recorded, so running it on a session that has one
    starts no second; it resets [ring] to false when the hub accepts the
    write, and a rejection of that write does not stop it.  On a hub older
    than version 6 it returns there, without a [find], a reconnect timer or
    an alarm write.  Otherwise, also when the version does not parse, it
    goes on with one connect attempt and returns what [connectToDevice]
    returns: when that resolves there is one more way to start the next
    attempt than before, when it rejects there is none. *)
Theorem onInit_contract (w : world) (s : session) :
  let s' := snd (onInit w s) in
  pending RssiPollCallback s' =
    pending RssiPollCallback s ++
      match rssiInterval (this s) with
      | None => [rssiTimerAt (nextHandle (homey s))]
      | Some _ => []
      end /\
  rssiInterval (this s') =
    match rssiInterval (this s) with
    | None => Some (nextHandle (homey s))
    | Some i => Some i
    end /\
  capabilities (homey s') ring =
    match hub_setCapabilityValue w ring (VBool false) with
    | Normal _ => Some (VBool false)
    | Throw _ => capabilities (homey s) ring
    end /\
  if tooOld w then
    fst (onInit w s) = Normal tt /\
    occurrences isFind s' = occurrences isFind s /\
    pending ReconnectCallback s' = pending ReconnectCallback s /\
    alarm s' = alarm s /\
    connectionPhase s' = connectionPhase s
  else
    s' = snd (connectToDevice w (snd (onInitPrefix w s))) /\
    fst (onInit w s) = fst (connectToDevice w (snd (onInitPrefix w s))) /\
    tokens s' =
      match fst (onInit w s) with
      | Normal _ => S (tokens s)
      | Throw _ => tokens s
      end.
Proof.
  intros s'. subst s'.
  pose proof (onInit_result w s) as Hres. rewrite Hres.
  rewrite onInit_split. unfold bind.
  destruct (onInitPrefix_spec w s)
    as (Hret & Hrssi & Hfield & Hring & Hrec & _ & Hfind & Halarm & Hper & Hobs).
  destruct (onInitPrefix w s) as [[[] | e] s1]; cbn [fst snd] in *; [ | discriminate ].
  destruct (tooOld w).
  - unfold log, emit, hubDo, connectionPhase. cbn.
    unfold pending, alarm, occurrences in *. cbn.
    rewrite filter_app, length_app, Hrssi, Hfield, Hring, Hrec, Hfind, Halarm, Hper. cbn.
    repeat split; lia.
  - destruct (connectToDevice_keeps_other_timers w s1) as (-> & _ & -> & _ & ->).
    rewrite connectToDevice_tokens. unfold tokens. rewrite Hrec, Hobs.
    repeat split; first [ assumption | reflexivity ].
Qed.

(** ** Ringing *)

Lemma find_fresh (n : handle) (ts : list timer) (t : timer) :
  Forall (fun t' => (t_handle t' < n)%nat) ts -> t_handle t = n ->
  find (fun t' => (t_handle t' =? n)%nat) (ts ++ [t]) = Some t.
Proof.
  intros Hfresh Ht. induction ts as [| x ts IH]; simpl.
  - rewrite Ht, Nat.eqb_refl. reflexivity.
  - inversion Hfresh as [| y l Hx Hrest]; subst.
    destruct (Nat.eqb_spec (t_handle x) (t_handle t)) as [Heq | _]; [ lia | ].
    apply IH. exact Hrest.
Qed.

Lemma filter_fresh (n : handle) (ts : list timer) (t : timer) :
  Forall (fun t' => (t_handle t' < n)%nat) ts -> t_handle t = n ->
  filter (fun t' => negb (t_handle t' =? n)%nat) (ts ++ [t]) = ts.
Proof.
  intros Hfresh Ht. induction ts as [| x ts IH]; simpl.
  - rewrite Ht, Nat.eqb_refl. reflexivity.
  - inversion Hfresh as [| y l Hx Hrest]; subst.
    destruct (Nat.eqb_spec (t_handle x) (t_handle t)) as [Heq | _]; [ lia | ].
    simpl. rewrite (IH Hrest). reflexivity.
Qed.

Lemma ringStop_spec w s :
  exists delta,
    this (snd (ringStop w s)) = this s /\
    timers (homey (snd (ringStop w s))) = timers (homey s) /\
    trace (homey (snd (ringStop w s))) = trace (homey s) ++ delta /\
    writesOf delta =
      match alertChar (this s) with
      | Some ch => [(ch, [x00])]
      | None => []
      end /\
    capabilities (homey (snd (ringStop w s))) ring =
      match hub_setCapabilityValue w ring (VBool false) with
      | Normal _ => Some (VBool false)
      | Throw _ => capabilities (homey s) ring
      end.
Proof.
  exec; eexists; (split; [ reflexivity | ]); (split; [ reflexivity | ]);
    (split; [ repeat rewrite <- app_assoc; cbn; reflexivity | ]);
    split; reflexivity.
Qed.

Lemma ringListener_start_book w s :
  let s' := snd (ringListener w true s) in
  fst (ringListener w true s) = Normal true /\
  peripheral (this s') = peripheral (this s) /\
  alertChar (this s') = alertChar (this s) /\
  rssiInterval (this s') = rssiInterval (this s) /\
  reconnectTimeout (this s') = reconnectTimeout (this s) /\
  _ringTimeout (this s') = Some (nextHandle (homey s)) /\
  timers (homey s') = timers (homey s) ++ [ringTimerAt (nextHandle (homey s))] /\
  nextHandle (homey s') = S (nextHandle (homey s)) /\
  disconnectObservers (homey s') = disconnectObservers (homey s) /\
  capabilities (homey s') = capabilities (homey s) /\
  exists delta,
    trace (homey s') = trace (homey s) ++ delta /\
    writesOf delta =
      match alertChar (this s) with
      | Some ch => [(ch, [x02])]
      | None => []
      end.
Proof.
  unfold ringTimerAt. destruct s as [d hb].
  exec; repeat (split; [ first [ reflexivity | assumption | symmetry; assumption ] | ]);
    eexists;
    (split; [ repeat rewrite <- app_assoc; cbn; reflexivity | reflexivity ]).
Qed.

Lemma startRingingListener_book w s :
  let s' := snd (startRingingListener w s) in
  peripheral (this s') = peripheral (this s) /\
  alertChar (this s') = alertChar (this s) /\
  rssiInterval (this s') = rssiInterval (this s) /\
  reconnectTimeout (this s') = reconnectTimeout (this s) /\
  disconnectObservers (homey s') = disconnectObservers (homey s) /\
  (exists delta,
     trace (homey s') = trace (homey s) ++ delta /\
     writesOf delta =
       match alertChar (this s) with
       | Some ch => [(ch, [x02])]
       | None => []
       end) /\
  match hub_setCapabilityValue w ring (VBool true) with
  | Normal _ =>
      fst (startRingingListener w s) = Normal true /\
      capabilities (homey s') ring = Some (VBool true) /\
      _ringTimeout (this s') = Some (nextHandle (homey s)) /\
      timers (homey s') = timers (homey s) ++ [ringTimerAt (nextHandle (homey s))] /\
      nextHandle (homey s') = S (nextHandle (homey s))
  | Throw e =>
      fst (startRingingListener w s) = Throw e /\
      capabilities (homey s') = capabilities (homey s) /\
      _ringTimeout (this s') = _ringTimeout (this s) /\
      timers (homey s') = timers (homey s) /\
      nextHandle (homey s') = nextHandle (homey s)
  end.
Proof.
  unfold ringTimerAt. destruct s as [d hb].
  exec; repeat (split; [ first [ reflexivity | assumption | symmetry; assumption ] | ]);
    (split; [ eexists; (split; [ repeat rewrite <- app_assoc; cbn; reflexivity | reflexivity ])
            | repeat split; reflexivity ]).
Qed.

Lemma fire_armed_timer w n A ts :
  timers (homey A) = ts ++ [ringTimerAt n] ->
  Forall (fun t => (t_handle t < n)%nat) ts ->
  fire w n A =
    ringStop w {| this := this A; homey := set_timers ts (homey A) |}.
Proof.
  intros Htimers Hfresh. rewrite fire_unfold, Htimers.
  rewrite (find_fresh n ts (ringTimerAt n) Hfresh eq_refl).
  cbn [t_repeat ringTimerAt t_callback runCallback].
  unfold cancel, hubDo. cbn [snd]. rewrite Htimers.
  rewrite (filter_fresh n ts (ringTimerAt n) Hfresh eq_refl). reflexivity.
Qed.

Lemma auto_stop_after w2 (s A : session) :
  Forall (fun t => (t_handle t < nextHandle (homey s))%nat) (timers (homey s)) ->
  timers (homey A) = timers (homey s) ++ [ringTimerAt (nextHandle (homey s))] ->
  alertChar (this A) = alertChar (this s) ->
  let s' := react (TimerFires (nextHandle (homey s))) w2 A in
  pending RingStopCallback A = pending RingStopCallback s ++ [ringTimerAt (nextHandle (homey s))] /\
  pending RingStopCallback s' = pending RingStopCallback s /\
  capabilities (homey s') ring =
    match hub_setCapabilityValue w2 ring (VBool false) with
    | Normal _ => Some (VBool false)
    | Throw _ => capabilities (homey A) ring
    end /\
  exists d2,
    trace (homey s') = trace (homey A) ++ d2 /\
    writesOf d2 =
      match alertChar (this s) with
      | Some ch => [(ch, [x00])]
      | None => []
      end.
Proof.
  intros Hfresh Htimers Halert s'. subst s'. cbn [react].
  rewrite (fire_armed_timer w2 _ _ (timers (homey s)) Htimers Hfresh).
  match goal with
  | |- context [ringStop w2 ?B] =>
      destruct (ringStop_spec w2 B) as (d2 & Hthis & Hts & Htrace & Hwrites & Hring)
  end.
  cbn [this homey set_timers timers trace capabilities] in Hthis, Hts, Htrace, Hwrites, Hring.
  split.
  { unfold pending. rewrite Htimers, filter_app. reflexivity. }
  split.
  { unfold pending. rewrite Hts. reflexivity. }
  split; [ exact Hring | ].
  exists d2. split; [ exact Htrace | rewrite <- Halert; exact Hwrites ].
Qed.

(** X11: a ring command that nothing follows stops by itself.  In every
    state a session reaches once the ring listener is registered, setting
    [ring] to true writes [0x02] to the alert characteristic and arms one
    10000 ms timer; when that timer fires, [0x00] is written to the same
    characteristic, the timer is gone and, when the hub accepts the write,
    [ring] is false.  The start-ringing action does the same when the hub
    accepts its write of [ring]. *)
Theorem ring_stops_by_itself
  (address : option string) (stored : capability -> option capval) (w0 : world)
  (inputs : list (input * world)) (w1 w2 : world) :
  let s := run inputs (started address stored w0) in
  let h := nextHandle (homey s) in
  let rung := match alertChar (this s) with
              | Some ch => [(ch, [x02]); (ch, [x00])]
              | None => []
              end in
  (ringListenerRegistered (this s) = true ->
   let armed := react (RingSet true) w1 s in
   let s' := react (TimerFires h) w2 armed in
   pending RingStopCallback armed = pending RingStopCallback s ++ [ringTimerAt h] /\
   pending RingStopCallback s' = pending RingStopCallback s /\
   (hub_setCapabilityValue w2 ring (VBool false) = Normal tt ->
    capabilities (homey s') ring = Some (VBool false)) /\
   exists delta, trace (homey s') = trace (homey s) ++ delta /\ writesOf delta = rung) /\
  (flowActionsRegistered (this s) = true ->
   hub_setCapabilityValue w1 ring (VBool true) = Normal tt ->
   let armed := react StartRinging w1 s in
   let s' := react (TimerFires h) w2 armed in
   capabilities (homey armed) ring = Some (VBool true) /\
   pending RingStopCallback armed = pending RingStopCallback s ++ [ringTimerAt h] /\
   pending RingStopCallback s' = pending RingStopCallback s /\
   (hub_setCapabilityValue w2 ring (VBool false) = Normal tt ->
    capabilities (homey s') ring = Some (VBool false)) /\
   exists delta, trace (homey s') = trace (homey s) ++ delta /\ writesOf delta = rung).
Proof.
  intros s h rung.
  destruct (running_sound address stored w0 inputs) as ((Hfresh & _) & Hmatch & _).
  fold s in Hfresh, Hmatch. destruct Hmatch as (Hring & Hstart & _).
  split.
  - intros Hreg armed s'.
    assert (Harmed : armed = snd (ringListener w1 true s)).
    { subst armed. cbn [react]. rewrite Hring, Hreg. reflexivity. }
    destruct (ringListener_start_book w1 s)
      as (_ & _ & Halert & _ & _ & _ & Htimers & _ & _ & _ & d1 & Htrace1 & Hw1).
    rewrite <- Harmed in Halert, Htimers, Htrace1.
    destruct (auto_stop_after w2 s armed Hfresh Htimers Halert)
      as (Hp1 & Hp2 & Hcap & d2 & Htrace & Hw2).
    fold h in Hp1, Hp2, Hcap, Htrace. fold s' in Hp2, Hcap, Htrace.
    split; [ exact Hp1 | ]. split; [ exact Hp2 | ].
    split; [ intros Hhub; rewrite Hcap, Hhub; reflexivity | ].
    exists (d1 ++ d2). split; [ rewrite app_assoc, <- Htrace1; exact Htrace | ].
    rewrite writesOf_app, Hw1, Hw2. subst rung.
    destruct (alertChar (this s)); reflexivity.
  - intros Hreg Hhub1 armed s'.
    assert (Harmed : armed = snd (startRingingListener w1 s)).
    { subst armed. cbn [react]. rewrite Hstart, Hreg. reflexivity. }
    destruct (startRingingListener_book w1 s)
      as (_ & Halert & _ & _ & _ & (d1 & Htrace1 & Hw1) & Hhub).
    rewrite Hhub1 in Hhub. destruct Hhub as (_ & Hcap1 & _ & Htimers & _).
    rewrite <- Harmed in Halert, Htimers, Htrace1, Hcap1.
    destruct (auto_stop_after w2 s armed Hfresh Htimers Halert)
      as (Hp1 & Hp2 & Hcap & d2 & Htrace & Hw2).
    fold h in Hp1, Hp2, Hcap, Htrace. fold s' in Hp2, Hcap, Htrace.
    split; [ exact Hcap1 | ].
    split; [ exact Hp1 | ]. split; [ exact Hp2 | ].
    split; [ intros Hhub; rewrite Hcap, Hhub; reflexivity | ].
    exists (d1 ++ d2). split; [ rewrite app_assoc, <- Htrace1; exact Htrace | ].
    rewrite writesOf_app, Hw1, Hw2. subst rung.
    destruct (alertChar (this s)); reflexivity.
Qed.

Lemma ring_stops_by_itself_on_a_run :
  let s := run [] (started (Some tagAddress) unset cooperative) in
  let h := nextHandle (homey s) in
  let armed := react (RingSet true) cooperative s in
  let s' := react (TimerFires h) cooperative armed in
  ringListenerRegistered (this s) = true /\
  pending RingStopCallback s' = pending RingStopCallback s /\
  capabilities (homey s') ring = Some (VBool false).
Proof.
  intros s h armed s'.
  assert (Hreg : ringListenerRegistered (this s) = true) by (vm_compute; reflexivity).
  destruct (ring_stops_by_itself (Some tagAddress) unset cooperative [] cooperative cooperative)
    as [Hring _].
  destruct (Hring Hreg) as (_ & Hpending & Hcap & _).
  split; [ exact Hreg | ]. split; [ exact Hpending | ].
  apply Hcap. reflexivity.
Defined.

(** X12: the two ring actions against the hub.  The start action writes
    [0x02] to the alert characteristic before it asks the hub to set [ring];
    when the hub rejects that write the action throws the hub's error with
    the tag already told to ring, no stop timer armed and [_ringTimeout]
    untouched.  The stop action writes [0x00] and cancels the timer that
    [_ringTimeout] names before it asks the hub, so both happen whether or
    not the hub accepts; it throws exactly when the hub rejects. *)
Theorem ring_actions_against_hub (w : world) (s : session) :
  (exists delta,
     let r := startRingingListener w s in
     trace (homey (snd r)) = trace (homey s) ++ delta /\
     writesOf delta =
       match alertChar (this s) with
       | Some ch => [(ch, [x02])]
       | None => []
       end /\
     match hub_setCapabilityValue w ring (VBool true) with
     | Normal _ =>
         fst r = Normal true /\
         capabilities (homey (snd r)) ring = Some (VBool true) /\
         _ringTimeout (this (snd r)) = Some (nextHandle (homey s)) /\
         timers (homey (snd r)) = timers (homey s) ++ [ringTimerAt (nextHandle (homey s))]
     | Throw e =>
         fst r = Throw e /\
         capabilities (homey (snd r)) = capabilities (homey s) /\
         this (snd r) = this s /\
         timers (homey (snd r)) = timers (homey s)
     end) /\
  (exists delta,
     let r := stopRingingListener w s in
     trace (homey (snd r)) = trace (homey s) ++ delta /\
     writesOf delta =
       match alertChar (this s) with
       | Some ch => [(ch, [x00])]
       | None => []
       end /\
     _ringTimeout (this (snd r)) = None /\
     timers (homey (snd r)) =
       match _ringTimeout (this s) with
       | Some h => filter (fun t => negb (t_handle t =? h)%nat) (timers (homey s))
       | None => timers (homey s)
       end /\
     match hub_setCapabilityValue w ring (VBool false) with
     | Normal _ =>
         fst r = Normal true /\ capabilities (homey (snd r)) ring = Some (VBool false)
     | Throw e =>
         fst r = Throw e /\ capabilities (homey (snd r)) = capabilities (homey s)
     end).
Proof.
  split.
  - unfold ringTimerAt. destruct s as [d hb].
    exec; eexists; (split; [ repeat rewrite <- app_assoc; cbn; reflexivity | ]);
      (split; [ cbn; reflexivity | ]);
      repeat split; first [ reflexivity | assumption | symmetry; assumption ].
  - destruct s as [d hb].
    exec; eexists; (split; [ repeat rewrite <- app_assoc; cbn; reflexivity | ]);
      (split; [ cbn; reflexivity | ]);
      repeat split; first [ reflexivity | assumption | symmetry; assumption ].
Qed.

(** ** The state machine: links, observers and handles *)

Lemma filter_keeps_all {A : Type} (g : A -> bool) (l : list A) :
  (forall x, In x l -> g x = true) -> filter g l = l.
Proof.
  induction l as [| x l IH]; intros H; simpl.
  - reflexivity.
  - rewrite (H x (or_introl eq_refl)), IH; [ reflexivity | ].
    intros y Hy. apply H. right. exact Hy.
Qed.

Lemma filter_keeps_none {A : Type} (g : A -> bool) (l : list A) :
  (forall x, In x l -> g x = false) -> filter g l = [].
Proof.
  induction l as [| x l IH]; intros H; simpl.
  - reflexivity.
  - rewrite (H x (or_introl eq_refl)). apply IH.
    intros y Hy. apply H. right. exact Hy.
Qed.

Lemma namesIn_none cb ts n : namesIn None cb ts n.
Proof. split; intros; discriminate. Qed.

Lemma namesIn_filter field cb ts n g :
  namesIn field cb ts n -> namesIn field cb (filter g ts) n.
Proof.
  intros [Hless Hkind]. split; [ exact Hless | ].
  intros t Hin. apply filter_In in Hin. destruct Hin as [Hin _]. apply Hkind. exact Hin.
Qed.

Lemma namesIn_grow field cb ts n t :
  namesIn field cb ts n -> t_handle t = n -> namesIn field cb (ts ++ [t]) (S n).
Proof.
  intros [Hless Hkind] Ht. split.
  - intros h Hh. specialize (Hless h Hh). lia.
  - intros t' Hin Hfield. apply in_app_or in Hin. destruct Hin as [Hin | [<- | []]].
    + apply Hkind; assumption.
    + specialize (Hless _ Hfield). lia.
Qed.

Lemma namesIn_own cb ts n t :
  Forall (fun t' => (t_handle t' < n)%nat) ts -> t_handle t = n -> t_callback t = cb ->
  namesIn (Some n) cb (ts ++ [t]) (S n).
Proof.
  intros Hfresh Ht Hcb. split.
  - intros h Hh. injection Hh as <-. lia.
  - intros t' Hin Hfield. injection Hfield as Hfield.
    apply in_app_or in Hin. destruct Hin as [Hin | [<- | []]]; [ | exact Hcb ].
    rewrite Forall_forall in Hfresh. specialize (Hfresh t' Hin). lia.
Qed.

Lemma tracksIn_filter field cb ts g : tracksIn field cb ts -> tracksIn field cb (filter g ts).
Proof.
  intros H t Hin. apply filter_In in Hin. destruct Hin as [Hin _]. apply H. exact Hin.
Qed.

Lemma tracksIn_grow field cb ts t :
  tracksIn field cb ts -> t_callback t <> cb -> tracksIn field cb (ts ++ [t]).
Proof.
  intros H Hne t' Hin Hcb. apply in_app_or in Hin. destruct Hin as [Hin | [<- | []]].
  - apply H; assumption.
  - contradiction.
Qed.

Lemma tracksIn_own cb ts t :
  filter (fun t' => callback_eqb (t_callback t') cb) ts = [] ->
  tracksIn (Some (t_handle t)) cb (ts ++ [t]).
Proof.
  intros Hnone t' Hin Hcb. apply in_app_or in Hin. destruct Hin as [Hin | [<- | []]].
  - exfalso. assert (Hin' : In t' (filter (fun t' => callback_eqb (t_callback t') cb) ts)).
    { apply filter_In. split; [ exact Hin | ]. rewrite Hcb. destruct cb; reflexivity. }
    rewrite Hnone in Hin'. destruct Hin'.
  - reflexivity.
Qed.

Lemma ledger_same s s' :
  rssiInterval (this s') = rssiInterval (this s) ->
  reconnectTimeout (this s') = reconnectTimeout (this s) ->
  _ringTimeout (this s') = _ringTimeout (this s) ->
  timers (homey s') = timers (homey s) ->
  nextHandle (homey s') = nextHandle (homey s) ->
  ledger s -> ledger s'.
Proof. unfold ledger. intros -> -> -> -> ->. auto. Qed.

Lemma ledger_shrink s s' g :
  rssiInterval (this s') = rssiInterval (this s) ->
  reconnectTimeout (this s') = reconnectTimeout (this s) ->
  _ringTimeout (this s') = _ringTimeout (this s) \/ _ringTimeout (this s') = None ->
  timers (homey s') = filter g (timers (homey s)) ->
  nextHandle (homey s') = nextHandle (homey s) ->
  ledger s -> ledger s'.
Proof.
  unfold ledger. intros -> -> Hring -> -> (H1 & H2 & H3 & H4 & H5).
  split; [ apply namesIn_filter; assumption | ].
  split; [ apply namesIn_filter; assumption | ].
  split; [ | split; apply tracksIn_filter; assumption ].
  destruct Hring as [-> | ->]; [ apply namesIn_filter; assumption | apply namesIn_none ].
Qed.

Lemma ledger_ring s s' :
  rssiInterval (this s') = rssiInterval (this s) ->
  reconnectTimeout (this s') = reconnectTimeout (this s) ->
  _ringTimeout (this s') = Some (nextHandle (homey s)) ->
  timers (homey s') = timers (homey s) ++ [ringTimerAt (nextHandle (homey s))] ->
  nextHandle (homey s') = S (nextHandle (homey s)) ->
  scheduled s -> ledger s -> ledger s'.
Proof.
  unfold ledger. intros -> -> -> -> -> (Hfresh & _) (H1 & H2 & H3 & H4 & H5).
  split; [ apply namesIn_grow; [ assumption | reflexivity ] | ].
  split; [ apply namesIn_grow; [ assumption | reflexivity ] | ].
  split; [ apply namesIn_own; [ assumption | reflexivity | reflexivity ] | ].
  split; apply tracksIn_grow; try assumption; cbn; discriminate.
Qed.

Lemma ledger_reconnect s s' :
  rssiInterval (this s') = rssiInterval (this s) ->
  reconnectTimeout (this s') = Some (nextHandle (homey s)) ->
  _ringTimeout (this s') = _ringTimeout (this s) ->
  timers (homey s') = timers (homey s) ++ [reconnectTimerAt (nextHandle (homey s))] ->
  nextHandle (homey s') = S (nextHandle (homey s)) ->
  pending ReconnectCallback s = [] ->
  scheduled s -> ledger s -> ledger s'.
Proof.
  unfold ledger. intros -> -> -> -> -> Hnone (Hfresh & _) (H1 & H2 & H3 & H4 & H5).
  split; [ apply namesIn_grow; [ assumption | reflexivity ] | ].
  split; [ apply namesIn_own; [ assumption | reflexivity | reflexivity ] | ].
  split; [ apply namesIn_grow; [ assumption | reflexivity ] | ].
  split; [ apply tracksIn_grow; [ assumption | cbn; discriminate ] | ].
  apply (tracksIn_own ReconnectCallback (timers (homey s))
           (reconnectTimerAt (nextHandle (homey s)))).
  exact Hnone.
Qed.

(** What each handler does to the link, the handle fields, the queue and the
    observers. *)

Lemma ringStop_book w s :
  this (snd (ringStop w s)) = this s /\
  timers (homey (snd (ringStop w s))) = timers (homey s) /\
  nextHandle (homey (snd (ringStop w s))) = nextHandle (homey s) /\
  disconnectObservers (homey (snd (ringStop w s))) = disconnectObservers (homey s).
Proof. exec; repeat split; reflexivity. Qed.

Lemma rssiPoll_book w s :
  this (snd (rssiPoll w s)) = this s /\
  timers (homey (snd (rssiPoll w s))) = timers (homey s) /\
  nextHandle (homey (snd (rssiPoll w s))) = nextHandle (homey s) /\
  disconnectObservers (homey (snd (rssiPoll w s))) = disconnectObservers (homey s).
Proof.
  destruct (rssiPoll_frame w s) as (_ & Hthis & Hskel & _).
  split; [ exact Hthis | ].
  split; [ exact (f_equal timers Hskel) | ].
  split; [ exact (f_equal nextHandle Hskel) | exact (f_equal disconnectObservers Hskel) ].
Qed.

Lemma ringListener_stop_book w s :
  let s' := snd (ringListener w false s) in
  peripheral (this s') = peripheral (this s) /\
  rssiInterval (this s') = rssiInterval (this s) /\
  reconnectTimeout (this s') = reconnectTimeout (this s) /\
  _ringTimeout (this s') = None /\
  timers (homey s') =
    match _ringTimeout (this s) with
    | Some h => filter (fun t => negb (t_handle t =? h)%nat) (timers (homey s))
    | None => timers (homey s)
    end /\
  nextHandle (homey s') = nextHandle (homey s) /\
  disconnectObservers (homey s') = disconnectObservers (homey s).
Proof.
  destruct s as [d hb]. exec; repeat split; first [ reflexivity | assumption ].
Qed.

Lemma stopRingingListener_book w s :
  let s' := snd (stopRingingListener w s) in
  peripheral (this s') = peripheral (this s) /\
  rssiInterval (this s') = rssiInterval (this s) /\
  reconnectTimeout (this s') = reconnectTimeout (this s) /\
  _ringTimeout (this s') = None /\
  timers (homey s') =
    match _ringTimeout (this s) with
    | Some h => filter (fun t => negb (t_handle t =? h)%nat) (timers (homey s))
    | None => timers (homey s)
    end /\
  nextHandle (homey s') = nextHandle (homey s) /\
  disconnectObservers (homey s') = disconnectObservers (homey s).
Proof.
  destruct s as [d hb]. exec; repeat split; first [ reflexivity | assumption ].
Qed.

Lemma onDisconnect_book w p s :
  let s' := snd (onDisconnect w p s) in
  peripheral (this s') = None /\
  rssiInterval (this s') = rssiInterval (this s) /\
  reconnectTimeout (this s') = Some (nextHandle (homey s)) /\
  _ringTimeout (this s') = _ringTimeout (this s) /\
  timers (homey s') = timers (homey s) ++ [reconnectTimerAt (nextHandle (homey s))] /\
  nextHandle (homey s') = S (nextHandle (homey s)) /\
  disconnectObservers (homey s') = disconnectObservers (homey s).
Proof. unfold reconnectTimerAt. exec; repeat split; reflexivity. Qed.

Lemma attemptFailed_nextHandle w e s :
  unreadable "message" e = None ->
  nextHandle (homey (snd (attemptFailed w e s))) = S (nextHandle (homey s)).
Proof. destruct e; try discriminate. intros _. exec; reflexivity. Qed.

(** A connect attempt ends in one of three ways: the link is held and
    observed; the failure path has scheduled a reconnect; or the catch block
    has thrown and left everything as it was. *)
Lemma connectToDevice_book w s :
  let s' := snd (connectToDevice w s) in
  rssiInterval (this s') = rssiInterval (this s) /\
  _ringTimeout (this s') = _ringTimeout (this s) /\
  ((exists p,
      fst (connectToDevice w s) = Normal tt /\
      peripheral (this s') = Some p /\
      disconnectObservers (homey s') = disconnectObservers (homey s) ++ [p] /\
      reconnectTimeout (this s') = reconnectTimeout (this s) /\
      timers (homey s') = timers (homey s) /\
      nextHandle (homey s') = nextHandle (homey s)) \/
   (fst (connectToDevice w s) = Normal tt /\
    peripheral (this s') = peripheral (this s) /\
    disconnectObservers (homey s') = disconnectObservers (homey s) /\
    reconnectTimeout (this s') = Some (nextHandle (homey s)) /\
    timers (homey s') = timers (homey s) ++ [reconnectTimerAt (nextHandle (homey s))] /\
    nextHandle (homey s') = S (nextHandle (homey s))) \/
   (fst (connectToDevice w s) <> Normal tt /\
    peripheral (this s') = peripheral (this s) /\
    disconnectObservers (homey s') = disconnectObservers (homey s) /\
    reconnectTimeout (this s') = reconnectTimeout (this s) /\
    timers (homey s') = timers (homey s) /\
    nextHandle (homey s') = nextHandle (homey s))).
Proof.
  intros s'. subst s'.
  destruct (connectToDevice_keeps_other_timers w s) as (_ & _ & Hrssi & Hring & _).
  split; [ exact Hrssi | ]. split; [ exact Hring | ].
  pose proof (connectToDevice_result w s) as Hres.
  unfold connectToDevice, try_catch in *.
  destruct (attempt_outcome w s) as [Hout _].
  destruct (attempt_keeps_queue w s) as [Htimers Hnext].
  assert (Hfield : reconnectTimeout (this (snd (attempt w s))) = reconnectTimeout (this s)).
  { generalize s. frame (fun s => reconnectTimeout (this s)). }
  destruct (attempt w s) as [[[] | e] s1]; cbn [fst snd] in *.
  - destruct Hout as (p & _ & _ & Hper & _ & _ & _ & Hobs).
    left. exists p. auto 10.
  - destruct Hout as [Hper Hobs].
    destruct (unreadable "message" e) as [typeError |] eqn:Hread.
    + right. right. split; [ rewrite Hres; discriminate | ].
      rewrite attemptFailed_stops by (rewrite Hread; discriminate).
      cbn. auto.
    + destruct (attemptFailed_spec w e s1 Hread) as (_ & Hper' & Hfield' & Hqueue & Hobs' & _).
      right. left. unfold reconnectTimerAt.
      rewrite Hper', Hper, Hobs', Hobs, Hfield', Hqueue,
        (attemptFailed_nextHandle w e s1 Hread), Htimers, Hnext.
      auto 10.
Qed.

Lemma onDeleted_book w s :
  ringTimeout (this s) = None ->
  this (snd (onDeleted w s)) = this s /\
  timers (homey (snd (onDeleted w s))) =
    without (held (rssiInterval (this s)) ++ held (reconnectTimeout (this s)))
      (timers (homey s)) /\
  nextHandle (homey (snd (onDeleted w s))) = nextHandle (homey s) /\
  disconnectObservers (homey (snd (onDeleted w s))) = disconnectObservers (homey s).
Proof.
  intros Hunset.
  destruct (onDeleted_spec w s Hunset) as (delta & _ & _ & _ & Htimers & _).
  split; [ generalize s; frame (fun s => this s) | ].
  split; [ exact Htimers | ].
  split.
  - generalize s. frame (fun s => nextHandle (homey s)).
  - generalize s. frame (fun s => disconnectObservers (homey s)).
Qed.

Lemma pending_of_timers cb s s' :
  timers (homey s') = timers (homey s) -> pending cb s' = pending cb s.
Proof. unfold pending. intros ->. reflexivity. Qed.

Lemma linked_keep s s' :
  peripheral (this s') = peripheral (this s) ->
  disconnectObservers (homey s') = disconnectObservers (homey s) ->
  (pending ReconnectCallback s = [] -> pending ReconnectCallback s' = []) ->
  linked s -> linked s'.
Proof.
  unfold linked. intros -> -> Hnone H.
  destruct (peripheral (this s)); [ | exact H ].
  destruct H as [Hobs Hp]. auto.
Qed.

Lemma filter_without_nil (f : timer -> bool) (hs : list handle) :
  forall ts, filter f ts = [] -> filter f (without hs ts) = [].
Proof.
  unfold without. induction hs as [| h hs IH]; intros ts H; simpl.
  - exact H.
  - apply IH. rewrite filter_filter_comm, H. reflexivity.
Qed.

Lemma namesIn_without field cb hs n :
  forall ts, namesIn field cb ts n -> namesIn field cb (without hs ts) n.
Proof.
  unfold without. induction hs as [| h hs IH]; intros ts H; simpl.
  - exact H.
  - apply IH. apply namesIn_filter. exact H.
Qed.

Lemma tracksIn_without field cb hs :
  forall ts, tracksIn field cb ts -> tracksIn field cb (without hs ts).
Proof.
  unfold without. induction hs as [| h hs IH]; intros ts H; simpl.
  - exact H.
  - apply IH. apply tracksIn_filter. exact H.
Qed.

Lemma cancel_keeps (h : handle) s :
  linked s -> ledger s ->
  linked (snd (cancel h s)) /\ ledger (snd (cancel h s)).
Proof.
  intros Hlinked Hledger. split.
  - apply (linked_keep s); try reflexivity; [ | exact Hlinked ].
    unfold cancel, hubDo. cbn [snd]. rewrite pending_cancel. intros ->. reflexivity.
  - apply (ledger_shrink s _ (fun t => negb (t_handle t =? h)%nat)); auto.
Qed.

Lemma connectToDevice_keeps w s :
  scheduled s -> peripheral (this s) = None -> disconnectObservers (homey s) = [] ->
  pending ReconnectCallback s = [] -> ledger s ->
  linked (snd (connectToDevice w s)) /\ ledger (snd (connectToDevice w s)).
Proof.
  intros Hsched Hper Hobs Hnone Hledger.
  destruct (connectToDevice_book w s)
    as (Hrssi & Hring & [(p & _ & Hp & Ho & Hf & Ht & Hn) | [H | H]]).
  - split.
    + unfold linked. rewrite Hp, Ho, Hobs, (pending_of_timers _ _ _ Ht). auto.
    + apply (ledger_same s); assumption.
  - destruct H as (_ & Hp & Ho & Hf & Ht & Hn). split.
    + unfold linked. rewrite Hp, Hper, Ho. exact Hobs.
    + apply (ledger_reconnect s); assumption.
  - destruct H as (_ & Hp & Ho & Hf & Ht & Hn). split.
    + unfold linked. rewrite Hp, Hper, Ho. exact Hobs.
    + apply (ledger_same s); assumption.
Qed.

Lemma fire_keeps w h s :
  sound s -> linked s -> ledger s ->
  linked (snd (fire w h s)) /\ ledger (snd (fire w h s)).
Proof.
  intros (Hsched & _ & Htokens) Hlinked Hledger. rewrite fire_unfold.
  destruct (find _ _) as [t |] eqn:Hfind; [ | auto ].
  apply find_some in Hfind. destruct Hfind as [Hin Hh]. apply Nat.eqb_eq in Hh. subst h.
  pose proof Hsched as (_ & _ & Hshaped & _).
  rewrite Forall_forall in Hshaped. specialize (Hshaped t Hin). unfold shaped in Hshaped.
  destruct (cancel_keeps (t_handle t) s Hlinked Hledger) as [Hlinked' Hledger'].
  destruct (t_callback t) eqn:Hcb; destruct Hshaped as [_ ->]; cbn [runCallback].
  - assert (Hpending : In t (pending ReconnectCallback s)).
    { apply filter_In. split; [ exact Hin | rewrite Hcb; reflexivity ]. }
    destruct (fire_reconnect w t s Hsched Htokens Hpending) as [_ Hnone].
    assert (Hidle : peripheral (this s) = None /\ disconnectObservers (homey s) = []).
    { unfold linked in Hlinked. destruct (peripheral (this s)); [ | auto ].
      destruct Hlinked as [_ Hempty]. rewrite Hempty in Hpending. destruct Hpending. }
    destruct Hidle as [Hper Hobs].
    apply connectToDevice_keeps; try assumption.
    apply scheduled_cancel. exact Hsched.
  - destruct (ringStop_book w (snd (cancel (t_handle t) s))) as (Hthis & Ht & Hn & Ho).
    split.
    + apply (linked_keep (snd (cancel (t_handle t) s))); try assumption.
      * rewrite Hthis. reflexivity.
      * rewrite (pending_of_timers _ _ _ Ht). auto.
    + apply (ledger_same (snd (cancel (t_handle t) s))); try assumption;
        rewrite Hthis; reflexivity.
  - destruct (rssiPoll_book w s) as (Hthis & Ht & Hn & Ho).
    split.
    + apply (linked_keep s); try assumption.
      * rewrite Hthis. reflexivity.
      * rewrite (pending_of_timers _ _ _ Ht). auto.
    + apply (ledger_same s); try assumption; rewrite Hthis; reflexivity.
Qed.

Lemma disconnect_keeps w p s :
  sound s -> linked s -> ledger s ->
  linked (react (LinkDisconnects p) w s) /\ ledger (react (LinkDisconnects p) w s).
Proof.
  intros (Hsched & _ & _) Hlinked Hledger. cbn [react].
  assert (Hdrop : ledger (dropObservers p s)).
  { apply (ledger_same s); auto. }
  unfold linked in Hlinked. unfold observing.
  destruct (peripheral (this s)) as [q |] eqn:Hper.
  - destruct Hlinked as [Hobs Hnone]. rewrite Hobs. cbn [filter].
    destruct (q =? p)%nat eqn:Hq; cbn [List.length invoke].
    + destruct (onDisconnect_book w p (dropObservers p s))
        as (Hp & Hrssi & Hf & Hring & Ht & Hn & Ho).
      split.
      * unfold linked. rewrite Hp, Ho. cbn. rewrite Hobs. cbn. rewrite Hq. reflexivity.
      * apply (ledger_reconnect (dropObservers p s)); try assumption.
    + split; [ | exact Hdrop ].
      unfold linked. cbn. rewrite Hper, Hobs. cbn. rewrite Hq. auto.
  - rewrite Hlinked. cbn [filter List.length invoke]. split; [ | exact Hdrop ].
    unfold linked. cbn. rewrite Hper, Hlinked. reflexivity.
Qed.

Lemma pending_grow_other cb s s' t :
  timers (homey s') = timers (homey s) ++ [t] -> callback_eqb (t_callback t) cb = false ->
  pending cb s' = pending cb s.
Proof.
  unfold pending. intros -> Hne. rewrite filter_app. cbn. rewrite Hne. apply app_nil_r.
Qed.

Lemma pending_stop cb s s' :
  timers (homey s') =
    match _ringTimeout (this s) with
    | Some h => filter (fun t => negb (t_handle t =? h)%nat) (timers (homey s))
    | None => timers (homey s)
    end ->
  pending cb s = [] -> pending cb s' = [].
Proof.
  unfold pending. intros -> Hnone. destruct (_ringTimeout (this s)); [ | exact Hnone ].
  rewrite filter_filter_comm, Hnone. reflexivity.
Qed.

Lemma stopped_keeps s s' :
  peripheral (this s') = peripheral (this s) /\
  rssiInterval (this s') = rssiInterval (this s) /\
  reconnectTimeout (this s') = reconnectTimeout (this s) /\
  _ringTimeout (this s') = None /\
  timers (homey s') =
    match _ringTimeout (this s) with
    | Some h => filter (fun t => negb (t_handle t =? h)%nat) (timers (homey s))
    | None => timers (homey s)
    end /\
  nextHandle (homey s') = nextHandle (homey s) /\
  disconnectObservers (homey s') = disconnectObservers (homey s) ->
  linked s -> ledger s -> linked s' /\ ledger s'.
Proof.
  intros (Hp & Hrssi & Hf & Hring & Ht & Hn & Ho) Hlinked Hledger. split.
  - apply (linked_keep s); try assumption. apply pending_stop. exact Ht.
  - unfold ledger in *. rewrite Hrssi, Hf, Hring, Hn, Ht.
    destruct Hledger as (H1 & H2 & H3 & H4 & H5).
    destruct (_ringTimeout (this s)).
    + split; [ apply namesIn_filter; assumption | ].
      split; [ apply namesIn_filter; assumption | ].
      split; [ apply namesIn_none | split; apply tracksIn_filter; assumption ].
    + split; [ assumption | ]. split; [ assumption | ].
      split; [ apply namesIn_none | split; assumption ].
Qed.

Lemma ring_input_keeps i w s :
  sound s -> linked s -> ledger s ->
  match i with
  | RingSet _ | StartRinging | StopRinging => True
  | _ => False
  end ->
  linked (react i w s) /\ ledger (react i w s).
Proof.
  intros (Hsched & (Hring & Hstart & Hstop) & _) Hlinked Hledger Hinput.
  destruct i as [h | p | [|] | | |]; try destruct Hinput; cbn [react].
  - rewrite Hring. destruct (ringListenerRegistered (this s)); cbn [flag invoke]; [ | auto ].
    destruct (ringListener_start_book w s)
      as (_ & Hp & _ & Hrssi & Hf & Hfield & Ht & Hn & Ho & _).
    split.
    + apply (linked_keep s); try assumption.
      rewrite (pending_grow_other _ _ _ _ Ht) by reflexivity. auto.
    + apply (ledger_ring s); assumption.
  - rewrite Hring. destruct (ringListenerRegistered (this s)); cbn [flag invoke]; [ | auto ].
    apply (stopped_keeps s); try assumption. apply ringListener_stop_book.
  - rewrite Hstart. destruct (flowActionsRegistered (this s)); cbn [flag invoke]; [ | auto ].
    destruct (startRingingListener_book w s) as (Hp & _ & Hrssi & Hf & Ho & _ & Hhub).
    destruct (hub_setCapabilityValue w ring (VBool true)) as [u | e].
    + destruct Hhub as (_ & _ & Hfield & Ht & Hn). split.
      * apply (linked_keep s); try assumption.
        rewrite (pending_grow_other _ _ _ _ Ht) by reflexivity. auto.
      * apply (ledger_ring s); assumption.
    + destruct Hhub as (_ & _ & Hfield & Ht & Hn). split.
      * apply (linked_keep s); try assumption.
        rewrite (pending_of_timers _ _ _ Ht). auto.
      * apply (ledger_same s); assumption.
  - rewrite Hstop. destruct (flowActionsRegistered (this s)); cbn [flag invoke]; [ | auto ].
    apply (stopped_keeps s); try assumption. apply stopRingingListener_book.
Qed.

Lemma teardown_keeps w s :
  sound s -> linked s -> ledger s ->
  linked (snd (onDeleted w s)) /\ ledger (snd (onDeleted w s)).
Proof.
  intros ((_ & _ & _ & Hunset) & _) Hlinked Hledger.
  destruct (onDeleted_book w s Hunset) as (Hthis & Ht & Hn & Ho).
  split.
  - apply (linked_keep s); try assumption.
    + rewrite Hthis. reflexivity.
    + unfold pending. rewrite Ht. apply filter_without_nil.
  - unfold ledger in *. rewrite Hthis, Ht, Hn.
    destruct Hledger as (H1 & H2 & H3 & H4 & H5).
    split; [ apply namesIn_without; assumption | ].
    split; [ apply namesIn_without; assumption | ].
    split; [ apply namesIn_without; assumption | ].
    split; apply tracksIn_without; assumption.
Qed.

Lemma react_coherent i w s : coherent s -> coherent (react i w s).
Proof.
  intros (Hsound & Hlinked & Hledger).
  split; [ apply react_sound; exact Hsound | ].
  destruct i as [h | p | v | | |].
  - apply fire_keeps; assumption.
  - apply disconnect_keeps; assumption.
  - apply ring_input_keeps; auto.
  - apply ring_input_keeps; auto.
  - apply ring_input_keeps; auto.
  - apply teardown_keeps; assumption.
Qed.

Lemma run_coherent inputs : forall s, coherent s -> coherent (run inputs s).
Proof.
  induction inputs as [| [i w] rest IH]; intros s H; simpl.
  - exact H.
  - apply IH. apply react_coherent. exact H.
Qed.

Lemma onInitPrefix_created w address stored :
  let s1 := snd (onInitPrefix w (created address stored)) in
  peripheral (this s1) = None /\
  rssiInterval (this s1) = Some 0%nat /\
  reconnectTimeout (this s1) = None /\
  _ringTimeout (this s1) = None /\
  timers (homey s1) = [rssiTimerAt 0%nat] /\
  nextHandle (homey s1) = 1%nat /\
  disconnectObservers (homey s1) = [] /\
  ringListeners (homey s1) = 0%nat /\
  startRunListeners (homey s1) = 0%nat /\
  stopRunListeners (homey s1) = 0%nat /\
  occurrences isFind s1 = 0%nat /\
  occurrences isConnect s1 = 0%nat /\
  alarm s1 = stored alarm_disconnected.
Proof.
  unfold onInitPrefix, startRSSIMonitoring, setInterval, setCapabilityValue, logError, log,
    emit, alarm, occurrences, rssiTimerAt, created.
  unfold_monad. cbn.
  destruct (hub_setCapabilityValue w ring (VBool false)); cbn; repeat split; reflexivity.
Qed.

Lemma onInitPrefix_scheduled w : preserves scheduled (onInitPrefix w).
Proof. unfold onInitPrefix. pres scheduled_side. Qed.

Lemma onInitPrefix_ledger w address stored :
  linked (snd (onInitPrefix w (created address stored))) /\
  ledger (snd (onInitPrefix w (created address stored))).
Proof.
  destruct (onInitPrefix_created w address stored)
    as (Hp & Hrssi & Hf & Hring & Ht & Hn & Ho & _).
  split.
  - unfold linked. rewrite Hp. exact Ho.
  - unfold ledger. rewrite Hrssi, Hf, Hring, Ht, Hn.
    split; [ apply (namesIn_own RssiPollCallback [] 0%nat (rssiTimerAt 0%nat));
             [ constructor | reflexivity | reflexivity ] | ].
    split; [ apply namesIn_none | ]. split; [ apply namesIn_none | ].
    split.
    + apply (tracksIn_own RssiPollCallback [] (rssiTimerAt 0%nat)). reflexivity.
    + intros t [<- | []] Hcb. discriminate Hcb.
Qed.

Lemma started_coherent address stored w : coherent (started address stored w).
Proof.
  split; [ apply started_sound | ].
  unfold started. rewrite onInit_split. unfold bind.
  destruct (onInitPrefix_ledger w address stored) as [Hlinked Hledger].
  destruct (onInitPrefix_created w address stored)
    as (Hp & _ & _ & _ & Ht & _ & Ho & _).
  pose proof (onInitPrefix_scheduled w (created address stored)
                (proj1 (created_sound address stored))) as Hsched.
  destruct (onInitPrefix w (created address stored)) as [[[] | e] s1]; cbn [fst snd] in *.
  - destruct (tooOld w).
    + unfold log, emit, hubDo. cbn [snd]. split.
      * apply (linked_keep s1); auto.
      * apply (ledger_same s1); auto.
    + apply connectToDevice_keeps; try assumption.
      unfold pending. rewrite Ht. reflexivity.
  - auto.
Qed.

Lemma running_coherent address stored w inputs :
  coherent (run inputs (started address stored w)).
Proof. apply run_coherent. apply started_coherent. Qed.

(** ** What the quiet inputs leave pending *)

Lemma callback_eqb_eq a b : callback_eqb a b = true <-> a = b.
Proof. destruct a, b; cbn; split; intros H; first [ reflexivity | discriminate ]. Qed.

Lemma cancel_other_kind cb (h : handle) (ts : list timer) :
  (forall t, In t ts -> t_handle t = h -> t_callback t <> cb) ->
  filter (fun t => callback_eqb (t_callback t) cb)
    (filter (fun t => negb (t_handle t =? h)%nat) ts) =
  filter (fun t => callback_eqb (t_callback t) cb) ts.
Proof.
  intros Hother. rewrite filter_filter_comm. apply filter_keeps_all.
  intros x Hx. apply filter_In in Hx. destruct Hx as [Hin Hcb].
  apply callback_eqb_eq in Hcb.
  destruct (Nat.eqb_spec (t_handle x) h) as [Heq | _]; [ | reflexivity ].
  exfalso. exact (Hother x Hin Heq Hcb).
Qed.

Lemma cancel_found_other cb t s :
  scheduled s -> In t (timers (homey s)) -> t_callback t <> cb ->
  pending cb (snd (cancel (t_handle t) s)) = pending cb s.
Proof.
  intros (_ & Hnodup & _) Hin Hne. unfold cancel, hubDo, pending. cbn.
  apply cancel_other_kind. intros t' Hin' Heq Hcb.
  rewrite (NoDup_map_injective t_handle (timers (homey s)) t' t Hnodup Hin' Hin Heq) in Hcb.
  contradiction.
Qed.

Lemma stop_other_kind cb s s' :
  ledger s -> cb <> RingStopCallback ->
  timers (homey s') =
    match _ringTimeout (this s) with
    | Some h => filter (fun t => negb (t_handle t =? h)%nat) (timers (homey s))
    | None => timers (homey s)
    end ->
  pending cb s' = pending cb s.
Proof.
  intros (_ & _ & [_ Hnames] & _) Hne Ht. unfold pending. rewrite Ht.
  destruct (_ringTimeout (this s)) as [h |]; [ | reflexivity ].
  apply cancel_other_kind. intros t Hin Heq Hcb.
  apply Hne. rewrite <- Hcb. apply Hnames; [ exact Hin | rewrite Heq; reflexivity ].
Qed.

Lemma callback_neqb a b : a <> b -> callback_eqb a b = false.
Proof.
  intros Hne. destruct (callback_eqb a b) eqn:H; [ | reflexivity ].
  apply callback_eqb_eq in H. contradiction.
Qed.

Lemma ring_input_quiet cb i w s :
  coherent s -> cb <> RingStopCallback ->
  match i with
  | RingSet _ | StartRinging | StopRinging => True
  | _ => False
  end ->
  pending cb (react i w s) = pending cb s /\
  disconnectObservers (homey (react i w s)) = disconnectObservers (homey s).
Proof.
  intros ((Hsched & (Hring & Hstart & Hstop) & _) & Hlinked & Hledger) Hne Hinput.
  assert (Hnew : callback_eqb RingStopCallback cb = false).
  { apply callback_neqb. intros Heq. apply Hne. symmetry. exact Heq. }
  destruct i as [h | p | [|] | | |]; try destruct Hinput; cbn [react].
  - rewrite Hring. destruct (ringListenerRegistered (this s)); cbn [flag invoke]; [ | auto ].
    destruct (ringListener_start_book w s) as (_ & _ & _ & _ & _ & _ & Ht & _ & Ho & _).
    split; [ | exact Ho ]. apply (pending_grow_other _ _ _ _ Ht). exact Hnew.
  - rewrite Hring. destruct (ringListenerRegistered (this s)); cbn [flag invoke]; [ | auto ].
    destruct (ringListener_stop_book w s) as (_ & _ & _ & _ & Ht & _ & Ho).
    split; [ | exact Ho ]. apply (stop_other_kind cb s _ Hledger Hne Ht).
  - rewrite Hstart. destruct (flowActionsRegistered (this s)); cbn [flag invoke]; [ | auto ].
    destruct (startRingingListener_book w s) as (_ & _ & _ & _ & Ho & _ & Hhub).
    split; [ | exact Ho ].
    destruct (hub_setCapabilityValue w ring (VBool true)) as [u | e];
      destruct Hhub as (_ & _ & _ & Ht & _).
    + apply (pending_grow_other _ _ _ _ Ht). exact Hnew.
    + apply (pending_of_timers _ _ _ Ht).
  - rewrite Hstop. destruct (flowActionsRegistered (this s)); cbn [flag invoke]; [ | auto ].
    destruct (stopRingingListener_book w s) as (_ & _ & _ & _ & Ht & _ & Ho).
    split; [ | exact Ho ]. apply (stop_other_kind cb s _ Hledger Hne Ht).
Qed.

Lemma fire_quiet cb w h t s :
  coherent s -> cb <> RingStopCallback ->
  find (fun t' => (t_handle t' =? h)%nat) (timers (homey s)) = Some t ->
  t_callback t <> ReconnectCallback ->
  pending cb (snd (fire w h s)) = pending cb s /\
  disconnectObservers (homey (snd (fire w h s))) = disconnectObservers (homey s).
Proof.
  intros ((Hsched & _) & _) Hne Hfind Hkind. rewrite fire_unfold, Hfind.
  apply find_some in Hfind. destruct Hfind as [Hin Hh]. apply Nat.eqb_eq in Hh. subst h.
  pose proof Hsched as (_ & _ & Hshaped & _).
  rewrite Forall_forall in Hshaped. specialize (Hshaped t Hin). unfold shaped in Hshaped.
  destruct (t_callback t) eqn:Hcb; destruct Hshaped as [_ ->]; cbn [runCallback].
  - contradiction.
  - destruct (ringStop_book w (snd (cancel (t_handle t) s))) as (_ & Ht & _ & Ho).
    split; [ | exact Ho ].
    rewrite (pending_of_timers _ _ _ Ht). apply cancel_found_other; try assumption.
    rewrite Hcb. intros Heq. apply Hne. symmetry. exact Heq.
  - destruct (rssiPoll_book w s) as (_ & Ht & _ & Ho).
    split; [ apply (pending_of_timers _ _ _ Ht) | exact Ho ].
Qed.

Lemma react_keeps_tokens i w s :
  coherent s -> isTeardown i = false -> attemptSettles i w s ->
  tokens (react i w s) = tokens s.
Proof.
  intros Hcoherent Hlive Hsettles.
  pose proof Hcoherent as ((Hsched & _ & Htokens) & Hlinked & Hledger).
  assert (Hring : forall i', match i' with
                             | RingSet _ | StartRinging | StopRinging => True
                             | _ => False
                             end -> tokens (react i' w s) = tokens s).
  { intros i' Hi'.
    destruct (ring_input_quiet ReconnectCallback i' w s Hcoherent) as [Hp Ho];
      [ discriminate | exact Hi' | ].
    unfold tokens. rewrite Hp, Ho. reflexivity. }
  destruct i as [h | p | v | | |]; try discriminate Hlive; try (apply Hring; exact I).
  - destruct (find (fun t' => (t_handle t' =? h)%nat) (timers (homey s))) as [t |] eqn:Hfind.
    + destruct (t_callback t) eqn:Hcb.
      * pose proof Hfind as Hfound. apply find_some in Hfound.
        destruct Hfound as [Hin Hh]. apply Nat.eqb_eq in Hh. subst h.
        assert (Hpending : In t (pending ReconnectCallback s)).
        { apply filter_In. split; [ exact Hin | rewrite Hcb; reflexivity ]. }
        destruct (fire_reconnect w t s Hsched Htokens Hpending) as [Hfire Hnone].
        cbn [react attemptSettles] in *.
        specialize (Hsettles t Hfind Hcb). rewrite Hfire in Hsettles.
        rewrite Hfire, connectToDevice_tokens, Hsettles.
        assert (Hobs : disconnectObservers (homey s) = []).
        { unfold linked in Hlinked. destruct (peripheral (this s)); [ | exact Hlinked ].
          destruct Hlinked as [_ Hempty]. rewrite Hempty in Hpending. destruct Hpending. }
        unfold tokens in *. rewrite Hnone. cbn. rewrite Hobs in *. cbn in *.
        destruct (pending ReconnectCallback s) as [| x l]; [ destruct Hpending | ].
        cbn in *. lia.
      * destruct (fire_quiet ReconnectCallback w h t s Hcoherent) as [Hp Ho];
          [ discriminate | exact Hfind | rewrite Hcb; discriminate | ].
        cbn [react]. unfold tokens. rewrite Hp, Ho. reflexivity.
      * destruct (fire_quiet ReconnectCallback w h t s Hcoherent) as [Hp Ho];
          [ discriminate | exact Hfind | rewrite Hcb; discriminate | ].
        cbn [react]. unfold tokens. rewrite Hp, Ho. reflexivity.
    + cbn [react]. rewrite fire_unfold, Hfind. reflexivity.
  - cbn [react]. rewrite invoke_onDisconnect_tokens.
    pose proof (dropObservers_tokens p s). lia.
Qed.

Lemma onDisconnect_keeps_rssi w p v :
  preserves (fun s => pending RssiPollCallback s = v) (onDisconnect w p).
Proof. pres pending_side. Qed.

Lemma react_keeps_rssi i w s :
  coherent s -> isTeardown i = false ->
  pending RssiPollCallback (react i w s) = pending RssiPollCallback s.
Proof.
  intros Hcoherent Hlive.
  pose proof Hcoherent as ((Hsched & _ & Htokens) & Hlinked & Hledger).
  assert (Hring : forall i', match i' with
                             | RingSet _ | StartRinging | StopRinging => True
                             | _ => False
                             end ->
                             pending RssiPollCallback (react i' w s) = pending RssiPollCallback s).
  { intros i' Hi'.
    destruct (ring_input_quiet RssiPollCallback i' w s Hcoherent) as [Hp _];
      [ discriminate | exact Hi' | exact Hp ]. }
  destruct i as [h | p | v | | |]; try discriminate Hlive; try (apply Hring; exact I).
  - destruct (find (fun t' => (t_handle t' =? h)%nat) (timers (homey s))) as [t |] eqn:Hfind.
    + destruct (t_callback t) eqn:Hcb.
      * pose proof Hfind as Hfound. apply find_some in Hfound.
        destruct Hfound as [Hin Hh]. apply Nat.eqb_eq in Hh. subst h.
        assert (Hpending : In t (pending ReconnectCallback s)).
        { apply filter_In. split; [ exact Hin | rewrite Hcb; reflexivity ]. }
        destruct (fire_reconnect w t s Hsched Htokens Hpending) as [Hfire _].
        cbn [react]. rewrite Hfire.
        destruct (connectToDevice_keeps_other_timers w (snd (cancel (t_handle t) s)))
          as (-> & _).
        apply cancel_found_other; try assumption. rewrite Hcb. discriminate.
      * destruct (fire_quiet RssiPollCallback w h t s Hcoherent) as [Hp _];
          [ discriminate | exact Hfind | rewrite Hcb; discriminate | exact Hp ].
      * destruct (fire_quiet RssiPollCallback w h t s Hcoherent) as [Hp _];
          [ discriminate | exact Hfind | rewrite Hcb; discriminate | exact Hp ].
    + cbn [react]. rewrite fire_unfold, Hfind. reflexivity.
  - cbn [react].
    apply (preserves_invoke (fun s' => pending RssiPollCallback s' = pending RssiPollCallback s));
      [ apply onDisconnect_keeps_rssi | reflexivity ].
Qed.

(** ** The session as a whole *)

Lemma run_keeps_tokens inputs :
  forall s, coherent s -> tornDown inputs = false -> settled inputs s ->
    tokens (run inputs s) = tokens s.
Proof.
  induction inputs as [| [i w] rest IH]; intros s Hcoherent Hlive Hsettled; simpl.
  - reflexivity.
  - cbn in Hlive. apply orb_false_elim in Hlive. destruct Hlive as [Hi Hrest].
    destruct Hsettled as [Hhead Htail].
    rewrite IH; [ | apply react_coherent; exact Hcoherent | exact Hrest | exact Htail ].
    apply react_keeps_tokens; assumption.
Qed.

Lemma started_tokens address stored w :
  tokens (started address stored w) =
    if tooOld w then 0%nat
    else match fst (onInit w (created address stored)) with
         | Normal _ => 1%nat
         | Throw _ => 0%nat
         end.
Proof.
  rewrite onInit_result.
  unfold started. rewrite onInit_split. unfold bind.
  destruct (onInitPrefix_created w address stored) as (_ & _ & _ & _ & Ht & _ & Ho & _).
  destruct (onInitPrefix_spec w (created address stored)) as (Hret & _).
  destruct (onInitPrefix w (created address stored)) as [[[] | e] s1]; cbn [fst snd] in *;
    [ | discriminate ].
  assert (Hzero : tokens s1 = 0%nat).
  { unfold tokens, pending. rewrite Ht, Ho. reflexivity. }
  destruct (tooOld w).
  - unfold log, emit, hubDo. cbn [snd]. exact Hzero.
  - rewrite connectToDevice_tokens, Hzero.
    destruct (fst (connectToDevice w s1)); reflexivity.
Qed.

Lemma shaped_reconnect t :
  shaped t -> t_callback t = ReconnectCallback -> t = reconnectTimerAt (t_handle t).
Proof.
  unfold shaped, reconnectTimerAt. destruct t as [h ms cb rp]. cbn.
  intros Hshape ->. destruct Hshape as [-> ->]. reflexivity.
Qed.

(** X13: links and their observers.  In every state a session reaches, from
    [onInit] through any timer firings, link losses, ring commands, actions
    and teardown: while a link is held, exactly one disconnect observer is
    registered, it is the one of that link, and no reconnect timer is
    pending; while none is held, no observer is registered. *)
Theorem link_held_is_link_observed
  (address : option string) (stored : capability -> option capval) (w0 : world)
  (inputs : list (input * world)) :
  let s := run inputs (started address stored w0) in
  match peripheral (this s) with
  | Some p => disconnectObservers (homey s) = [p] /\ pending ReconnectCallback s = []
  | None => disconnectObservers (homey s) = []
  end.
Proof.
  intros s.
  destruct (running_coherent address stored w0 inputs) as (_ & Hlinked & _).
  fold s in Hlinked. unfold linked in Hlinked.
  destruct (peripheral (this s)) as [p |]; exact Hlinked.
Qed.

(** X19: a session without a link keeps trying.  On a hub of version 6 or
    later, along every run whose handlers each run to completion before the
    next input is taken, until teardown and as long as no connect attempt
    is rejected (which takes a rejection reason of [undefined] or [null]):
    whenever no link is held, exactly one reconnect timer is pending, the
    7000 ms one that [reconnectTimeout] names. *)
Theorem session_without_link_retries
  (address : option string) (stored : capability -> option capval) (w0 : world)
  (inputs : list (input * world)) :
  tooOld w0 = false ->
  fst (onInit w0 (created address stored)) = Normal tt ->
  tornDown inputs = false ->
  settled inputs (started address stored w0) ->
  let s := run inputs (started address stored w0) in
  peripheral (this s) = None ->
  exists h,
    reconnectTimeout (this s) = Some h /\
    pending ReconnectCallback s = [reconnectTimerAt h].
Proof.
  intros Hmodern Hinit Hlive Hsettled s Hper.
  destruct (running_coherent address stored w0 inputs)
    as (((_ & _ & Hshaped & _) & _ & _) & Hlinked & Hledger).
  fold s in Hshaped, Hlinked, Hledger. unfold linked in Hlinked.
  rewrite Hper in Hlinked.
  assert (Htokens : tokens s = 1%nat).
  { subst s.
    rewrite run_keeps_tokens; [ | apply started_coherent | exact Hlive | exact Hsettled ].
    rewrite started_tokens, Hmodern, Hinit. reflexivity. }
  unfold tokens in Htokens. rewrite Hlinked in Htokens. cbn in Htokens.
  destruct (pending ReconnectCallback s) as [| t [| t' rest]] eqn:Hpending;
    try (cbn in Htokens; lia).
  assert (Hin : In t (pending ReconnectCallback s)) by (rewrite Hpending; left; reflexivity).
  unfold pending in Hin. apply filter_In in Hin. destruct Hin as [Hin Hcb].
  apply callback_eqb_eq in Hcb.
  destruct Hledger as (_ & _ & _ & _ & Htracks).
  exists (t_handle t). split; [ apply Htracks; assumption | ].
  rewrite Forall_forall in Hshaped.
  rewrite <- (shaped_reconnect t (Hshaped t Hin) Hcb). reflexivity.
Qed.

Lemma session_retries_out_of_range :
  exists h,
    reconnectTimeout
      (this (run [(TimerFires 1%nat, outOfRange)]
               (started (Some tagAddress) unset outOfRange))) = Some h /\
    pending ReconnectCallback
      (run [(TimerFires 1%nat, outOfRange)] (started (Some tagAddress) unset outOfRange)) =
      [reconnectTimerAt h].
Proof.
  apply (session_without_link_retries (Some tagAddress) unset outOfRange
           [(TimerFires 1%nat, outOfRange)]).
  - vm_compute. reflexivity.
  - vm_compute. reflexivity.
  - vm_compute. reflexivity.
  - cbn [settled]. split; [ | exact I ].
    intros t _ _. vm_compute. reflexivity.
  - vm_compute. reflexivity.
Defined.

Lemma filter_filter_and {A : Type} (f g : A -> bool) (l : list A) :
  filter f (filter g l) = filter (fun x => g x && f x) l.
Proof.
  induction l as [| x l IH]; simpl.
  - reflexivity.
  - destruct (g x); simpl; [ destruct (f x) | ]; rewrite IH; reflexivity.
Qed.

Lemma without_as_filter hs : forall ts, without hs ts = filter (spared hs) ts.
Proof.
  unfold without, spared. induction hs as [| h hs IH]; intros ts; simpl.
  - symmetry. apply filter_keeps_all. reflexivity.
  - rewrite IH. apply filter_filter_and.
Qed.

Lemma spared_iff hs t : spared hs t = true <-> ~ In (t_handle t) hs.
Proof.
  unfold spared. rewrite forallb_forall. split.
  - intros H Hin. specialize (H _ Hin). rewrite Nat.eqb_refl in H. discriminate.
  - intros H h Hin. destruct (Nat.eqb_spec (t_handle t) h) as [Heq | _]; [ | reflexivity ].
    exfalso. apply H. rewrite Heq. exact Hin.
Qed.

Lemma teardown_drops field cb hs ts :
  tracksIn field cb ts -> (forall h, field = Some h -> In h hs) ->
  filter (fun t => callback_eqb (t_callback t) cb) (without hs ts) = [].
Proof.
  intros Htracks Hheld. rewrite without_as_filter. apply filter_keeps_none.
  intros x Hx. apply filter_In in Hx. destruct Hx as [Hin Hspared].
  destruct (callback_eqb (t_callback x) cb) eqn:Hcb; [ | reflexivity ].
  apply callback_eqb_eq in Hcb. apply spared_iff in Hspared.
  exfalso. apply Hspared. apply Hheld. apply Htracks; assumption.
Qed.

Lemma teardown_spares cb hs ts :
  (forall t, In t ts -> In (t_handle t) hs -> t_callback t <> cb) ->
  filter (fun t => callback_eqb (t_callback t) cb) (without hs ts) =
  filter (fun t => callback_eqb (t_callback t) cb) ts.
Proof.
  intros Hother. rewrite without_as_filter, filter_filter_comm. apply filter_keeps_all.
  intros x Hx. apply filter_In in Hx. destruct Hx as [Hin Hcb].
  apply callback_eqb_eq in Hcb. apply spared_iff. intros Hheld.
  exact (Hother x Hin Hheld Hcb).
Qed.

Lemma in_held_two (a b : option handle) h :
  In h (held a ++ held b) <-> a = Some h \/ b = Some h.
Proof.
  destruct a as [x |], b as [y |]; cbn; split; intros H;
    repeat match goal with
           | H : _ \/ _ |- _ => destruct H
           | H : False |- _ => destruct H
           | H : Some _ = Some _ |- _ => injection H as ->
           | H : None = Some _ |- _ => discriminate H
           end; subst; auto.
Qed.

Lemma teardown_pending w s :
  coherent s ->
  let s' := snd (onDeleted w s) in
  pending ReconnectCallback s' = [] /\
  pending RssiPollCallback s' = [] /\
  pending RingStopCallback s' = pending RingStopCallback s /\
  this s' = this s /\
  nextHandle (homey s') = nextHandle (homey s) /\
  disconnectObservers (homey s') = disconnectObservers (homey s).
Proof.
  intros (((_ & _ & _ & Hunset) & _) & _ & Hledger) s'. subst s'.
  destruct (onDeleted_book w s Hunset) as (Hthis & Ht & Hn & Ho).
  destruct Hledger as ([_ Hrssi] & [_ Hrec] & _ & Htrssi & Htrec).
  unfold pending. rewrite Ht.
  split.
  { apply (teardown_drops (reconnectTimeout (this s))); [ exact Htrec | ].
    intros h Hh. apply in_held_two. right. exact Hh. }
  split.
  { apply (teardown_drops (rssiInterval (this s))); [ exact Htrssi | ].
    intros h Hh. apply in_held_two. left. exact Hh. }
  split; [ | auto ].
  apply teardown_spares. intros t Hin Hheld Hcb.
  apply in_held_two in Hheld. destruct Hheld as [Hheld | Hheld].
  - rewrite (Hrssi t Hin Hheld) in Hcb. discriminate.
  - rewrite (Hrec t Hin Hheld) in Hcb. discriminate.
Qed.

(** X14: teardown in any state.  In every state a session reaches,
    [onDeleted] leaves no reconnect timer and no RSSI timer pending and
    leaves every ring-stop timer pending; it resets no field of the session
    object and removes no disconnect observer. *)
Theorem teardown_clears_reconnect_and_rssi
  (address : option string) (stored : capability -> option capval) (w0 : world)
  (inputs : list (input * world)) (w : world) :
  let s := run inputs (started address stored w0) in
  let s' := react DeviceDeleted w s in
  pending ReconnectCallback s' = [] /\
  pending RssiPollCallback s' = [] /\
  pending RingStopCallback s' = pending RingStopCallback s /\
  this s' = this s /\
  disconnectObservers (homey s') = disconnectObservers (homey s).
Proof.
  intros s s'. subst s'. cbn [react].
  destruct (teardown_pending w s (running_coherent address stored w0 inputs))
    as (H1 & H2 & H3 & H4 & _ & H5).
  auto.
Qed.

(** X15: a link loss after teardown.  When a session that holds a link is
    deleted, [onDeleted] asks the link to disconnect but leaves its
    disconnect observer registered and [this.peripheral] set; the loss of
    that link then runs the observer, which schedules a reconnect: one
    7000 ms timer is pending again, and its firing runs a connect attempt in
    the deleted session. *)
Theorem link_loss_after_teardown_reconnects
  (address : option string) (stored : capability -> option capval) (w0 : world)
  (inputs : list (input * world)) (w1 w2 : world) (p : link) :
  let s := run inputs (started address stored w0) in
  peripheral (this s) = Some p ->
  let s1 := react DeviceDeleted w1 s in
  let s2 := react (LinkDisconnects p) w2 s1 in
  In (PeripheralDisconnect p) (trace (homey s1)) /\
  peripheral (this s1) = Some p /\
  observing p s1 = 1%nat /\
  pending ReconnectCallback s1 = [] /\
  pending ReconnectCallback s2 = [reconnectTimerAt (nextHandle (homey s))] /\
  forall w3,
    react (TimerFires (nextHandle (homey s))) w3 s2 =
      snd (connectToDevice w3 (snd (cancel (nextHandle (homey s)) s2))).
Proof.
  intros s Hper s1 s2.
  pose proof (running_coherent address stored w0 inputs) as Hcoherent. fold s in Hcoherent.
  pose proof (react_coherent DeviceDeleted w1 s Hcoherent) as Hcoherent1. fold s1 in Hcoherent1.
  pose proof (react_coherent (LinkDisconnects p) w2 s1 Hcoherent1) as Hcoherent2.
  fold s2 in Hcoherent2.
  destruct (teardown_pending w1 s Hcoherent) as (Hrec & _ & _ & Hthis & Hnext & Hobs).
  change (snd (onDeleted w1 s)) with s1 in Hrec, Hthis, Hnext, Hobs.
  pose proof Hcoherent as (((_ & _ & _ & Hunset) & _) & Hlinked & _).
  unfold linked in Hlinked. rewrite Hper in Hlinked. destruct Hlinked as [Hwatch _].
  assert (Hobserving : observing p s1 = 1%nat).
  { unfold observing. rewrite Hobs, Hwatch. cbn. rewrite Nat.eqb_refl. reflexivity. }
  assert (Hpending : pending ReconnectCallback s2 = [reconnectTimerAt (nextHandle (homey s))]).
  { subst s2. cbn [react]. rewrite Hobserving. cbn [invoke].
    destruct (onDisconnect_book w2 p (dropObservers p s1)) as (_ & _ & _ & _ & Ht & _).
    change (timers (homey (dropObservers p s1))) with (timers (homey s1)) in Ht.
    change (nextHandle (homey (dropObservers p s1))) with (nextHandle (homey s1)) in Ht.
    unfold pending in *. rewrite Ht, filter_app, Hrec, Hnext. reflexivity. }
  split.
  { destruct (onDeleted_spec w1 s Hunset) as (delta & _ & Htrace & _ & _ & Hlink).
    rewrite Hper in Hlink. destruct Hlink as (_ & Hin & _).
    change (snd (onDeleted w1 s)) with s1 in Htrace. rewrite Htrace.
    apply in_or_app. right. exact Hin. }
  split; [ rewrite Hthis; exact Hper | ].
  split; [ exact Hobserving | ].
  split; [ exact Hrec | ].
  split; [ exact Hpending | ].
  intros w3. destruct Hcoherent2 as ((Hsched & _ & Htokens) & _).
  destruct (fire_reconnect w3 (reconnectTimerAt (nextHandle (homey s))) s2 Hsched Htokens)
    as [Hfire _].
  { rewrite Hpending. left. reflexivity. }
  cbn [react]. cbn [reconnectTimerAt t_handle] in Hfire. rewrite Hfire. reflexivity.
Qed.

Lemma link_loss_after_teardown_on_a_run :
  let s := run [] (started (Some tagAddress) unset cooperative) in
  let s1 := react DeviceDeleted cooperative s in
  let s2 := react (LinkDisconnects 1%nat) cooperative s1 in
  peripheral (this s) = Some 1%nat /\
  pending ReconnectCallback s2 = [reconnectTimerAt (nextHandle (homey s))].
Proof.
  intros s s1 s2.
  assert (Hper : peripheral (this s) = Some 1%nat) by (vm_compute; reflexivity).
  split; [ exact Hper | ].
  destruct (link_loss_after_teardown_reconnects (Some tagAddress) unset cooperative []
              cooperative cooperative 1%nat Hper) as (_ & _ & _ & _ & Hpending & _).
  exact Hpending.
Defined.

(** ** The RSSI monitor *)

Lemma run_rssi inputs :
  forall s, coherent s ->
    pending RssiPollCallback (run inputs s) =
      if tornDown inputs then [] else pending RssiPollCallback s.
Proof.
  induction inputs as [| [i w] rest IH]; intros s Hcoherent; simpl.
  - reflexivity.
  - rewrite (IH _ (react_coherent i w s Hcoherent)).
    destruct (isTeardown i) eqn:Hi; cbn [fst orb].
    + destruct i; try discriminate Hi. cbn [react].
      destruct (teardown_pending w s Hcoherent) as (_ & -> & _).
      destruct (tornDown rest); reflexivity.
    + rewrite (react_keeps_rssi i w s Hcoherent Hi). reflexivity.
Qed.

Lemma fire_keeps_rssiInterval w h s :
  rssiInterval (this (snd (fire w h s))) = rssiInterval (this s).
Proof. revert s. unfold fire, runCallback. frame (fun s => rssiInterval (this s)). Qed.

Lemma react_keeps_rssiInterval i w s :
  rssiInterval (this (react i w s)) = rssiInterval (this s).
Proof.
  destruct i as [h | p | v | | |]; cbn [react].
  - apply fire_keeps_rssiInterval.
  - apply (preserves_invoke (fun s' => rssiInterval (this s') = rssiInterval (this s)));
      [ pres frame_side | reflexivity ].
  - apply (preserves_invoke (fun s' => rssiInterval (this s') = rssiInterval (this s)));
      [ pres frame_side | reflexivity ].
  - apply (preserves_invoke (fun s' => rssiInterval (this s') = rssiInterval (this s)));
      [ pres frame_side | reflexivity ].
  - apply (preserves_invoke (fun s' => rssiInterval (this s') = rssiInterval (this s)));
      [ pres frame_side | reflexivity ].
  - revert s. frame (fun s => rssiInterval (this s)).
Qed.

Lemma run_keeps_rssiInterval inputs :
  forall s, rssiInterval (this (run inputs s)) = rssiInterval (this s).
Proof.
  induction inputs as [| [i w] rest IH]; intros s; simpl.
  - reflexivity.
  - rewrite IH. apply react_keeps_rssiInterval.
Qed.

Lemma started_rssi address stored w :
  rssiInterval (this (started address stored w)) = Some 0%nat /\
  pending RssiPollCallback (started address stored w) = [rssiTimerAt 0%nat].
Proof.
  unfold started. rewrite onInit_split. unfold bind.
  destruct (onInitPrefix_created w address stored) as (_ & Hfield & _ & _ & Ht & _).
  destruct (onInitPrefix_spec w (created address stored)) as (Hret & _).
  destruct (onInitPrefix w (created address stored)) as [[[] | e] s1]; cbn [fst snd] in *;
    [ | discriminate ].
  assert (Hpending : pending RssiPollCallback s1 = [rssiTimerAt 0%nat]).
  { unfold pending. rewrite Ht. reflexivity. }
  destruct (tooOld w).
  - unfold log, emit, hubDo. cbn [snd]. auto.
  - destruct (connectToDevice_keeps_other_timers w s1) as (-> & _ & -> & _). auto.
Qed.

(** X16: the RSSI monitor.  [onInit] of a new session starts one repeating
    5000 ms poll timer and records its handle in [rssiInterval]; along every
    run that timer, and no other RSSI timer, stays pending until teardown:
    no timer firing, link loss, connect attempt, ring command or action
    cancels it or starts a second one.  From teardown on none is pending,
    while [rssiInterval] still holds the old handle. *)
Theorem one_rssi_monitor_until_teardown
  (address : option string) (stored : capability -> option capval) (w0 : world)
  (inputs : list (input * world)) :
  let s := run inputs (started address stored w0) in
  rssiInterval (this s) = Some 0%nat /\
  pending RssiPollCallback s = if tornDown inputs then [] else [rssiTimerAt 0%nat].
Proof.
  intros s. subst s. destruct (started_rssi address stored w0) as [Hfield Hpending].
  split.
  - rewrite run_keeps_rssiInterval. exact Hfield.
  - rewrite (run_rssi inputs _ (started_coherent address stored w0)), Hpending. reflexivity.
Qed.

(** ** A hub without notifications *)

Lemma dormant_keep s s' :
  this s' = this s ->
  pending ReconnectCallback s' = pending ReconnectCallback s ->
  pending RingStopCallback s' = pending RingStopCallback s ->
  disconnectObservers (homey s') = disconnectObservers (homey s) ->
  ringListeners (homey s') = ringListeners (homey s) ->
  startRunListeners (homey s') = startRunListeners (homey s) ->
  stopRunListeners (homey s') = stopRunListeners (homey s) ->
  occurrences isFind s' = occurrences isFind s ->
  occurrences isConnect s' = occurrences isConnect s ->
  dormant s -> dormant s'.
Proof.
  unfold dormant, tokens. intros -> -> -> -> -> -> -> -> ->. auto.
Qed.

Lemma rssiPoll_dormant w s :
  dormant s -> dormant (snd (rssiPoll w s)) /\ alarm (snd (rssiPoll w s)) = alarm s.
Proof.
  intros H. destruct (rssiPoll_frame w s) as (_ & Hthis & Hskel & _ & Halarm).
  split; [ | exact Halarm ].
  apply (dormant_keep s); try assumption.
  - apply pending_of_timers. exact (f_equal timers Hskel).
  - apply pending_of_timers. exact (f_equal timers Hskel).
  - exact (f_equal disconnectObservers Hskel).
  - exact (f_equal ringListeners Hskel).
  - exact (f_equal startRunListeners Hskel).
  - exact (f_equal stopRunListeners Hskel).
  - generalize s. frame (fun s => occurrences isFind s).
  - generalize s. frame (fun s => occurrences isConnect s).
Qed.

Lemma onDeleted_dormant w s :
  sound s -> dormant s ->
  dormant (snd (onDeleted w s)) /\ alarm (snd (onDeleted w s)) = alarm s.
Proof.
  intros ((_ & _ & _ & Hunset) & _) H.
  destruct (onDeleted_book w s Hunset) as (Hthis & Ht & _ & Ho).
  pose proof H as (Htokens & _ & _ & _ & _ & Hring & _).
  split.
  - unfold dormant in *. unfold tokens in *. rewrite Hthis, Ho.
    unfold pending in *. rewrite Ht.
    assert (Hrec : filter (fun t => callback_eqb (t_callback t) ReconnectCallback)
                     (timers (homey s)) = []).
    { destruct (filter _ (timers (homey s))); [ reflexivity | cbn in Htokens; lia ]. }
    rewrite (filter_without_nil _ _ _ Hrec), (filter_without_nil _ _ _ Hring).
    destruct H as (_ & Hp & Hl1 & Hl2 & Hl3 & _ & Hfind & Hconnect).
    rewrite Hrec in Htokens.
    split; [ exact Htokens | ]. split; [ exact Hp | ].
    split; [ rewrite <- Hl1; generalize s; frame (fun s => ringListeners (homey s)) | ].
    split; [ rewrite <- Hl2; generalize s; frame (fun s => startRunListeners (homey s)) | ].
    split; [ rewrite <- Hl3; generalize s; frame (fun s => stopRunListeners (homey s)) | ].
    split; [ reflexivity | ].
    split; [ rewrite <- Hfind; generalize s; frame (fun s => occurrences isFind s) | ].
    rewrite <- Hconnect. generalize s. frame (fun s => occurrences isConnect s).
  - generalize s. frame (fun s => alarm s).
Qed.

Lemma react_dormant i w s :
  sound s -> dormant s -> react i w s = s \/
  (dormant (react i w s) /\ alarm (react i w s) = alarm s).
Proof.
  intros Hsound Hdormant.
  pose proof Hsound as ((_ & _ & Hshaped & _) & _).
  pose proof Hdormant as (Htokens & Hper & Hl1 & Hl2 & Hl3 & Hring & Hfind & Hconnect).
  assert (Hidle : pending ReconnectCallback s = [] /\ disconnectObservers (homey s) = []).
  { unfold tokens in Htokens.
    destruct (pending ReconnectCallback s), (disconnectObservers (homey s));
      cbn in Htokens; try lia. auto. }
  destruct Hidle as [Hrec Hobs].
  destruct i as [h | p | v | | |]; cbn [react].
  - rewrite fire_unfold.
    destruct (find _ _) as [t |] eqn:Hfound; [ | left; reflexivity ].
    apply find_some in Hfound. destruct Hfound as [Hin _].
    rewrite Forall_forall in Hshaped. specialize (Hshaped t Hin). unfold shaped in Hshaped.
    destruct (t_callback t) eqn:Hcb.
    + exfalso. assert (Hp : In t (pending ReconnectCallback s)).
      { apply filter_In. split; [ exact Hin | rewrite Hcb; reflexivity ]. }
      rewrite Hrec in Hp. destruct Hp.
    + exfalso. assert (Hp : In t (pending RingStopCallback s)).
      { apply filter_In. split; [ exact Hin | rewrite Hcb; reflexivity ]. }
      rewrite Hring in Hp. destruct Hp.
    + destruct Hshaped as [_ ->]. right. cbn [runCallback]. apply rssiPoll_dormant.
      exact Hdormant.
  - right. unfold observing. rewrite Hobs. cbn [filter List.length invoke].
    split; [ | reflexivity ].
    apply (dormant_keep s); try reflexivity; try assumption.
    cbn. rewrite Hobs. reflexivity.
  - left. rewrite Hl1. reflexivity.
  - left. rewrite Hl2. reflexivity.
  - left. rewrite Hl3. reflexivity.
  - right. apply onDeleted_dormant; assumption.
Qed.

Lemma run_dormant inputs :
  forall s, sound s -> dormant s ->
    dormant (run inputs s) /\ alarm (run inputs s) = alarm s.
Proof.
  induction inputs as [| [i w] rest IH]; intros s Hsound Hdormant; simpl.
  - auto.
  - destruct (react_dormant i w s Hsound Hdormant) as [-> | [Hnext Halarm]].
    + apply IH; assumption.
    + destruct (IH _ (react_sound i w s Hsound) Hnext) as [Hrun Hkeep].
      split; [ exact Hrun | rewrite Hkeep; exact Halarm ].
Qed.

Lemma started_dormant address stored w :
  tooOld w = true ->
  dormant (started address stored w) /\
  alarm (started address stored w) = stored alarm_disconnected.
Proof.
  intros Hold. unfold started. rewrite onInit_split. unfold bind.
  destruct (onInitPrefix_created w address stored)
    as (Hp & _ & _ & _ & Ht & _ & Ho & Hl1 & Hl2 & Hl3 & Hfind & Hconnect & Halarm).
  destruct (onInitPrefix_spec w (created address stored)) as (Hret & _).
  destruct (onInitPrefix w (created address stored)) as [[[] | e] s1]; cbn [fst snd] in *;
    [ | discriminate ].
  rewrite Hold. unfold log, emit, hubDo. cbn [snd]. split.
  - unfold dormant, tokens, pending, occurrences in *. cbn.
    rewrite Hp, Ht, Ho, Hl1, Hl2, Hl3, filter_app, length_app, filter_app, length_app,
      Hfind, Hconnect.
    cbn. auto 10.
  - exact Halarm.
Qed.

(** X17: a hub older than version 6.  A session started there never seeks
    a link: along every run no [find] and no [connect] is issued, no
    reconnect or ring-stop timer is ever pending, the phase stays
    disconnected and [alarm_disconnected] keeps the value the hub had
    stored.  No ring listener is registered, so ring commands and both
    actions leave the session as it is. *)
Theorem legacy_hub_session_is_dormant
  (address : option string) (stored : capability -> option capval) (w0 : world)
  (inputs : list (input * world)) :
  tooOld w0 = true ->
  let s := run inputs (started address stored w0) in
  connectionPhase s = Disconnected /\
  occurrences isFind s = 0%nat /\
  occurrences isConnect s = 0%nat /\
  pending ReconnectCallback s = [] /\
  pending RingStopCallback s = [] /\
  alarm s = stored alarm_disconnected /\
  forall w v,
    react (RingSet v) w s = s /\ react StartRinging w s = s /\ react StopRinging w s = s.
Proof.
  intros Hold s.
  destruct (started_dormant address stored w0 Hold) as [Hdormant Halarm].
  destruct (run_dormant inputs _ (started_sound address stored w0) Hdormant)
    as [(Htokens & Hper & Hl1 & Hl2 & Hl3 & Hring & Hfind & Hconnect) Hkeep].
  fold s in Htokens, Hper, Hl1, Hl2, Hl3, Hring, Hfind, Hconnect, Hkeep.
  split; [ unfold connectionPhase; rewrite Hper; reflexivity | ].
  split; [ exact Hfind | ]. split; [ exact Hconnect | ].
  split.
  { unfold tokens in Htokens. destruct (pending ReconnectCallback s);
      [ reflexivity | cbn in Htokens; lia ]. }
  split; [ exact Hring | ].
  split; [ rewrite Hkeep; exact Halarm | ].
  intros w v. cbn [react]. rewrite Hl1, Hl2, Hl3. auto.
Qed.

Lemma legacy_hub_session_on_a_run :
  let s := run [(TimerFires 0%nat, cooperative); (RingSet true, cooperative)]
             (started (Some tagAddress) unset legacyHub) in
  occurrences isFind s = 0%nat /\ alarm s = None.
Proof.
  intros s.
  destruct (legacy_hub_session_is_dormant (Some tagAddress) unset legacyHub
              [(TimerFires 0%nat, cooperative); (RingSet true, cooperative)])
    as (_ & Hfind & _ & _ & _ & Halarm & _).
  { vm_compute. reflexivity. }
  split; [ exact Hfind | exact Halarm ].
Defined.

(** ** The alert characteristic *)

Ltac equipped_side :=
  intros ? ?; first [ assumption | cbn; eexists; reflexivity ].

Lemma fire_equipped w h : preserves equipped (fire w h).
Proof. unfold fire, runCallback. pres equipped_side. Qed.

Lemma react_equipped i w s : equipped s -> equipped (react i w s).
Proof.
  intros H. destruct i as [h | p | v | | |]; cbn [react].
  - apply fire_equipped. exact H.
  - apply preserves_invoke; [ pres equipped_side | exact H ].
  - apply preserves_invoke; [ pres equipped_side | exact H ].
  - apply preserves_invoke; [ pres equipped_side | exact H ].
  - apply preserves_invoke; [ pres equipped_side | exact H ].
  - revert s H. change (preserves equipped (onDeleted w)). pres equipped_side.
Qed.

Lemma holdLink_equipped p : preserves equipped (holdLink p).
Proof. pres equipped_side. Qed.

Lemma attempt_equips w s :
  fst (attempt w s) = Normal tt -> equipped (snd (attempt w s)).
Proof.
  rewrite attempt_phases.
  destruct (establishLink w s) as [[p | e] s1]; [ | discriminate ].
  destruct (notifyReconnected w s1) as [[[] | e] s2]; [ | discriminate ].
  pose proof (bindCharacteristics_needs w p s2) as Hbind.
  destruct (bindCharacteristics w p s2) as [[[] | e] s3]; [ | discriminate ].
  intros _. apply holdLink_equipped.
  destruct (Hbind eq_refl) as (linkLost & alert & _ & Halert & _).
  exists (withId alert). exact Halert.
Qed.

Lemma attempt_throw_keeps_flags w s e :
  fst (attempt w s) = Throw e ->
  ringListenerRegistered (this (snd (attempt w s))) = ringListenerRegistered (this s) /\
  flowActionsRegistered (this (snd (attempt w s))) = flowActionsRegistered (this s).
Proof.
  rewrite attempt_phases.
  destruct (establishLink_frame w s) as (Hthis1 & _).
  destruct (establishLink w s) as [[p | e1] s1]; cbn [fst snd] in *;
    [ | intros _; rewrite Hthis1; auto ].
  assert (H2 : ringListenerRegistered (this (snd (notifyReconnected w s1))) =
               ringListenerRegistered (this s1) /\
               flowActionsRegistered (this (snd (notifyReconnected w s1))) =
               flowActionsRegistered (this s1)).
  { split.
    - generalize s1. frame (fun s => ringListenerRegistered (this s)).
    - generalize s1. frame (fun s => flowActionsRegistered (this s)). }
  destruct (notifyReconnected w s1) as [[[] | e2] s2]; cbn [fst snd] in *;
    [ | intros _; rewrite Hthis1 in H2; exact H2 ].
  assert (H3 : ringListenerRegistered (this (snd (bindCharacteristics w p s2))) =
               ringListenerRegistered (this s2) /\
               flowActionsRegistered (this (snd (bindCharacteristics w p s2))) =
               flowActionsRegistered (this s2)).
  { split.
    - generalize s2. frame (fun s => ringListenerRegistered (this s)).
    - generalize s2. frame (fun s => flowActionsRegistered (this s)). }
  destruct (bindCharacteristics w p s2) as [[[] | e3] s3]; cbn [fst snd] in *.
  - destruct (holdLink_spec p s3) as (Hret & _). rewrite Hret. discriminate.
  - intros _. destruct H2 as [H2a H2b]. destruct H3 as [H3a H3b].
    rewrite H3a, H3b, H2a, H2b, Hthis1. auto.
Qed.

Lemma attemptFailed_keeps_flags w e s :
  ringListenerRegistered (this (snd (attemptFailed w e s))) = ringListenerRegistered (this s) /\
  flowActionsRegistered (this (snd (attemptFailed w e s))) = flowActionsRegistered (this s).
Proof.
  split.
  - generalize s. frame (fun s => ringListenerRegistered (this s)).
  - generalize s. frame (fun s => flowActionsRegistered (this s)).
Qed.

Lemma connectToDevice_ready w s :
  ringIdle s -> equipped (snd (connectToDevice w s)) \/ ringIdle (snd (connectToDevice w s)).
Proof.
  intros (Hr & Hf & Hp).
  destruct (connectToDevice_keeps_other_timers w s) as (_ & Hpending & _).
  pose proof (attempt_equips w s) as Hequips.
  pose proof (attempt_throw_keeps_flags w s) as Hflags.
  unfold ringIdle. rewrite Hpending. unfold connectToDevice, try_catch in *.
  destruct (attempt w s) as [[[] | e] s1]; cbn [fst snd] in *.
  - left. apply Hequips. reflexivity.
  - right. destruct (Hflags e eq_refl) as [H1 H2].
    destruct (attemptFailed_keeps_flags w e s1) as [H3 H4].
    rewrite H3, H4, H1, H2. auto.
Qed.

Ltac ringIdle_side :=
  intros ? (? & ? & ?); split; [ assumption | split; [ assumption | ] ];
  first
    [ assumption
    | rewrite pending_schedule_same by reflexivity; assumption
    | rewrite pending_cancel;
      match goal with H : pending _ _ = [] |- _ => rewrite H end; reflexivity ].

Lemma onDisconnect_ringIdle w p : preserves ringIdle (onDisconnect w p).
Proof. pres ringIdle_side. Qed.

Lemma onDeleted_ringIdle w : preserves ringIdle (onDeleted w).
Proof. pres ringIdle_side. Qed.

Lemma rssiPoll_ringIdle w : preserves ringIdle (rssiPoll w).
Proof. pres ringIdle_side. Qed.

Lemma react_ready i w s :
  sound s -> equipped s \/ ringIdle s ->
  equipped (react i w s) \/ ringIdle (react i w s).
Proof.
  intros (Hsched & (Hl1 & Hl2 & Hl3) & _) [Hequipped | Hidle].
  { left. apply react_equipped. exact Hequipped. }
  pose proof Hidle as (Hr & Hf & Hp).
  destruct i as [h | p | v | | |]; cbn [react].
  - rewrite fire_unfold.
    destruct (find _ _) as [t |] eqn:Hfound; [ | right; exact Hidle ].
    apply find_some in Hfound. destruct Hfound as [Hin _].
    destruct Hsched as (_ & _ & Hshaped & _).
    rewrite Forall_forall in Hshaped. specialize (Hshaped t Hin). unfold shaped in Hshaped.
    destruct (t_callback t) eqn:Hcb; destruct Hshaped as [_ ->]; cbn [runCallback].
    + apply connectToDevice_ready. unfold ringIdle, cancel, hubDo. cbn [snd].
      rewrite pending_cancel, Hp. auto.
    + exfalso. assert (Hpending : In t (pending RingStopCallback s)).
      { apply filter_In. split; [ exact Hin | rewrite Hcb; reflexivity ]. }
      rewrite Hp in Hpending. destruct Hpending.
    + right. apply rssiPoll_ringIdle. exact Hidle.
  - right. apply preserves_invoke; [ apply onDisconnect_ringIdle | exact Hidle ].
  - right. rewrite Hl1, Hr. exact Hidle.
  - right. rewrite Hl2, Hf. exact Hidle.
  - right. rewrite Hl3, Hf. exact Hidle.
  - right. apply onDeleted_ringIdle. exact Hidle.
Qed.

Lemma run_ready inputs :
  forall s, sound s -> equipped s \/ ringIdle s ->
    equipped (run inputs s) \/ ringIdle (run inputs s).
Proof.
  induction inputs as [| [i w] rest IH]; intros s Hsound H; simpl.
  - exact H.
  - apply IH; [ apply react_sound; exact Hsound | apply react_ready; assumption ].
Qed.

Lemma started_ready address stored w :
  equipped (started address stored w) \/ ringIdle (started address stored w).
Proof.
  unfold started. rewrite onInit_split. unfold bind.
  assert (Hidle : ringIdle (snd (onInitPrefix w (created address stored)))).
  { assert (H0 : ringIdle (created address stored)) by (repeat split).
    revert H0. generalize (created address stored).
    change (preserves ringIdle (onInitPrefix w)). unfold onInitPrefix. pres ringIdle_side. }
  destruct (onInitPrefix w (created address stored)) as [[[] | e] s1]; cbn [fst snd] in *.
  - destruct (tooOld w).
    + right. exact Hidle.
    + apply connectToDevice_ready. exact Hidle.
  - right. exact Hidle.
Qed.

(** X18: ring commands always find an alert characteristic.  The listeners
    are registered only after a connect attempt has stored
    [this.alertChar], and no method ever clears that field.  So in every
    state a session reaches: while [alertChar] is unset no ring listener and
    no action listener is registered and no ring-stop timer is pending, so
    that ring commands, actions and timer firings never run [ringDevice];
    once it is set it stays set through every input, also through a link
    loss and teardown.  The branch of [ringDevice] that catches a missing
    handle is never taken by a listener or a timer. *)
Theorem ring_commands_find_alert_characteristic
  (address : option string) (stored : capability -> option capval) (w0 : world)
  (inputs : list (input * world)) :
  let s := run inputs (started address stored w0) in
  match alertChar (this s) with
  | Some _ => forall i w, exists ch, alertChar (this (react i w s)) = Some ch
  | None =>
      ringListeners (homey s) = 0%nat /\
      startRunListeners (homey s) = 0%nat /\
      stopRunListeners (homey s) = 0%nat /\
      pending RingStopCallback s = [] /\
      forall w v,
        react (RingSet v) w s = s /\ react StartRinging w s = s /\ react StopRinging w s = s
  end.
Proof.
  intros s.
  destruct (running_sound address stored w0 inputs) as (_ & (Hl1 & Hl2 & Hl3) & _).
  fold s in Hl1, Hl2, Hl3.
  destruct (run_ready inputs _ (started_sound address stored w0)
              (started_ready address stored w0)) as [Hequipped | (Hr & Hf & Hp)];
    fold s in Hequipped || fold s in Hr, Hf, Hp.
  - destruct (alertChar (this s)) as [ch |] eqn:Halert.
    + intros i w. apply react_equipped. exists ch. exact Halert.
    + destruct Hequipped as [ch Hch]. rewrite Halert in Hch. discriminate.
  - destruct (alertChar (this s)) as [ch |] eqn:Halert.
    + intros i w. apply react_equipped. exists ch. exact Halert.
    + rewrite Hr in Hl1. rewrite Hf in Hl2, Hl3. cbn in Hl1, Hl2, Hl3.
      repeat (split; [ assumption | ]).
      intros w v. cbn [react]. rewrite Hl1, Hl2, Hl3. auto.
Qed.
